(** * Process control (procctl) of the kernel: a shallow embedding

    This development embeds [sys/kern/kern_procctl.c] and states the
    properties of its operations: protection propagation, reaper
    acquisition and release, reaper introspection, the reaper signal
    fan-out, the trace controls and the dispatcher with its system call
    entry.

    Integers of the C code are [Z]; the bit operations are [Z.land],
    [Z.lor] and [Z.lnot].  A [struct proc *] is a handle into a finite map
    of process records ([None] is the NULL pointer).  The intrusive
    [LIST_ENTRY] links of <sys/queue.h> are fields of the records, and a
    loop over them carries an iteration bound.  Functions that change
    kernel state are computations of the monad [kern]. *)

From Stdlib Require Import ZArith Lia Bool List.
From stdpp Require Import base option list gmap.

Local Open Scope Z_scope.

(** ** Constants of the headers

    The headers are not part of the sources at hand; the constants carry
    the values of <sys/errno.h>, <sys/proc.h>, <sys/procctl.h>,
    <sys/signalvar.h>, <sys/signal.h>, <sys/priv.h> and <sys/wait.h>. *)

Module Errno.
(** [EPERM] is the specification's PermissionDenied, [ESRCH] its
    NotFound, [EBUSY] its Busy and AlreadyActive, [EINVAL] its
    InvalidArgument and [ECAPMODE] its RestrictedContext. *)
Definition EPERM : Z := 1.
Definition ESRCH : Z := 3.
Definition EFAULT : Z := 14.
Definition EBUSY : Z := 16.
Definition EINVAL : Z := 22.
Definition ECAPMODE : Z := 94.
End Errno.
Export Errno.

Definition P_SYSTEM : Z := 0x00200.
Definition P_TRACED : Z := 0x00800.
Definition P_PROTECTED : Z := 0x100000.
Definition P2_INHERIT_PROTECTED : Z := 0x00000001.
Definition P2_NOTRACE : Z := 0x00000002.
Definition P2_NOTRACE_EXEC : Z := 0x00000004.
Definition P_TREE_REAPER : Z := 0x00000004.

Definition PROC_SPROTECT : Z := 1.
Definition PROC_REAP_ACQUIRE : Z := 2.
Definition PROC_REAP_RELEASE : Z := 3.
Definition PROC_REAP_STATUS : Z := 4.
Definition PROC_REAP_GETPIDS : Z := 5.
Definition PROC_REAP_KILL : Z := 6.
Definition PROC_TRACE_CTL : Z := 7.
Definition PROC_TRACE_STATUS : Z := 8.

Definition PPROT_OP (x : Z) : Z := Z.land x 0xf.
Definition PPROT_SET : Z := 0x1.
Definition PPROT_CLEAR : Z := 0x2.
Definition PPROT_FLAGS (x : Z) : Z := Z.land x (Z.lnot 0xf).
Definition PPROT_DESCEND : Z := 0x10.
Definition PPROT_INHERIT : Z := 0x20.

Definition REAPER_STATUS_OWNED : Z := 0x00000001.
Definition REAPER_STATUS_REALINIT : Z := 0x00000002.
Definition REAPER_PIDINFO_VALID : Z := 0x00000001.
Definition REAPER_PIDINFO_CHILD : Z := 0x00000002.
Definition REAPER_KILL_CHILDREN : Z := 0x00000001.
Definition REAPER_KILL_SUBTREE : Z := 0x00000002.

Definition PROC_TRACE_CTL_ENABLE : Z := 1.
Definition PROC_TRACE_CTL_DISABLE : Z := 2.
Definition PROC_TRACE_CTL_DISABLE_EXEC : Z := 3.

Definition _SIG_MAXSIG : Z := 128.
Definition SI_USER : Z := 0x10001.
Definition PRIV_VM_MADV_PROTECT : Z := 360.

Definition P_PID : Z := 0.
Definition P_PGID : Z := 2.

(** [u_int] arithmetic wraps at 2^32. *)
Definition u_int (x : Z) : Z := x mod 2 ^ 32.

(** ** Data model *)

(** A [struct proc *]. *)
Definition procp : Type := Z.

Inductive proc_state : Type := PRS_NEW | PRS_NORMAL | PRS_ZOMBIE.

Global Instance proc_state_eq_dec : EqDecision proc_state.
Proof. solve_decision. Defined.

(** The fields of [struct proc] that the file reads or writes.  The three
    lists a process heads or sits on are intrusive: [p_children] and
    [p_reaplist] are the [lh_first] of the list heads, [p_sibling],
    [p_reapsibling] and [p_pglist] the [le_next] of the entries. *)
Record proc : Type := mkproc {
  p_pid : Z;
  p_flag : Z;
  p_flag2 : Z;
  p_treeflag : Z;
  p_traceflag : Z;
  p_state : proc_state;
  p_pptr : option procp;
  p_children : option procp;
  p_sibling : option procp;
  p_reaper : procp;
  p_reaplist : option procp;
  p_reapsibling : option procp;
  p_reapsubtree : Z;
  p_pglist : option procp
}.

Definition with_p_flag (v : Z) (p : proc) : proc :=
  mkproc (p_pid p) v (p_flag2 p) (p_treeflag p) (p_traceflag p) (p_state p)
    (p_pptr p) (p_children p) (p_sibling p) (p_reaper p) (p_reaplist p)
    (p_reapsibling p) (p_reapsubtree p) (p_pglist p).

Definition with_p_flag2 (v : Z) (p : proc) : proc :=
  mkproc (p_pid p) (p_flag p) v (p_treeflag p) (p_traceflag p) (p_state p)
    (p_pptr p) (p_children p) (p_sibling p) (p_reaper p) (p_reaplist p)
    (p_reapsibling p) (p_reapsubtree p) (p_pglist p).

Definition with_p_treeflag (v : Z) (p : proc) : proc :=
  mkproc (p_pid p) (p_flag p) (p_flag2 p) v (p_traceflag p) (p_state p)
    (p_pptr p) (p_children p) (p_sibling p) (p_reaper p) (p_reaplist p)
    (p_reapsibling p) (p_reapsubtree p) (p_pglist p).

(** [struct pgrp]: the head of the member list. *)
Record pgrp : Type := mkpgrp {
  pg_id : Z;
  pg_members : option procp
}.

(** The calling thread: its process and the real user id of its
    credentials. *)
Record thread : Type := mkthread {
  td_proc : procp;
  cr_ruid : Z
}.

Record ksiginfo_t : Type := mkksi {
  ksi_signo : Z;
  ksi_code : Z;
  ksi_pid : Z;
  ksi_uid : Z
}.

(** The request and result records of <sys/procctl.h>. *)
Record procctl_reaper_status : Type := mkrs {
  rs_flags : Z;
  rs_children : Z;
  rs_descendants : Z;
  rs_reaper : Z;
  rs_pid : Z
}.

Record procctl_reaper_pidinfo : Type := mkpi {
  pi_pid : Z;
  pi_subtree : Z;
  pi_flags : Z
}.

Record procctl_reaper_pids : Type := mkrp {
  rp_count : Z;
  rp_pids : Z
}.

Record procctl_reaper_kill : Type := mkrk {
  rk_sig : Z;
  rk_flags : Z;
  rk_subtree : Z;
  rk_killed : Z;
  rk_fpid : Z
}.

(** What a user address holds: the objects [copyin] and [copyout] move. *)
Inductive uval : Type :=
| UInt (z : Z)
| UStatus (rs : procctl_reaper_status)
| UPids (rp : procctl_reaper_pids)
| UKill (rk : procctl_reaper_kill)
| UPidinfo (l : list procctl_reaper_pidinfo).

(** The kernel state: the process records, the user memory of the caller
    and the signals handed to the delivery code, latest first. *)
Record kstate : Type := mkstate {
  k_procs : gmap procp proc;
  k_umem : gmap Z uval;
  k_sigq : list (procp * Z * ksiginfo_t)
}.

Definition with_k_procs (h : gmap procp proc) (s : kstate) : kstate :=
  mkstate h (k_umem s) (k_sigq s).
Definition with_k_umem (m : gmap Z uval) (s : kstate) : kstate :=
  mkstate (k_procs s) m (k_sigq s).
Definition with_k_sigq (q : list (procp * Z * ksiginfo_t)) (s : kstate) : kstate :=
  mkstate (k_procs s) (k_umem s) q.

(** ** The monad of kernel computations *)

Inductive result (A : Type) : Type :=
| Ok (a : A)
| Panic          (* a KASSERT failed *)
| Fault          (* a pointer that names no process record was followed *)
| OutOfFuel.     (* the iteration bound of a loop was reached *)
Arguments Ok {A} a.
Arguments Panic {A}.
Arguments Fault {A}.
Arguments OutOfFuel {A}.

Definition kern (A : Type) : Type := kstate -> result (A * kstate).

Definition kret {A} (a : A) : kern A := fun s => Ok (a, s).

Definition kbind {A B} (c : kern A) (k : A -> kern B) : kern B :=
  fun s =>
    match c s with
    | Ok (a, s') => k a s'
    | Panic => Panic
    | Fault => Fault
    | OutOfFuel => OutOfFuel
    end.

Declare Scope kern_scope.
Delimit Scope kern_scope with kern.
Bind Scope kern_scope with kern.
Notation "'let*' x := c 'in' k" := (kbind c (fun x => k))
  (at level 10, x name, c at level 100, k at level 200) : kern_scope.
Notation "'let*' ' pat := c 'in' k" :=
  (kbind c (fun x => match x with pat => k end))
  (at level 10, pat pattern, c at level 100, k at level 200) : kern_scope.
Local Open Scope kern_scope.

Definition kpanic {A} : kern A := fun _ => Panic.
Definition kfault {A} : kern A := fun _ => Fault.
Definition kdiverge {A} : kern A := fun _ => OutOfFuel.
Definition kget : kern kstate := fun s => Ok (s, s).
Definition kmodify (f : kstate -> kstate) : kern unit := fun s => Ok (tt, f s).

Definition KASSERT (c : bool) : kern unit :=
  if c then kret tt else kpanic.

(** [*p]: the record a process pointer names. *)
Definition deref (p : procp) : kern proc :=
  fun s =>
    match k_procs s !! p with
    | Some pr => Ok (pr, s)
    | None => Fault
    end.

(** [p->field = ...], as an update of the record [p] names. *)
Definition update (p : procp) (f : proc -> proc) : kern unit :=
  fun s =>
    match k_procs s !! p with
    | Some pr => Ok (tt, with_k_procs (<[p := f pr]> (k_procs s)) s)
    | None => Fault
    end.

(** [(x & m) != 0]. *)
Definition isset (x m : Z) : bool := negb (Z.land x m =? 0).

(** ** The collaborators

    The functions of the rest of the kernel that the file calls: the
    credential checks, the privilege check, the lookups by identifier, the
    real parent of a process, the reassignment of a reaper's descendants,
    and what other threads do to the state while the process tree lock is
    not held.  The checks return an errno value, 0 for success; they read
    the credentials of the thread and of the process, which nothing in
    this file changes, so they do not take the state. *)
Class Collaborators : Type := {
  initproc : procp;
  p_cansee : thread -> procp -> Z;
  p_cansched : thread -> procp -> Z;
  p_cansignal : thread -> procp -> Z -> Z;
  priv_check : thread -> Z -> Z;
  IN_CAPABILITY_MODE : thread -> bool;
  pfind : Z -> kstate -> option procp;
  pgfind : Z -> kstate -> option pgrp;
  proc_realparent : kstate -> procp -> option procp;
  reaper_abandon_children : procp -> bool -> kstate -> kstate;
  tree_unlocked : kstate -> kstate
}.

Section Code.
Context {K : Collaborators}.

Definition curproc (td : thread) : procp := td_proc td.

(** ** Attribute propagation *)

Definition protect_setchild (td : thread) (p : procp) (flags : Z) : kern Z :=
  let* pr := deref p in
  if isset (p_flag pr) P_SYSTEM || negb (p_cansched td p =? 0) then kret 0
  else
    let* _ :=
      (if isset flags PPROT_SET then
         let* _ := update p (fun r =>
           with_p_flag (Z.lor (p_flag r) P_PROTECTED) r) in
         if isset flags PPROT_INHERIT then
           update p (fun r =>
             with_p_flag2 (Z.lor (p_flag2 r) P2_INHERIT_PROTECTED) r)
         else kret tt
       else
         let* _ := update p (fun r =>
           with_p_flag (Z.land (p_flag r) (Z.lnot P_PROTECTED)) r) in
         update p (fun r =>
           with_p_flag2 (Z.land (p_flag2 r) (Z.lnot P2_INHERIT_PROTECTED)) r)) in
    kret 1.

(** The inner loop of [protect_setchildren]: from a process without
    children, go to the next sibling, or up and on from the parent; [None]
    when [top] is reached. *)
Fixpoint protect_ascend (fuel : nat) (top p : procp) : kern (option procp) :=
  match fuel with
  | O => kdiverge
  | S fuel' =>
    if p =? top then kret None
    else
      let* pr := deref p in
      match p_sibling pr with
      | Some sib => kret (Some sib)
      | None =>
        match p_pptr pr with
        | Some pp => protect_ascend fuel' top pp
        | None => kfault
        end
      end
  end.

(** The outer loop of [protect_setchildren], entered with the current
    process [p] and the accumulated [ret]. *)
Fixpoint protect_setchildren_from (fuel : nat) (td : thread) (top : procp)
    (flags : Z) (p : procp) (ret : Z) : kern Z :=
  match fuel with
  | O => kdiverge
  | S fuel' =>
    let* r := protect_setchild td p flags in
    let ret := Z.lor ret r in
    let* pr := deref p in
    match p_children pr with
    | Some child => protect_setchildren_from fuel' td top flags child ret
    | None =>
      let* next := protect_ascend fuel' top p in
      match next with
      | None => kret ret
      | Some q => protect_setchildren_from fuel' td top flags q ret
      end
    end
  end.

Definition protect_setchildren (fuel : nat) (td : thread) (top : procp)
    (flags : Z) : kern Z :=
  protect_setchildren_from fuel td top flags top 0.

Definition protect_set (fuel : nat) (td : thread) (p : procp) (flags : Z)
    : kern Z :=
  if negb ((PPROT_OP flags =? PPROT_SET) || (PPROT_OP flags =? PPROT_CLEAR))
  then kret EINVAL
  else if negb (Z.land (PPROT_FLAGS flags)
                  (Z.lnot (Z.lor PPROT_DESCEND PPROT_INHERIT)) =? 0)
  then kret EINVAL
  else
    let error := priv_check td PRIV_VM_MADV_PROTECT in
    if negb (error =? 0) then kret error
    else
      let* ret :=
        (if isset flags PPROT_DESCEND then protect_setchildren fuel td p flags
         else protect_setchild td p flags) in
      if ret =? 0 then kret EPERM else kret 0.

(** ** Reaper lifecycle *)

Definition reap_acquire (td : thread) (p : procp) : kern Z :=
  if negb (p =? curproc td) then kret EPERM
  else
    let* pr := deref p in
    if negb (Z.land (p_treeflag pr) P_TREE_REAPER =? 0) then kret EBUSY
    else
      let* _ := update p (fun r =>
        with_p_treeflag (Z.lor (p_treeflag r) P_TREE_REAPER) r) in
      kret 0.

Definition reap_release (td : thread) (p : procp) : kern Z :=
  if negb (p =? curproc td) then kret EPERM
  else if p =? initproc then kret EINVAL
  else
    let* pr := deref p in
    if Z.land (p_treeflag pr) P_TREE_REAPER =? 0 then kret EINVAL
    else
      let* _ := kmodify (reaper_abandon_children p false) in
      kret 0.

(** ** Lists of processes

    [for (var = first; var != NULL; var = var->field.le_next) body], the
    loop of [LIST_FOREACH].  The body works on the loop's variables [acc]
    and says whether it leaves the loop ([true] is [break]). *)
Fixpoint LIST_FOREACH {A : Type} (fuel : nat) (field : proc -> option procp)
    (var : option procp) (body : procp -> A -> kern (bool * A)) (acc : A)
    : kern A :=
  match var with
  | None => kret acc
  | Some p2 =>
    match fuel with
    | O => kdiverge
    | S fuel' =>
      let* '(brk, acc') := body p2 acc in
      if (brk : bool) then kret acc'
      else
        let* p2r := deref p2 in
        LIST_FOREACH fuel' field (field p2r) body acc'
    end
  end.

(** ** Reaper introspection *)

(** [reap = (p->p_treeflag & P_TREE_REAPER) == 0 ? p->p_reaper : p]. *)
Definition reaper_of (p : procp) (pr : proc) : procp :=
  if Z.land (p_treeflag pr) P_TREE_REAPER =? 0 then p_reaper pr else p.

Definition reap_status (fuel : nat) (td : thread) (p : procp)
    : kern (Z * procctl_reaper_status) :=
  let* pr := deref p in
  let reap := reaper_of p pr in
  let flags :=
    if Z.land (p_treeflag pr) P_TREE_REAPER =? 0 then 0
    else Z.lor 0 REAPER_STATUS_OWNED in
  let flags :=
    if reap =? initproc then Z.lor flags REAPER_STATUS_REALINIT
    else flags in
  let* rr := deref reap in
  match p_reaplist rr with
  | Some _ =>
    match p_children rr with
    | None => kpanic
    | Some first =>
      let* fr := deref first in
      let* '(children, descendants) :=
        LIST_FOREACH fuel p_reapsibling (p_reaplist rr)
          (fun p2 '(c, d) =>
             let* s := kget in
             let c := if decide (proc_realparent s p2 = Some reap)
                      then u_int (c + 1) else c in
             kret (false, (c, u_int (d + 1))))
          (0, 0) in
      kret (0, mkrs flags children descendants (p_pid rr) (p_pid fr))
    end
  | None =>
    let* _ := KASSERT (bool_decide (p_children rr = None)) in
    kret (0, mkrs flags 0 0 (p_pid rr) (-1))
  end.

(** Modelled from the spec: [copyin] and [copyout], which are not part of
    this file, copy "already-materialized request/result records" across
    the trust boundary.  A user address holds one such record; an address
    that holds none cannot be read or written (EFAULT), and neither can a
    record of another kind be read. *)
Definition copyin (uaddr : Z) : kern (option uval) :=
  fun s => Ok (k_umem s !! uaddr, s).

Definition copyout (v : uval) (uaddr : Z) : kern Z :=
  fun s =>
    match k_umem s !! uaddr with
    | Some _ => Ok (0, with_k_umem (<[uaddr := v]> (k_umem s)) s)
    | None => Ok (EFAULT, s)
    end.

(** [pi[i] = v] on a buffer of [length pi] entries; a store beyond the
    buffer is a fault. *)
Definition store (i : Z) (v : procctl_reaper_pidinfo)
    (pi : list procctl_reaper_pidinfo) : kern (list procctl_reaper_pidinfo) :=
  if (0 <=? i) && (i <? Z.of_nat (length pi))
  then kret (<[Z.to_nat i := v]> pi)
  else kfault.

(** The body of the second loop of [reap_getpids], on the loop's
    variables [i] and the buffer [pi] of [n] entries. *)
Definition reap_getpids_fill (reap : procp) (n : Z) (p2 : procp)
    (acc : Z * list procctl_reaper_pidinfo)
    : kern (bool * (Z * list procctl_reaper_pidinfo)) :=
  let '(i, pi) := acc in
  if i =? n then kret (true, (i, pi))
  else
    let* p2r := deref p2 in
    let* s := kget in
    let flags := REAPER_PIDINFO_VALID in
    let flags :=
      if decide (proc_realparent s p2 = Some reap)
      then Z.lor flags REAPER_PIDINFO_CHILD else flags in
    let* pi := store i (mkpi (p_pid p2r) (p_reapsubtree p2r) flags) pi in
    kret (false, (u_int (i + 1), pi)).

(** The [malloc] of [n] entries with [M_WAITOK]: a buffer of [n] entries,
    none of which is read before it is written. *)
Definition malloc_pidinfo (n : Z) : list procctl_reaper_pidinfo :=
  replicate (Z.to_nat n) (mkpi 0 0 0).

Definition reap_getpids (fuel : nat) (td : thread) (p : procp)
    (rp : procctl_reaper_pids) : kern Z :=
  let* pr := deref p in
  let reap := reaper_of p pr in
  let* rr := deref reap in
  let* n :=
    LIST_FOREACH fuel p_reapsibling (p_reaplist rr)
      (fun _ n => kret (false, u_int (n + 1))) 0 in
  (* sx_unlock(&proctree_lock); malloc(); sx_slock(&proctree_lock) *)
  let n := if rp_count rp <? n then rp_count rp else n in
  let pi := malloc_pidinfo n in
  let* _ := kmodify tree_unlocked in
  let* rr := deref reap in
  let* '(i, pi) :=
    LIST_FOREACH fuel p_reapsibling (p_reaplist rr)
      (reap_getpids_fill reap n) (0, pi) in
  (* sx_sunlock(&proctree_lock); copyout(); sx_slock(&proctree_lock) *)
  let* _ := kmodify tree_unlocked in
  copyout (UPidinfo (take (Z.to_nat i) pi)) (rp_pids rp).

(** ** Reaper signal fan-out *)

(** Modelled from the spec: [pksignal], which is not part of this file;
    "the core constructs the signal description and hands it off".  The
    hand-off is recorded in [k_sigq]. *)
Definition pksignal (p : procp) (sig : Z) (ksi : ksiginfo_t) : kern unit :=
  kmodify (fun s => with_k_sigq ((p, sig, ksi) :: k_sigq s) s).

Definition with_rk_out (killed fpid : Z) (rk : procctl_reaper_kill)
    : procctl_reaper_kill :=
  mkrk (rk_sig rk) (rk_flags rk) (rk_subtree rk) killed fpid.

(** The body of the loop of [reap_kill], on the loop's variables [error]
    and [rk]. *)
Definition reap_kill_body (td : thread) (ksi : ksiginfo_t) (p2 : procp)
    (acc : Z * procctl_reaper_kill) : kern (bool * (Z * procctl_reaper_kill)) :=
  let '(error, rk) := acc in
  let* p2r := deref p2 in
  if negb (Z.land (rk_flags rk) REAPER_KILL_SUBTREE =? 0)
     && negb (p_reapsubtree p2r =? rk_subtree rk)
  then kret (false, (error, rk))
  else
    let error1 := p_cansignal td p2 (rk_sig rk) in
    if error1 =? 0 then
      let* _ := pksignal p2 (rk_sig rk) ksi in
      kret (false, (error1, with_rk_out (u_int (rk_killed rk + 1)) (rk_fpid rk) rk))
    else if error =? ESRCH then
      kret (false, (error1, with_rk_out (rk_killed rk) (p_pid p2r) rk))
    else kret (false, (error, rk)).

(** Lines 255 to 278 of [reap_kill]: the initialisation of [error],
    [rk_killed] and [rk_fpid] and the loop over the children or the reap
    list of [reap]. *)
Definition reap_kill_loop (fuel : nat) (td : thread) (ksi : ksiginfo_t)
    (reap : procp) (rk : procctl_reaper_kill)
    : kern (Z * procctl_reaper_kill) :=
  let error := ESRCH in
  let rk := with_rk_out 0 (-1) rk in
  let* rr := deref reap in
  let children_only := negb (Z.land (rk_flags rk) REAPER_KILL_CHILDREN =? 0) in
  LIST_FOREACH fuel
    (if children_only then p_sibling else p_reapsibling)
    (if children_only then p_children rr else p_reaplist rr)
    (reap_kill_body td ksi) (error, rk).

Definition reap_kill (fuel : nat) (td : thread) (p : procp)
    (rk : procctl_reaper_kill) : kern (Z * procctl_reaper_kill) :=
  if IN_CAPABILITY_MODE td then kret (ECAPMODE, rk)
  else if (rk_sig rk <=? 0) || (_SIG_MAXSIG <? rk_sig rk) then kret (EINVAL, rk)
  else if negb (Z.land (rk_flags rk) (Z.lnot REAPER_KILL_CHILDREN) =? 0)
  then kret (EINVAL, rk)
  else
    let* pr := deref p in
    let reap := reaper_of p pr in
    let* tdp := deref (td_proc td) in
    let ksi := mkksi (rk_sig rk) SI_USER (p_pid tdp) (cr_ruid td) in
    reap_kill_loop fuel td ksi reap rk.

(** ** Trace-visibility control *)

Definition trace_ctl (td : thread) (p : procp) (state : Z) : kern Z :=
  let* pr := deref p in
  if isset (p_flag pr) P_TRACED || negb (p_traceflag pr =? 0) then kret EBUSY
  else if state =? PROC_TRACE_CTL_ENABLE then
    if negb (td_proc td =? p) then kret EPERM
    else
      let* _ := update p (fun r => with_p_flag2
        (Z.land (p_flag2 r) (Z.lnot (Z.lor P2_NOTRACE P2_NOTRACE_EXEC))) r) in
      kret 0
  else if state =? PROC_TRACE_CTL_DISABLE_EXEC then
    let* _ := update p (fun r => with_p_flag2
      (Z.lor (p_flag2 r) (Z.lor P2_NOTRACE_EXEC P2_NOTRACE)) r) in
    kret 0
  else if state =? PROC_TRACE_CTL_DISABLE then
    if isset (p_flag2 pr) P2_NOTRACE_EXEC then
      let* _ := KASSERT (isset (p_flag2 pr) P2_NOTRACE) in
      if negb (td_proc td =? p) then kret EPERM
      else
        let* _ := update p (fun r => with_p_flag2
          (Z.land (p_flag2 r) (Z.lnot P2_NOTRACE_EXEC)) r) in
        kret 0
    else
      let* _ := update p (fun r =>
        with_p_flag2 (Z.lor (p_flag2 r) P2_NOTRACE) r) in
      kret 0
  else kret EINVAL.

(** [trace_status] returns its error and the value it stores through
    [data]. *)
Definition trace_status (td : thread) (p : procp) : kern (Z * Z) :=
  let* pr := deref p in
  if isset (p_flag2 pr) P2_NOTRACE then
    let* _ := KASSERT (negb (isset (p_flag pr) P_TRACED)) in
    kret (0, -1)
  else if isset (p_flag pr) P_TRACED then
    match p_pptr pr with
    | Some pp => let* ppr := deref pp in kret (0, p_pid ppr)
    | None => kfault
    end
  else kret (0, 0).

(** ** Dispatcher *)

(** What [void *data] points to. *)
Inductive payload : Type :=
| DNull
| DInt (z : Z)
| DStatus (rs : procctl_reaper_status)
| DPids (rp : procctl_reaper_pids)
| DKill (rk : procctl_reaper_kill).

Definition kern_procctl_single (fuel : nat) (td : thread) (p : procp)
    (com : Z) (data : payload) : kern (Z * payload) :=
  if com =? PROC_SPROTECT then
    match data with
    | DInt flags =>
      let* e := protect_set fuel td p flags in kret (e, data)
    | _ => kfault
    end
  else if com =? PROC_REAP_ACQUIRE then
    let* e := reap_acquire td p in kret (e, data)
  else if com =? PROC_REAP_RELEASE then
    let* e := reap_release td p in kret (e, data)
  else if com =? PROC_REAP_STATUS then
    match data with
    | DStatus _ =>
      let* '(e, rs) := reap_status fuel td p in kret (e, DStatus rs)
    | _ => kfault
    end
  else if com =? PROC_REAP_GETPIDS then
    match data with
    | DPids rp =>
      let* e := reap_getpids fuel td p rp in kret (e, data)
    | _ => kfault
    end
  else if com =? PROC_REAP_KILL then
    match data with
    | DKill rk =>
      let* '(e, rk') := reap_kill fuel td p rk in kret (e, DKill rk')
    | _ => kfault
    end
  else if com =? PROC_TRACE_CTL then
    match data with
    | DInt state =>
      let* e := trace_ctl td p state in kret (e, data)
    | _ => kfault
    end
  else if com =? PROC_TRACE_STATUS then
    match data with
    | DInt _ =>
      let* '(e, v) := trace_status td p in kret (e, DInt v)
    | _ => kfault
    end
  else kret (EINVAL, data).

(** The body of the loop of [kern_procctl] over the members of a process
    group, on the loop's variables [ok], [first_error] and [*data]. *)
Definition kern_procctl_member (fuel : nat) (td : thread) (com : Z)
    (p : procp) (acc : Z * Z * payload) : kern (bool * (Z * Z * payload)) :=
  let '(ok, first_error, data) := acc in
  let* pr := deref p in
  if bool_decide (p_state pr = PRS_NEW) || negb (p_cansee td p =? 0)
  then kret (false, (ok, first_error, data))
  else
    let* '(error, data) := kern_procctl_single fuel td p com data in
    if error =? 0 then kret (false, (1, first_error, data))
    else if first_error =? 0 then kret (false, (ok, error, data))
    else kret (false, (ok, first_error, data)).

Definition kern_procctl (fuel : nat) (td : thread) (idtype id com : Z)
    (data : payload) : kern (Z * payload) :=
  if ((com =? PROC_REAP_ACQUIRE) || (com =? PROC_REAP_RELEASE)
      || (com =? PROC_REAP_STATUS) || (com =? PROC_REAP_GETPIDS)
      || (com =? PROC_REAP_KILL) || (com =? PROC_TRACE_STATUS))
     && negb (idtype =? P_PID)
  then kret (EINVAL, data)
  else if negb ((com =? PROC_SPROTECT) || (com =? PROC_REAP_STATUS)
                || (com =? PROC_REAP_GETPIDS) || (com =? PROC_REAP_KILL)
                || (com =? PROC_TRACE_CTL) || (com =? PROC_REAP_ACQUIRE)
                || (com =? PROC_REAP_RELEASE) || (com =? PROC_TRACE_STATUS))
  then kret (EINVAL, data)
  else if idtype =? P_PID then
    let* s := kget in
    match pfind id s with
    | None => kret (ESRCH, data)
    | Some p =>
      let error := p_cansee td p in
      if error =? 0 then kern_procctl_single fuel td p com data
      else kret (error, data)
    end
  else if idtype =? P_PGID then
    let* s := kget in
    match pgfind id s with
    | None => kret (ESRCH, data)
    | Some pg =>
      let* '(ok, first_error, data) :=
        LIST_FOREACH fuel p_pglist (pg_members pg)
          (kern_procctl_member fuel td com) (0, 0, data) in
      if negb (ok =? 0) then kret (0, data)
      else if negb (first_error =? 0) then kret (first_error, data)
      else kret (ESRCH, data)
    end
  else kret (EINVAL, data).

(** ** System call entry *)

Record procctl_args : Type := mkargs {
  ua_idtype : Z;
  ua_id : Z;
  ua_com : Z;
  ua_data : Z
}.

Definition NULL : Z := 0.

(** The second switch of [sys_procctl]: what is copied back. *)
Definition sys_procctl_out (uap : procctl_args) (error : Z) (data : payload)
    : kern Z :=
  if ua_com uap =? PROC_REAP_STATUS then
    match data with
    | DStatus rs =>
      if error =? 0 then copyout (UStatus rs) (ua_data uap) else kret error
    | _ => kfault
    end
  else if ua_com uap =? PROC_REAP_KILL then
    match data with
    | DKill rk =>
      let* error1 := copyout (UKill rk) (ua_data uap) in
      if error =? 0 then kret error1 else kret error
    | _ => kfault
    end
  else if ua_com uap =? PROC_TRACE_STATUS then
    match data with
    | DInt flags =>
      if error =? 0 then copyout (UInt flags) (ua_data uap) else kret error
    | _ => kfault
    end
  else kret error.

Definition sys_procctl (fuel : nat) (td : thread) (uap : procctl_args)
    : kern Z :=
  let call (data : payload) : kern Z :=
    let* '(error, data) :=
      kern_procctl fuel td (ua_idtype uap) (ua_id uap) (ua_com uap) data in
    sys_procctl_out uap error data in
  if (ua_com uap =? PROC_SPROTECT) || (ua_com uap =? PROC_TRACE_CTL) then
    let* v := copyin (ua_data uap) in
    match v with
    | Some (UInt flags) => call (DInt flags)
    | _ => kret EFAULT
    end
  else if (ua_com uap =? PROC_REAP_ACQUIRE) || (ua_com uap =? PROC_REAP_RELEASE)
  then
    if negb (ua_data uap =? NULL) then kret EINVAL
    else call DNull
  else if ua_com uap =? PROC_REAP_STATUS then
    call (DStatus (mkrs 0 0 0 0 0))
  else if ua_com uap =? PROC_REAP_GETPIDS then
    let* v := copyin (ua_data uap) in
    match v with
    | Some (UPids rp) => call (DPids rp)
    | _ => kret EFAULT
    end
  else if ua_com uap =? PROC_REAP_KILL then
    let* v := copyin (ua_data uap) in
    match v with
    | Some (UKill rk) => call (DKill rk)
    | _ => kret EFAULT
    end
  else if ua_com uap =? PROC_TRACE_STATUS then
    call (DInt 0)
  else kret EINVAL.

End Code.

(** ** Well-formed lists and the aggregate of a group request *)

(** [chain h field first l]: following [field] from [first] in the
    process table [h] visits exactly the processes of [l], in order, and
    ends on NULL. *)
Fixpoint chain (h : gmap procp proc) (field : proc -> option procp)
    (first : option procp) (l : list procp) : Prop :=
  match l with
  | [] => first = None
  | p :: l' =>
    first = Some p /\
    match h !! p with
    | Some pr => chain h field (field pr) l'
    | None => False
    end
  end.

(** [foreach_list l body acc]: the body run on the processes of [l] in
    order, up to a [break]. *)
Fixpoint foreach_list {A : Type} (l : list procp)
    (body : procp -> A -> kern (bool * A)) (acc : A) : kern A :=
  match l with
  | [] => kret acc
  | p :: l' =>
    let* '(brk, acc') := body p acc in
    if (brk : bool) then kret acc' else foreach_list l' body acc'
  end.

(** A record without its two flag words: what is left is the identity of
    the process and its place in the lists and in the tree. *)
Definition erase_flags (pr : proc) : proc := with_p_flag 0 (with_p_flag2 0 pr).

(** [same_tree s s']: the process tables of [s] and [s'] hold the same
    processes, with the same fields but for [p_flag] and [p_flag2]. *)
Definition same_tree (s s' : kstate) : Prop :=
  forall q, erase_flags <$> k_procs s' !! q = erase_flags <$> k_procs s !! q.

(** ** Trace flags *)

(** The process is being traced by a debugger or has ktrace points set. *)
Definition traced (pr : proc) : Prop :=
  isset (p_flag pr) P_TRACED = true \/ p_traceflag pr <> 0.

(** "no-trace-on-exec implies no-trace". *)
Definition notrace_inv (pr : proc) : Prop :=
  isset (p_flag2 pr) P2_NOTRACE_EXEC = true -> isset (p_flag2 pr) P2_NOTRACE = true.

(** Every process of the table satisfies "no-trace-on-exec implies
    no-trace". *)
Definition notrace_inv_all (st : kstate) : Prop :=
  forall q qr, k_procs st !! q = Some qr -> notrace_inv qr.

Section Selection.
Context {K : Collaborators}.

(** The candidates of [reap_kill] that pass the filter on the subtree
    tag. *)
Definition subtree_match (st : kstate) (rk : procctl_reaper_kill)
    (q : procp) : bool :=
  match k_procs st !! q with
  | Some qr =>
    negb (negb (Z.land (rk_flags rk) REAPER_KILL_SUBTREE =? 0)
          && negb (p_reapsubtree qr =? rk_subtree rk))
  | None => false
  end.

Definition kill_selected (st : kstate) (rk : procctl_reaper_kill)
    (cands : list procp) : list procp :=
  List.filter (subtree_match st rk) cands.

(** The candidates the caller may signal. *)
Definition kill_allowed (td : thread) (sig : Z) (sel : list procp)
    : list procp :=
  List.filter (fun q => p_cansignal td q sig =? 0) sel.

(** The first of the failure codes that is not ESRCH, and ESRCH when
    there is none. *)
Fixpoint first_failure (codes : list Z) : Z :=
  match codes with
  | [] => ESRCH
  | e :: codes' => if e =? ESRCH then first_failure codes' else e
  end.

(** The outcomes of a request on the members [l] of a process group, in
    list order: [None] for a member that is skipped because it is not
    fully initialised or cannot be seen, and the error of the operation
    on the member otherwise. *)
Fixpoint members_run (fuel : nat) (td : thread) (com : Z) (l : list procp)
    (data : payload) : kern (list (option Z) * payload) :=
  match l with
  | [] => kret ([], data)
  | p :: l' =>
    let* pr := deref p in
    if bool_decide (p_state pr = PRS_NEW) || negb (p_cansee td p =? 0) then
      let* '(outs, data) := members_run fuel td com l' data in
      kret (None :: outs, data)
    else
      let* '(error, data) := kern_procctl_single fuel td p com data in
      let* '(outs, data) := members_run fuel td com l' data in
      kret (Some error :: outs, data)
  end.

(** The aggregate of the outcomes in the words of the specification:
    "overall success if any member succeeded; otherwise return the first
    member's error encountered, or NotFound if no member was even
    visible". *)
Definition group_aggregate (outs : list (option Z)) : Z :=
  let errors := omap id outs in
  if existsb (fun e => e =? 0) errors then 0
  else match errors with
       | e :: _ => e
       | [] => ESRCH
       end.

(** The loop variables [ok] and [first_error] after one more outcome. *)
Definition aggregate_step (acc : Z * Z) (o : option Z) : Z * Z :=
  match o with
  | None => acc
  | Some e =>
    if e =? 0 then (1, snd acc)
    else if snd acc =? 0 then (fst acc, e) else acc
  end.

(** The entry that the second loop of [reap_getpids] stores for the
    process [p2] of the reap list of [reap]. *)
Definition pidinfo_of (s : kstate) (reap p2 : procp) : procctl_reaper_pidinfo :=
  match k_procs s !! p2 with
  | Some p2r =>
    mkpi (p_pid p2r) (p_reapsubtree p2r)
      (if decide (proc_realparent s p2 = Some reap)
       then Z.lor REAPER_PIDINFO_VALID REAPER_PIDINFO_CHILD
       else REAPER_PIDINFO_VALID)
  | None => mkpi 0 0 0
  end.

(** ** Process trees

    A forest of processes as the lists of children lay it out: the first
    process of a list of children, the forest of its own children, and
    the forest of the siblings that follow it. *)
Inductive forest : Type :=
| FNil
| FCons (p : procp) (kids sibs : forest).

(** The processes of a forest, parents before children and children
    before later siblings. *)
Fixpoint forest_nodes (f : forest) : list procp :=
  match f with
  | FNil => []
  | FCons p kids sibs => p :: forest_nodes kids ++ forest_nodes sibs
  end.

(** [forest_at h parent first f]: in the process table [h] the list of
    children of [parent] that starts at [first] and the lists of children
    below it have the shape [f], and each process points back at its
    parent. *)
Fixpoint forest_at (h : gmap procp proc) (parent : procp)
    (first : option procp) (f : forest) : Prop :=
  match f with
  | FNil => first = None
  | FCons p kids sibs =>
    first = Some p /\
    match h !! p with
    | Some pr =>
      p_pptr pr = Some parent /\
      forest_at h p (p_children pr) kids /\
      forest_at h parent (p_sibling pr) sibs
    | None => False
    end
  end.

(** What [protect_setchild] makes of the record of process [p], and what
    it returns. *)
Definition protect_record (td : thread) (flags : Z) (p : procp) (pr : proc)
    : proc :=
  if isset (p_flag pr) P_SYSTEM || negb (p_cansched td p =? 0) then pr
  else if isset flags PPROT_SET then
    let r := with_p_flag (Z.lor (p_flag pr) P_PROTECTED) pr in
    if isset flags PPROT_INHERIT
    then with_p_flag2 (Z.lor (p_flag2 r) P2_INHERIT_PROTECTED) r
    else r
  else
    let r := with_p_flag (Z.land (p_flag pr) (Z.lnot P_PROTECTED)) pr in
    with_p_flag2 (Z.land (p_flag2 r) (Z.lnot P2_INHERIT_PROTECTED)) r.

Definition protect_result (td : thread) (p : procp) (pr : proc) : Z :=
  if isset (p_flag pr) P_SYSTEM || negb (p_cansched td p =? 0) then 0 else 1.

(** The state and the accumulated [ret] of [protect_setchildren] after
    the visit of process [p], and after the visits of the processes of a
    list. *)
Definition protect_visit (td : thread) (flags : Z) (acc : kstate * Z)
    (p : procp) : kstate * Z :=
  match k_procs (fst acc) !! p with
  | Some pr =>
    (with_k_procs (<[p := protect_record td flags p pr]> (k_procs (fst acc)))
       (fst acc),
     Z.lor (snd acc) (protect_result td p pr))
  | None => acc
  end.

Definition protect_visits (td : thread) (flags : Z) (l : list procp)
    (acc : kstate * Z) : kstate * Z :=
  fold_left (protect_visit td flags) l acc.

(** [leaves_to n td top flags par s ret r]: the walk that has finished
    the children of [par], in state [s] with the accumulated [ret], goes
    on from [par] and ends with the result [r], within the bound [n]. *)
Definition leaves_to (n : nat) (td : thread) (top : procp) (flags : Z)
    (par : procp) (s : kstate) (ret : Z) (r : Z * kstate) : Prop :=
  exists next,
    protect_ascend n top par s = Ok (next, s) /\
    match next with
    | None => r = (ret, s)
    | Some q => protect_setchildren_from n td top flags q ret s = Ok r
    end.

Fixpoint forest_size (f : forest) : nat :=
  match f with
  | FNil => 0
  | FCons _ kids sibs => S (forest_size kids + forest_size sibs)
  end.

(** What the visit of [q] adds to [ret], read off the state [s]. *)
Definition result_of (td : thread) (s : kstate) (q : procp) : Z :=
  match k_procs s !! q with
  | Some r => protect_result td q r
  | None => 0
  end.

(** ** Requests for protection *)

(** The flags [protect_set] admits: the operation is [PPROT_SET] or
    [PPROT_CLEAR] and no option but [PPROT_DESCEND] and [PPROT_INHERIT]
    is set. *)
Definition protect_flags_ok (flags : Z) : Prop :=
  (PPROT_OP flags = PPROT_SET \/ PPROT_OP flags = PPROT_CLEAR) /\
  Z.land (PPROT_FLAGS flags) (Z.lnot (Z.lor PPROT_DESCEND PPROT_INHERIT)) = 0.

(** The process [q] with record [qr] is one that [protect_setchild]
    changes: not a system process, and the caller may schedule it. *)
Definition eligible (td : thread) (q : procp) (qr : proc) : Prop :=
  isset (p_flag qr) P_SYSTEM = false /\ p_cansched td q = 0.

(** [only_bit k x y]: [x] and [y] agree on every bit but bit [k]. *)
Definition only_bit (k x y : Z) : Prop :=
  forall i, i <> k -> Z.testbit y i = Z.testbit x i.

(** ** The process [reap_kill] reports

    The value of [rk_fpid] after the loop has run over the selected
    candidates [sel], starting from [fpid]: the walk ends at the first
    candidate whose check returns anything but ESRCH, and names it when
    it is refused; each candidate refused with ESRCH before that one
    replaces the value. *)
Fixpoint first_refused (st : kstate) (td : thread) (sig : Z)
    (sel : list procp) (fpid : Z) : Z :=
  match sel with
  | [] => fpid
  | q :: sel' =>
    let e := p_cansignal td q sig in
    if e =? 0 then fpid
    else
      let pid := match k_procs st !! q with
                 | Some qr => p_pid qr
                 | None => fpid
                 end in
      if e =? ESRCH then first_refused st td sig sel' pid else pid
  end.


(** ** The commands

    The commands that the switches of [sys_procctl], [kern_procctl] and
    [kern_procctl_single] name. *)
Definition commands : list Z :=
  [PROC_SPROTECT; PROC_REAP_ACQUIRE; PROC_REAP_RELEASE; PROC_REAP_STATUS;
   PROC_REAP_GETPIDS; PROC_REAP_KILL; PROC_TRACE_CTL; PROC_TRACE_STATUS].

End Selection.

(** ** A concrete system

    Processes are numbered from 1 and the pid of a process is its number.
    Process 1 is [initproc] and has claimed the reaper role; the process
    group of id [n] is headed by process [n].  The credential checks are
    given per process. *)
Module Example.

Definition world (see sched signal : procp -> Z) (capmode : bool)
    : Collaborators :=
  {| initproc := 1;
     p_cansee := fun _ p => see p;
     p_cansched := fun _ p => sched p;
     p_cansignal := fun _ p _ => signal p;
     priv_check := fun _ _ => 0;
     IN_CAPABILITY_MODE := fun _ => capmode;
     pfind := fun id s =>
       match k_procs s !! id with
       | Some _ => Some id
       | None => None
       end;
     pgfind := fun id s =>
       match k_procs s !! id with
       | Some _ => Some (mkpgrp id (Some id))
       | None => None
       end;
     proc_realparent := fun s p =>
       match k_procs s !! p with
       | Some pr => p_pptr pr
       | None => None
       end;
     reaper_abandon_children := fun _ _ s => s;
     tree_unlocked := fun s => s |}.

(** Every check passes for every process. *)
Definition permissive : Collaborators :=
  world (fun _ => 0) (fun _ => 0) (fun _ => 0) false.

(** The check answers [e] for process [p] and 0 for the others. *)
Definition refuse (p : procp) (e : Z) (q : procp) : Z :=
  if q =? p then e else 0.

(** Thread of process [p], real user id 1001. *)
Definition thread_of (p : procp) : thread := mkthread p 1001.

(** [initproc]. *)
Definition init (children reaplist : option procp) : proc :=
  mkproc 1 0 0 P_TREE_REAPER 0 PRS_NORMAL None children None 1 reaplist None
    0 None.

(** A process below [initproc]: its pid, [p_flag], parent, first child
    and next sibling; [next] is its successor on the reap list and in the
    process group. *)
Definition below (pid flag : Z) (pptr children sibling next : option procp)
    : proc :=
  mkproc pid flag 0 0 0 PRS_NORMAL pptr children sibling 1 None next pid next.

Definition table (l : list (procp * proc)) : kstate :=
  mkstate (list_to_map l) (<[4096 := UInt 0]> ∅) [].

(** [initproc] and one child. *)
Definition two : kstate :=
  table [(1, init (Some 2) (Some 2));
         (2, below 2 0 (Some 1) None None None)].

(** [initproc] and its three children 2, 3 and 4. *)
Definition family : kstate :=
  table [(1, init (Some 2) (Some 2));
         (2, below 2 0 (Some 1) None (Some 3) (Some 3));
         (3, below 3 0 (Some 1) None (Some 4) (Some 4));
         (4, below 4 0 (Some 1) None None None)].

(** [initproc] and the process group of 2, 3, 4 and 5, of which 3 is a
    system process. *)
Definition group : kstate :=
  table [(1, init (Some 2) (Some 2));
         (2, below 2 0 (Some 1) None (Some 3) (Some 3));
         (3, below 3 P_SYSTEM (Some 1) None (Some 4) (Some 4));
         (4, below 4 0 (Some 1) None (Some 5) (Some 5));
         (5, below 5 0 (Some 1) None None None)].

(** [initproc] with the children 2 and 3, where 2 has the child 4 and 3
    is a system process. *)
Definition tree : kstate :=
  table [(1, init (Some 2) (Some 2));
         (2, below 2 0 (Some 1) (Some 4) (Some 3) (Some 4));
         (4, below 4 0 (Some 2) None None (Some 3));
         (3, below 3 P_SYSTEM (Some 1) None None None)].

Definition tree_kids : forest :=
  FCons 2 (FCons 4 FNil FNil) (FCons 3 FNil FNil).

(** Process 2 with [P2_NOTRACE] and [P2_NOTRACE_EXEC] set. *)
Definition sealed : kstate :=
  table [(1, init (Some 2) (Some 2));
         (2, with_p_flag2 (Z.lor P2_NOTRACE P2_NOTRACE_EXEC)
               (below 2 0 (Some 1) None None None))].

(** Process 2 traced by its parent. *)
Definition debugged : kstate :=
  table [(1, init (Some 2) (Some 2));
         (2, below 2 P_TRACED (Some 1) None None None)].

(** A request for signal 15 to the children of the reaper. *)
Definition kill_children : procctl_reaper_kill :=
  mkrk 15 REAPER_KILL_CHILDREN 0 0 0.

(** [initproc] with a child that is not on its reap list. *)
Definition unlisted : kstate :=
  table [(1, init (Some 2) None);
         (2, below 2 0 (Some 1) None None None)].

(** Process 2 is a reaper. *)
Definition reaper2 : kstate :=
  table [(1, init (Some 2) (Some 2));
         (2, with_p_treeflag P_TREE_REAPER
               (below 2 0 (Some 1) None None None))].


(** The caller may signal every process but [p]. *)
Definition guarded (p : procp) : Collaborators :=
  world (fun _ => 0) (fun _ => 0) (refuse p EPERM) false.

(** The caller can see every process but [p]. *)
Definition hidden (p : procp) : Collaborators :=
  world (refuse p ESRCH) (fun _ => 0) (fun _ => 0) false.

End Example.

(** * Properties *)

Section Properties.
Context {K : Collaborators}.

(** ** The test for a traced process *)

Lemma traced_busy pr :
  traced pr -> isset (p_flag pr) P_TRACED || negb (p_traceflag pr =? 0) = true.
Proof.
  intros [H | H]; [now rewrite H|].
  apply orb_true_iff; right. now apply negb_true_iff, Z.eqb_neq.
Qed.

Lemma not_busy pr :
  isset (p_flag pr) P_TRACED || negb (p_traceflag pr =? 0) = false ->
  isset (p_flag pr) P_TRACED = false /\ p_traceflag pr = 0.
Proof.
  intros H. apply orb_false_iff in H as [H1 H2]. split; [done|].
  now apply negb_false_iff, Z.eqb_eq in H2.
Qed.

(** ** Bits of [p_flag2] *)

Lemma testbit_NOTRACE x : isset x P2_NOTRACE = Z.testbit x 1.
Proof.
  unfold isset, P2_NOTRACE. change 2 with (2 ^ 1).
  destruct (Z.testbit x 1) eqn:E.
  - apply negb_true_iff, Z.eqb_neq. intros H.
    assert (Z.testbit (Z.land x (2 ^ 1)) 1 = false) by (rewrite H; apply Z.bits_0).
    rewrite Z.land_spec, E, Z.pow2_bits_true in H0; [discriminate | lia].
  - apply negb_false_iff, Z.eqb_eq. apply Z.bits_inj'. intros n Hn.
    rewrite Z.land_spec, Z.bits_0.
    destruct (Z.eq_dec n 1) as [-> | Hne]; [now rewrite E|].
    rewrite Z.pow2_bits_false by lia. apply andb_false_r.
Qed.

Lemma testbit_NOTRACE_EXEC x : isset x P2_NOTRACE_EXEC = Z.testbit x 2.
Proof.
  unfold isset, P2_NOTRACE_EXEC. change 4 with (2 ^ 2).
  destruct (Z.testbit x 2) eqn:E.
  - apply negb_true_iff, Z.eqb_neq. intros H.
    assert (Z.testbit (Z.land x (2 ^ 2)) 2 = false) by (rewrite H; apply Z.bits_0).
    rewrite Z.land_spec, E, Z.pow2_bits_true in H0; [discriminate | lia].
  - apply negb_false_iff, Z.eqb_eq. apply Z.bits_inj'. intros n Hn.
    rewrite Z.land_spec, Z.bits_0.
    destruct (Z.eq_dec n 2) as [-> | Hne]; [now rewrite E|].
    rewrite Z.pow2_bits_false by lia. apply andb_false_r.
Qed.

(** ** The monad *)

Lemma deref_at p s pr : k_procs s !! p = Some pr -> deref p s = Ok (pr, s).
Proof. intros H. unfold deref. now rewrite H. Qed.

Lemma update_at p f s pr :
  k_procs s !! p = Some pr ->
  update p f s = Ok (tt, with_k_procs (<[p := f pr]> (k_procs s)) s).
Proof. intros H. unfold update. now rewrite H. Qed.

Lemma with_k_procs_id s : with_k_procs (k_procs s) s = s.
Proof. now destruct s. Qed.

(** ** Trace-visibility control: [trace_ctl] and [trace_status] *)

Lemma trace_ctl_busy td p state st pr :
  k_procs st !! p = Some pr -> traced pr ->
  trace_ctl td p state st = Ok (EBUSY, st).
Proof.
  intros Hp Ht. unfold trace_ctl, kbind. rewrite (deref_at _ _ _ Hp).
  now rewrite (traced_busy _ Ht).
Qed.

Lemma not_traced_busy pr :
  ~ traced pr -> isset (p_flag pr) P_TRACED || negb (p_traceflag pr =? 0) = false.
Proof.
  intros H. destruct (_ || _) eqn:E; [|done]. exfalso. apply H.
  apply orb_true_iff in E as [E | E]; [now left|right].
  now apply negb_true_iff, Z.eqb_neq in E.
Qed.

Lemma trace_ctl_disable_exec_ok td p st pr :
  k_procs st !! p = Some pr -> ~ traced pr ->
  trace_ctl td p PROC_TRACE_CTL_DISABLE_EXEC st =
    Ok (0, with_k_procs (<[p := with_p_flag2
          (Z.lor (p_flag2 pr) (Z.lor P2_NOTRACE_EXEC P2_NOTRACE)) pr]> (k_procs st)) st).
Proof.
  intros Hp Ht. unfold trace_ctl, kbind. rewrite (deref_at _ _ _ Hp).
  rewrite (not_traced_busy _ Ht). simpl. now rewrite (update_at _ _ _ _ Hp).
Qed.

Lemma traced_dec pr : traced pr \/ ~ traced pr.
Proof.
  destruct (isset (p_flag pr) P_TRACED || negb (p_traceflag pr =? 0)) eqn:E.
  - left. apply orb_true_iff in E as [E | E]; [now left|right].
    now apply negb_true_iff, Z.eqb_neq in E.
  - right. apply not_busy in E as [E1 E2]. intros [H | H]; congruence.
Qed.

Lemma trace_status_notrace td p st pr :
  k_procs st !! p = Some pr ->
  isset (p_flag2 pr) P2_NOTRACE = true ->
  isset (p_flag pr) P_TRACED = false ->
  trace_status td p st = Ok ((0, -1), st).
Proof.
  intros Hp Hn Ht. unfold trace_status, kbind. rewrite (deref_at _ _ _ Hp).
  now rewrite Hn, Ht.
Qed.

(** C8: [trace_ctl] with [PROC_TRACE_CTL_ENABLE] on a process that is
    traced or has trace points set fails with EBUSY (Busy) and leaves the
    state as it was; after a [trace_ctl] with
    [PROC_TRACE_CTL_DISABLE_EXEC] that returned 0, [trace_status] stores
    -1 (Untraceable); and that [trace_ctl] does return 0 on every process
    that is neither traced nor has trace points set. *)
Theorem trace_ctl_enable_busy_disable_exec_untraceable td p st pr :
  k_procs st !! p = Some pr ->
  (traced pr -> trace_ctl td p PROC_TRACE_CTL_ENABLE st = Ok (EBUSY, st)) /\
  (forall st', trace_ctl td p PROC_TRACE_CTL_DISABLE_EXEC st = Ok (0, st') ->
     trace_status td p st' = Ok ((0, -1), st')) /\
  (~ traced pr ->
     exists st', trace_ctl td p PROC_TRACE_CTL_DISABLE_EXEC st = Ok (0, st')).
Proof.
  intros Hp. split; [|split].
  - intros Ht. eapply trace_ctl_busy; eauto.
  - intros st' H. destruct (traced_dec pr) as [Ht | Ht].
    + rewrite (trace_ctl_busy _ _ _ _ _ Hp Ht) in H. discriminate.
    + rewrite (trace_ctl_disable_exec_ok _ _ _ _ Hp Ht) in H.
      injection H as <-.
      eapply trace_status_notrace.
      * simpl. apply lookup_insert_eq.
      * simpl. rewrite testbit_NOTRACE, !Z.lor_spec.
        change (Z.testbit P2_NOTRACE 1) with true. now rewrite !orb_true_r.
      * simpl. destruct (isset (p_flag pr) P_TRACED) eqn:E; [|done].
        exfalso. apply Ht. now left.
  - intros Ht. eexists. eapply trace_ctl_disable_exec_ok; eauto.
Qed.

(** The flags of [p_flag2] other than [P2_NOTRACE_EXEC] are those of
    bits other than bit 2. *)
Lemma clear_NOTRACE_EXEC_bits x i :
  Z.testbit (Z.land x (Z.lnot P2_NOTRACE_EXEC)) i =
  if Z.eq_dec i 2 then false else Z.testbit x i.
Proof.
  destruct (Z.neg_nonneg_cases i) as [Hn | Hn].
  { rewrite !Z.testbit_neg_r by lia. now destruct (Z.eq_dec i 2). }
  rewrite Z.land_spec, Z.lnot_spec by lia. change P2_NOTRACE_EXEC with (2 ^ 2).
  destruct (Z.eq_dec i 2) as [-> | Hne].
  - rewrite Z.pow2_bits_true by lia. apply andb_false_r.
  - rewrite Z.pow2_bits_false by lia. apply andb_true_r.
Qed.

Lemma trace_ctl_disable_exec_set td p st pr :
  k_procs st !! p = Some pr -> ~ traced pr ->
  isset (p_flag2 pr) P2_NOTRACE_EXEC = true ->
  trace_ctl td p PROC_TRACE_CTL_DISABLE st =
    if isset (p_flag2 pr) P2_NOTRACE then
      if td_proc td =? p then
        Ok (0, with_k_procs (<[p := with_p_flag2
              (Z.land (p_flag2 pr) (Z.lnot P2_NOTRACE_EXEC)) pr]> (k_procs st)) st)
      else Ok (EPERM, st)
    else Panic.
Proof.
  intros Hp Ht Hx. unfold trace_ctl, kbind. rewrite (deref_at _ _ _ Hp).
  rewrite (not_traced_busy _ Ht), Hx. simpl.
  destruct (isset (p_flag2 pr) P2_NOTRACE); [|done]. simpl.
  destruct (td_proc td =? p); simpl; [|done].
  now rewrite (update_at _ _ _ _ Hp).
Qed.

Lemma notrace_inv_update st p pr v :
  notrace_inv_all st ->
  (isset v P2_NOTRACE_EXEC = true -> isset v P2_NOTRACE = true) ->
  notrace_inv_all (with_k_procs (<[p := with_p_flag2 v pr]> (k_procs st)) st).
Proof.
  intros Hall Hv q qr. simpl. rewrite lookup_insert.
  case_decide as E; [|apply Hall]. intros [= <-]. exact Hv.
Qed.

Lemma trace_ctl_preserves_inv td p state st e st' :
  trace_ctl td p state st = Ok (e, st') ->
  notrace_inv_all st -> notrace_inv_all st'.
Proof.
  unfold trace_ctl, kbind, deref.
  destruct (k_procs st !! p) as [pr|] eqn:Hp; [|discriminate].
  destruct (_ || _); [intros [= <- <-]; done|].
  destruct (state =? PROC_TRACE_CTL_ENABLE).
  { destruct (negb _); [intros [= <- <-]; done|].
    rewrite (update_at _ _ _ _ Hp). intros [= <- <-] Hall.
    apply notrace_inv_update; [done|].
    rewrite testbit_NOTRACE_EXEC, testbit_NOTRACE, !Z.land_spec.
    rewrite Z.lnot_spec by lia. rewrite Z.lor_spec.
    change (Z.testbit P2_NOTRACE_EXEC 2) with true.
    rewrite orb_true_r. simpl. now rewrite andb_false_r. }
  destruct (state =? PROC_TRACE_CTL_DISABLE_EXEC).
  { rewrite (update_at _ _ _ _ Hp). intros [= <- <-] Hall.
    apply notrace_inv_update; [done|]. intros _.
    rewrite testbit_NOTRACE, !Z.lor_spec.
    change (Z.testbit P2_NOTRACE 1) with true. now rewrite !orb_true_r. }
  destruct (state =? PROC_TRACE_CTL_DISABLE); [|intros [= <- <-]; done].
  destruct (isset (p_flag2 pr) P2_NOTRACE_EXEC) eqn:Hx.
  - destruct (isset (p_flag2 pr) P2_NOTRACE); [|discriminate]. simpl.
    destruct (negb _); [intros [= <- <-]; done|].
    rewrite (update_at _ _ _ _ Hp). intros [= <- <-] Hall.
    apply notrace_inv_update; [done|].
    rewrite testbit_NOTRACE_EXEC, clear_NOTRACE_EXEC_bits. simpl. discriminate.
  - rewrite (update_at _ _ _ _ Hp). intros [= <- <-] Hall.
    apply notrace_inv_update; [done|]. intros _.
    rewrite testbit_NOTRACE, Z.lor_spec.
    change (Z.testbit P2_NOTRACE 1) with true. now rewrite orb_true_r.
Qed.

(** C9: on a process whose [P2_NOTRACE_EXEC] is set, a [trace_ctl] with
    [PROC_TRACE_CTL_DISABLE] by the process itself that returns 0 changes
    nothing but bit [P2_NOTRACE_EXEC] of [p_flag2] of that process, which
    it clears; [P2_NOTRACE] stays set and [trace_status] still stores -1
    (Untraceable).  Such a call returns 0 whenever the process is not
    traced and has [P2_NOTRACE] set.  Every [trace_ctl] that returns,
    whatever its request, preserves "no-trace-on-exec implies no-trace"
    on all processes. *)
Theorem trace_ctl_disable_clears_exec_only td p st :
  (forall pr st',
     k_procs st !! p = Some pr ->
     isset (p_flag2 pr) P2_NOTRACE_EXEC = true ->
     td_proc td = p ->
     trace_ctl td p PROC_TRACE_CTL_DISABLE st = Ok (0, st') ->
     let v := Z.land (p_flag2 pr) (Z.lnot P2_NOTRACE_EXEC) in
     st' = with_k_procs (<[p := with_p_flag2 v pr]> (k_procs st)) st /\
     (forall i, i <> 2 -> Z.testbit v i = Z.testbit (p_flag2 pr) i) /\
     isset v P2_NOTRACE_EXEC = false /\
     isset v P2_NOTRACE = true /\
     trace_status td p st' = Ok ((0, -1), st')) /\
  (forall pr,
     k_procs st !! p = Some pr ->
     isset (p_flag2 pr) P2_NOTRACE_EXEC = true ->
     td_proc td = p ->
     ~ traced pr -> isset (p_flag2 pr) P2_NOTRACE = true ->
     exists st', trace_ctl td p PROC_TRACE_CTL_DISABLE st = Ok (0, st')) /\
  (forall state e st',
     trace_ctl td p state st = Ok (e, st') ->
     notrace_inv_all st -> notrace_inv_all st').
Proof.
  split; [|split].
  - intros pr st' Hp Hx Hc H v.
    destruct (traced_dec pr) as [Ht | Ht].
    { rewrite (trace_ctl_busy _ _ _ _ _ Hp Ht) in H. discriminate. }
    rewrite (trace_ctl_disable_exec_set _ _ _ _ Hp Ht Hx) in H.
    destruct (isset (p_flag2 pr) P2_NOTRACE) eqn:Hn; [|discriminate].
    apply Z.eqb_eq in Hc. rewrite Hc in H. injection H as <-.
    assert (Hbits : forall i, i <> 2 -> Z.testbit v i = Z.testbit (p_flag2 pr) i).
    { intros i Hi. unfold v. rewrite clear_NOTRACE_EXEC_bits.
      now destruct (Z.eq_dec i 2). }
    assert (Hn' : isset v P2_NOTRACE = true).
    { rewrite testbit_NOTRACE, Hbits by lia. now rewrite <- testbit_NOTRACE. }
    split; [done|]. split; [done|]. split; [|split; [done|]].
    + unfold v. now rewrite testbit_NOTRACE_EXEC, clear_NOTRACE_EXEC_bits.
    + eapply trace_status_notrace.
      * simpl. apply lookup_insert_eq.
      * exact Hn'.
      * simpl. destruct (isset (p_flag pr) P_TRACED) eqn:E; [|done].
        exfalso. apply Ht. now left.
  - intros pr Hp Hx Hc Ht Hn. eexists.
    rewrite (trace_ctl_disable_exec_set _ _ _ _ Hp Ht Hx), Hn.
    apply Z.eqb_eq in Hc. now rewrite Hc.
  - intros state e st'. apply trace_ctl_preserves_inv.
Qed.

(** ** Reaper lifecycle: [reap_acquire] and [reap_release] *)

(** C5, as the code has it: [reap_release] on [initproc] fails with
    EINVAL (InvalidArgument) and [reap_acquire] on a process that has
    [P_TREE_REAPER] set fails with EBUSY (AlreadyActive) when the caller
    is the process itself; called by any other process both fail with
    EPERM (PermissionDenied).  The state is as it was in each case. *)
Theorem reap_release_acquire_rejected td p st pr :
  k_procs st !! p = Some pr ->
  (p = initproc ->
   reap_release td p st =
     Ok (if p =? td_proc td then EINVAL else EPERM, st)) /\
  (Z.land (p_treeflag pr) P_TREE_REAPER <> 0 ->
   reap_acquire td p st =
     Ok (if p =? td_proc td then EBUSY else EPERM, st)).
Proof.
  intros Hp. split.
  - intros ->. unfold reap_release, curproc.
    destruct (initproc =? td_proc td); simpl; [|done].
    now rewrite Z.eqb_refl.
  - intros Hr. unfold reap_acquire, curproc.
    destruct (p =? td_proc td); simpl; [|done].
    unfold kbind. rewrite (deref_at _ _ _ Hp).
    apply Z.eqb_neq in Hr. now rewrite Hr.
Qed.

(** ** Reaper signal fan-out: the check of the request *)

(** C1: a request that sets [REAPER_KILL_SUBTREE], alone or with
    [REAPER_KILL_CHILDREN], and carries the valid signal 15 is rejected
    with EINVAL (InvalidArgument) outside capability mode: the check of
    [rk_flags] admits [REAPER_KILL_CHILDREN] only, so the filter on
    [p_reapsubtree] in the loop is never reached with the flag set. *)
Theorem reap_kill_rejects_subtree_flag fuel td p subtree (children : bool) st :
  let rk := mkrk 15 (Z.lor REAPER_KILL_SUBTREE
                       (if children then REAPER_KILL_CHILDREN else 0))
              subtree 0 0 in
  reap_kill fuel td p rk st =
    Ok ((if IN_CAPABILITY_MODE td then ECAPMODE else EINVAL, rk), st).
Proof.
  intros rk. unfold reap_kill.
  destruct (IN_CAPABILITY_MODE td); [done|].
  now destruct children.
Qed.

(** ** System call entry *)

(** C10: [sys_procctl] with [PROC_REAP_ACQUIRE] or [PROC_REAP_RELEASE]
    and a [data] pointer that is not NULL returns EINVAL
    (InvalidArgument) and leaves the state as it was, whatever the target
    and whatever the lookups and checks of the rest of the kernel would
    answer. *)
Theorem sys_procctl_reap_data_not_null fuel td uap st :
  ua_com uap = PROC_REAP_ACQUIRE \/ ua_com uap = PROC_REAP_RELEASE ->
  ua_data uap <> NULL ->
  sys_procctl fuel td uap st = Ok (EINVAL, st).
Proof.
  intros Hc Hd. apply Z.eqb_neq in Hd. unfold sys_procctl.
  destruct Hc as [-> | ->]; simpl; now rewrite Hd.
Qed.

(** ** Loops over intrusive lists *)

Lemma chain_same_links h h' field first l :
  (forall q, field <$> h' !! q = field <$> h !! q) ->
  chain h field first l -> chain h' field first l.
Proof.
  intros Hl. revert first. induction l as [|p l IH]; intros first; simpl; [done|].
  intros [-> H]. split; [done|].
  specialize (Hl p). destruct (h !! p) as [pr|]; [|done].
  destruct (h' !! p) as [pr'|]; [|done]. simpl in Hl.
  injection Hl as ->. now apply IH.
Qed.

Lemma LIST_FOREACH_chain {A : Type} fuel field first
    (body : procp -> A -> kern (bool * A)) acc st l :
  (forall p a s r s', body p a s = Ok (r, s') ->
     forall q, field <$> k_procs s' !! q = field <$> k_procs s !! q) ->
  chain (k_procs st) field first l ->
  (length l <= fuel)%nat ->
  LIST_FOREACH fuel field first body acc st = foreach_list l body acc st.
Proof.
  intros Hb. revert fuel first acc st.
  induction l as [|p l IH]; intros fuel first acc st; simpl.
  - intros -> _. now destruct fuel.
  - intros [-> Hc] Hf. destruct fuel as [|fuel]; [lia|]. simpl.
    unfold kbind. destruct (body p acc st) as [[[brk acc'] s']| | |] eqn:E; try done.
    destruct brk; [done|].
    pose proof (Hb _ _ _ _ _ E) as Hl.
    destruct (k_procs st !! p) as [pr|] eqn:Hp; [|done].
    pose proof (Hl p) as Hlp. rewrite Hp in Hlp.
    unfold deref. destruct (k_procs s' !! p) as [pr'|]; [|done].
    simpl in Hlp. injection Hlp as ->.
    apply IH; [|lia]. eapply chain_same_links; [|exact Hc]. done.
Qed.

Lemma chain_lookup h field first l q :
  chain h field first l -> q ∈ l -> is_Some (h !! q).
Proof.
  revert first. induction l as [|p l IH]; intros first; simpl.
  - intros _ H. inversion H.
  - intros [_ H] Hq. destruct (h !! p) as [pr|] eqn:Hp; [|done].
    apply elem_of_cons in Hq as [-> | Hq]; [by eexists|]. eauto.
Qed.


(** ** Reaper signal fan-out: the loop *)

Lemma u_int_count n :
  Nat.iter n (fun k => u_int (k + 1)) 0 = u_int (Z.of_nat n).
Proof.
  induction n as [|n IH]; [done|].
  rewrite Nat.iter_succ, IH. unfold u_int.
  rewrite Z.add_mod_idemp_l by lia. f_equal. lia.
Qed.

Lemma reap_kill_body_procs td ksi p a s r s' :
  reap_kill_body td ksi p a s = Ok (r, s') -> k_procs s' = k_procs s.
Proof.
  destruct a as [error rk]. unfold reap_kill_body, kbind, deref.
  destruct (k_procs s !! p) as [pr|]; [|done].
  destruct (_ && _); [intros [= <- <-]; done|].
  destruct (_ =? 0); [intros [= <- <-]; done|].
  destruct (_ =? ESRCH); intros [= <- <-]; done.
Qed.

Lemma foreach_list_cons {A : Type} p l
    (body : procp -> A -> kern (bool * A)) acc st :
  foreach_list (p :: l) body acc st =
  match body p acc st with
  | Ok ((brk, acc'), s') =>
    if (brk : bool) then Ok (acc', s') else foreach_list l body acc' s'
  | Panic => Panic
  | Fault => Fault
  | OutOfFuel => OutOfFuel
  end.
Proof.
  simpl. unfold kbind. destruct (body p acc st) as [[[[] acc'] s']| | |]; done.
Qed.

Lemma reap_kill_body_eq td ksi p error rk st pr :
  k_procs st !! p = Some pr ->
  reap_kill_body td ksi p (error, rk) st =
  if negb (subtree_match st rk p) then Ok ((false, (error, rk)), st)
  else if p_cansignal td p (rk_sig rk) =? 0 then
    Ok ((false, (0, with_rk_out (u_int (rk_killed rk + 1)) (rk_fpid rk) rk)),
        with_k_sigq ((p, rk_sig rk, ksi) :: k_sigq st) st)
  else if error =? ESRCH then
    Ok ((false, (p_cansignal td p (rk_sig rk),
                 with_rk_out (rk_killed rk) (p_pid pr) rk)), st)
  else Ok ((false, (error, rk)), st).
Proof.
  intros Hp. unfold reap_kill_body, kbind, subtree_match.
  rewrite (deref_at _ _ _ Hp), Hp.
  destruct (_ && _); simpl; [done|].
  destruct (p_cansignal td p (rk_sig rk) =? 0) eqn:He; simpl.
  { apply Z.eqb_eq in He. now rewrite He. }
  now destruct (error =? ESRCH).
Qed.

Lemma kill_selected_cons st rk p cands :
  kill_selected st rk (p :: cands) =
  if subtree_match st rk p then p :: kill_selected st rk cands
  else kill_selected st rk cands.
Proof. reflexivity. Qed.

Lemma kill_allowed_cons td sig p sel :
  kill_allowed td sig (p :: sel) =
  if p_cansignal td p sig =? 0 then p :: kill_allowed td sig sel
  else kill_allowed td sig sel.
Proof. reflexivity. Qed.

Lemma reap_kill_foreach td ksi cands : forall error rk st,
  (forall q, q ∈ cands -> is_Some (k_procs st !! q)) ->
  exists fpid,
    foreach_list cands (reap_kill_body td ksi) (error, rk) st =
    Ok ((match kill_allowed td (rk_sig rk) (kill_selected st rk cands) with
         | [] =>
           if error =? ESRCH then
             first_failure (map (fun q => p_cansignal td q (rk_sig rk))
                              (kill_selected st rk cands))
           else error
         | _ => 0
         end,
         with_rk_out
           (Nat.iter
              (length (kill_allowed td (rk_sig rk) (kill_selected st rk cands)))
              (fun k => u_int (k + 1)) (rk_killed rk))
           fpid rk),
        with_k_sigq
          (rev (map (fun q => (q, rk_sig rk, ksi))
                  (kill_allowed td (rk_sig rk) (kill_selected st rk cands)))
           ++ k_sigq st) st).
Proof.
  induction cands as [|p cands IH]; intros error rk st Hin.
  - exists (rk_fpid rk). simpl. unfold kret. f_equal. f_equal.
    + f_equal; [|by destruct rk].
      destruct (error =? ESRCH) eqn:E; [|done]. now apply Z.eqb_eq in E.
    + by destruct st.
  - destruct (Hin p) as [pr Hp]; [left|].
    assert (Hin' : forall q, q ∈ cands -> is_Some (k_procs st !! q)).
    { intros q Hq. apply Hin. now right. }
    rewrite foreach_list_cons, (reap_kill_body_eq _ _ _ _ _ _ _ Hp).
    rewrite kill_selected_cons.
    destruct (subtree_match st rk p) eqn:Hf; simpl negb; cbv iota.
    2: { apply IH, Hin'. }
    rewrite kill_allowed_cons.
    destruct (p_cansignal td p (rk_sig rk) =? 0) eqn:He.
    + destruct (IH 0 (with_rk_out (u_int (rk_killed rk + 1)) (rk_fpid rk) rk)
                  (with_k_sigq ((p, rk_sig rk, ksi) :: k_sigq st) st) Hin')
        as [fpid Heq].
      exists fpid. rewrite Heq. clear Heq. f_equal. f_equal.
      * f_equal.
        { now destruct (kill_allowed _ _ _). }
        { change (length (p :: ?l)) with (S (length l)).
          rewrite Nat.iter_succ_r. reflexivity. }
      * unfold with_k_sigq. simpl. f_equal. now rewrite <- app_assoc.
    + rewrite map_cons. cbn [first_failure].
      destruct (error =? ESRCH) eqn:Hs.
      * destruct (IH (p_cansignal td p (rk_sig rk))
                  (with_rk_out (rk_killed rk) (p_pid pr) rk) st Hin')
          as [fpid Heq].
        exists fpid. rewrite Heq. reflexivity.
      * destruct (IH error rk st Hin') as [fpid Heq].
        exists fpid. rewrite Heq. now rewrite Hs.
Qed.


Lemma subtree_match_no_flag st rk q :
  Z.land (rk_flags rk) REAPER_KILL_SUBTREE = 0 ->
  is_Some (k_procs st !! q) -> subtree_match st rk q = true.
Proof.
  intros Hf [qr Hq]. unfold subtree_match. rewrite Hq, Hf. reflexivity.
Qed.

(** C3, as the code has it: the loop of [reap_kill] runs over every
    candidate of the list: each selected candidate that the caller may
    signal is handed the signal, in list order, whatever failed before
    it, and [rk_killed] counts them.  The error is 0 when a candidate
    was signalled, in particular whenever [rk_killed] is positive;
    otherwise it is the first failure code other than ESRCH, and ESRCH
    (NotFound) when there is no such code, in particular when no
    candidate passed the filter. *)
Theorem reap_kill_loop_result fuel td ksi reap rk st rr cands :
  k_procs st !! reap = Some rr ->
  chain (k_procs st)
    (if negb (Z.land (rk_flags rk) REAPER_KILL_CHILDREN =? 0)
     then p_sibling else p_reapsibling)
    (if negb (Z.land (rk_flags rk) REAPER_KILL_CHILDREN =? 0)
     then p_children rr else p_reaplist rr) cands ->
  (length cands <= fuel)%nat ->
  let sel := kill_selected st rk cands in
  let allowed := kill_allowed td (rk_sig rk) sel in
  let codes := map (fun q => p_cansignal td q (rk_sig rk)) sel in
  exists error killed fpid st',
    reap_kill_loop fuel td ksi reap rk st =
      Ok ((error, with_rk_out killed fpid rk), st') /\
    k_procs st' = k_procs st /\
    k_sigq st' = rev (map (fun q => (q, rk_sig rk, ksi)) allowed) ++ k_sigq st /\
    killed = u_int (Z.of_nat (length allowed)) /\
    (0 < killed -> error = 0) /\
    (allowed <> [] -> error = 0) /\
    (allowed = [] -> error = first_failure codes) /\
    (sel = [] -> error = ESRCH).
Proof.
  intros Hr Hc Hf sel allowed codes.
  assert (Hin : forall q, q ∈ cands -> is_Some (k_procs st !! q)).
  { intros q. eapply chain_lookup, Hc. }
  destruct (reap_kill_foreach td ksi cands ESRCH (with_rk_out 0 (-1) rk) st Hin)
    as [fpid Heq].
  eexists _, _, fpid, _. split; [|split; [|split; [|split]]].
  - unfold reap_kill_loop, kbind. rewrite (deref_at _ _ _ Hr).
    cbn [rk_flags with_rk_out].
    erewrite LIST_FOREACH_chain; [exact Heq| |exact Hc|exact Hf].
    intros p a s r s' Hb q. now rewrite (reap_kill_body_procs _ _ _ _ _ _ _ Hb).
  - reflexivity.
  - reflexivity.
  - apply u_int_count.
  - fold sel allowed codes. cbn [rk_killed rk_sig with_rk_out].
    change (kill_selected st (with_rk_out 0 (-1) rk) cands) with sel.
    fold allowed. rewrite u_int_count.
    split; [|split; [|split]].
    + destruct allowed; [|done]. simpl. unfold u_int. rewrite Z.mod_0_l; lia.
    + now destruct allowed.
    + now intros ->.
    + intros Hs. unfold allowed, codes. now rewrite Hs.
Qed.


Lemma reap_kill_checked fuel td p rk st pr tdp :
  IN_CAPABILITY_MODE td = false ->
  0 < rk_sig rk <= _SIG_MAXSIG ->
  Z.land (rk_flags rk) (Z.lnot REAPER_KILL_CHILDREN) = 0 ->
  k_procs st !! p = Some pr ->
  k_procs st !! td_proc td = Some tdp ->
  reap_kill fuel td p rk st =
    reap_kill_loop fuel td (mkksi (rk_sig rk) SI_USER (p_pid tdp) (cr_ruid td))
      (reaper_of p pr) rk st.
Proof.
  intros Hcap Hsig Hfl Hp Htd. unfold reap_kill. rewrite Hcap.
  replace (rk_sig rk <=? 0) with false by (symmetry; apply Z.leb_gt; lia).
  replace (_SIG_MAXSIG <? rk_sig rk) with false by (symmetry; apply Z.ltb_ge; lia).
  rewrite Hfl. simpl. unfold kbind.
  now rewrite (deref_at _ _ _ Hp), (deref_at _ _ _ Htd).
Qed.

(** ** Reaper signal fan-out: the whole call *)

Ltac solve_member :=
  first [reflexivity | assumption | simpl; assumption | repeat constructor].

(** C2, as the code has it: [reap_kill] with [REAPER_KILL_CHILDREN] on
    a reaper with the three children [a], [b], [c], exactly one of which
    the caller may not signal, returns 0 with [rk_killed] = 2 wherever
    the refused child stands; [rk_fpid] is -1 when the refused child is
    not the first of the list, and the pid of the refused child when it
    is the first. *)
Theorem reap_kill_three_children fuel td p rk st pr rr tdp a b c :
  IN_CAPABILITY_MODE td = false ->
  0 < rk_sig rk <= _SIG_MAXSIG ->
  rk_flags rk = REAPER_KILL_CHILDREN ->
  k_procs st !! p = Some pr ->
  k_procs st !! reaper_of p pr = Some rr ->
  k_procs st !! td_proc td = Some tdp ->
  chain (k_procs st) p_sibling (p_children rr) [a; b; c] ->
  length (kill_allowed td (rk_sig rk) [a; b; c]) = 2%nat ->
  (3 <= fuel)%nat ->
  exists ar st',
    k_procs st !! a = Some ar /\
    reap_kill fuel td p rk st =
      Ok ((0, with_rk_out 2
                (if p_cansignal td a (rk_sig rk) =? 0 then -1 else p_pid ar)
                rk), st').
Proof.
  intros Hcap Hsig Hfl Hp Hr Htd Hc Hn Hf.
  assert (Hin : forall q, q ∈ [a; b; c] -> is_Some (k_procs st !! q)).
  { intros q. eapply chain_lookup, Hc. }
  destruct (Hin a) as [ar Ha]; [repeat constructor|].
  destruct (Hin b) as [br Hb]; [repeat constructor|].
  destruct (Hin c) as [cr Hc']; [repeat constructor|].
  assert (Hfl' : Z.land (rk_flags rk) (Z.lnot REAPER_KILL_CHILDREN) = 0)
    by now rewrite Hfl.
  assert (Hm : forall st1 rk1 q, k_procs st1 = k_procs st ->
            rk_flags rk1 = REAPER_KILL_CHILDREN -> q ∈ [a; b; c] ->
            subtree_match st1 rk1 q = true).
  { intros st1 rk1 q Hst Hrk Hq. apply subtree_match_no_flag.
    - now rewrite Hrk.
    - rewrite Hst. now apply Hin. }
  assert (Hloop : forall st',
    foreach_list [a; b; c]
      (reap_kill_body td (mkksi (rk_sig rk) SI_USER (p_pid tdp) (cr_ruid td)))
      (ESRCH, with_rk_out 0 (-1) rk) st =
    Ok ((0, with_rk_out 2
              (if p_cansignal td a (rk_sig rk) =? 0 then -1 else p_pid ar)
              rk), st') ->
    reap_kill fuel td p rk st =
    Ok ((0, with_rk_out 2
              (if p_cansignal td a (rk_sig rk) =? 0 then -1 else p_pid ar)
              rk), st')).
  { intros st' <-.
    rewrite (reap_kill_checked fuel td p rk st pr tdp Hcap Hsig Hfl' Hp Htd).
    unfold reap_kill_loop, kbind. rewrite (deref_at _ _ _ Hr).
    cbn [rk_flags with_rk_out]. rewrite Hfl. simpl negb. cbv iota.
    apply LIST_FOREACH_chain; [|exact Hc|exact Hf].
    intros q x s r s' Hq y. now rewrite (reap_kill_body_procs _ _ _ _ _ _ _ Hq). }
  exists ar. revert Hn. rewrite !kill_allowed_cons.
  destruct (p_cansignal td a (rk_sig rk) =? 0) eqn:Ea;
  destruct (p_cansignal td b (rk_sig rk) =? 0) eqn:Eb;
  destruct (p_cansignal td c (rk_sig rk) =? 0) eqn:Ec;
  intros Hn; cbn in Hn; try discriminate Hn; clear Hn;
  eexists; (split; [exact Ha|]); apply Hloop;
  rewrite foreach_list_cons, (reap_kill_body_eq _ _ _ _ _ _ _ Ha);
  rewrite Hm by solve_member; simpl negb; cbv iota;
  cbn [rk_sig rk_killed rk_fpid with_rk_out]; rewrite Ea;
  change (ESRCH =? ESRCH) with true; cbv iota;
  rewrite foreach_list_cons;
  erewrite reap_kill_body_eq by exact Hb;
  rewrite Hm by solve_member; simpl negb; cbv iota;
  cbn [rk_sig rk_killed rk_fpid with_rk_out]; rewrite Eb;
  change (0 =? ESRCH) with false; cbv iota;
  rewrite foreach_list_cons;
  erewrite reap_kill_body_eq by exact Hc';
  rewrite Hm by solve_member; simpl negb; cbv iota;
  cbn [rk_sig rk_killed rk_fpid with_rk_out]; rewrite Ec;
  change (0 =? ESRCH) with false; cbv iota;
  cbn [foreach_list]; unfold kret.
  all: reflexivity.
Qed.

(** ** Computations that return *)

Lemma kbind_Ok {A B} (c : kern A) (k : A -> kern B) s b s' :
  kbind c k s = Ok (b, s') ->
  exists a s1, c s = Ok (a, s1) /\ k a s1 = Ok (b, s').
Proof.
  unfold kbind. destruct (c s) as [[a s1]| | |]; try discriminate. eauto.
Qed.

Lemma kret_Ok {A} (a : A) s b s' : kret a s = Ok (b, s') -> b = a /\ s' = s.
Proof. now intros [= <- <-]. Qed.

Lemma deref_Ok p s pr s' :
  deref p s = Ok (pr, s') -> k_procs s !! p = Some pr /\ s' = s.
Proof.
  unfold deref. destruct (k_procs s !! p); [|discriminate]. now intros [= <- <-].
Qed.

Lemma update_Ok p f s u s' :
  update p f s = Ok (u, s') ->
  exists pr, k_procs s !! p = Some pr /\
    s' = with_k_procs (<[p := f pr]> (k_procs s)) s.
Proof.
  unfold update. destruct (k_procs s !! p) as [pr|]; [|discriminate].
  intros [= <- <-]. eauto.
Qed.

(** One step of the inversion of the hypotheses that say that a
    computation returns. *)
Ltac kstep :=
  match goal with
  | H : kbind _ _ _ = Ok _ |- _ => apply kbind_Ok in H as (? & ? & ? & H)
  | H : kret _ _ = Ok _ |- _ => apply kret_Ok in H as [? ?]; subst
  | H : deref _ _ = Ok _ |- _ => apply deref_Ok in H as [? ?]; subst
  | H : kpanic _ = Ok _ |- _ => discriminate H
  | H : kfault _ = Ok _ |- _ => discriminate H
  | H : kdiverge _ = Ok _ |- _ => discriminate H
  | H : KASSERT ?c _ = Ok _ |- _ => unfold KASSERT in H; destruct c eqn:?
  | H : (if ?c then _ else _) _ = Ok _ |- _ => destruct c eqn:?
  | H : match ?c with _ => _ end _ = Ok _ |- _ => destruct c eqn:?
  | H : (let (_, _) := ?c in _) _ = Ok _ |- _ => destruct c eqn:?
  end.

(** ** The shape of the process tree is not touched *)

Lemma same_tree_refl s : same_tree s s.
Proof. now intros q. Qed.

Lemma same_tree_trans s1 s2 s3 :
  same_tree s1 s2 -> same_tree s2 s3 -> same_tree s1 s3.
Proof. intros H1 H2 q. now rewrite H2, H1. Qed.

Lemma same_tree_update p f s u s' :
  (forall r, erase_flags (f r) = erase_flags r) ->
  update p f s = Ok (u, s') -> same_tree s s'.
Proof.
  intros Hf H. apply update_Ok in H as (pr & Hp & ->). intros q. simpl.
  rewrite lookup_insert. case_decide as E; [|done]. subst q.
  rewrite Hp. simpl. now rewrite Hf.
Qed.

Lemma same_tree_field (field : proc -> option procp) s s' q :
  (forall r, field (erase_flags r) = field r) ->
  same_tree s s' ->
  field <$> k_procs s' !! q = field <$> k_procs s !! q.
Proof.
  intros Hf H. specialize (H q).
  destruct (k_procs s' !! q) as [r'|], (k_procs s !! q) as [r|];
    simpl in *; try done.
  assert (E : erase_flags r' = erase_flags r) by congruence.
  now rewrite <- (Hf r'), <- (Hf r), E.
Qed.

Ltac same_tree_step :=
  match goal with
  | H : update _ _ _ = Ok _ |- _ => apply same_tree_update in H; [|done]
  | _ => kstep
  end.

Lemma protect_setchild_same_tree td p flags s r s' :
  protect_setchild td p flags s = Ok (r, s') -> same_tree s s'.
Proof.
  unfold protect_setchild. intros H. repeat same_tree_step;
    eauto using same_tree_refl, same_tree_trans.
Qed.

Lemma protect_ascend_state fuel top : forall p s r s',
  protect_ascend fuel top p s = Ok (r, s') -> s' = s.
Proof.
  induction fuel as [|fuel IH]; intros p s r s'; simpl; [discriminate|].
  intros H. repeat kstep; eauto.
Qed.

Lemma protect_setchildren_from_same_tree fuel td top flags :
  forall p ret s r s',
  protect_setchildren_from fuel td top flags p ret s = Ok (r, s') ->
  same_tree s s'.
Proof.
  induction fuel as [|fuel IH]; intros p ret s r s'; simpl; [discriminate|].
  intros H. repeat same_tree_step;
  repeat match goal with
  | H : protect_setchild _ _ _ _ = Ok _ |- _ =>
    apply protect_setchild_same_tree in H
  | H : protect_ascend _ _ _ _ = Ok _ |- _ =>
    apply protect_ascend_state in H; subst
  | H : protect_setchildren_from _ _ _ _ _ _ _ = Ok _ |- _ => apply IH in H
  end; eauto using same_tree_refl, same_tree_trans.
Qed.

Lemma protect_set_same_tree fuel td p flags s r s' :
  protect_set fuel td p flags s = Ok (r, s') -> same_tree s s'.
Proof.
  unfold protect_set, protect_setchildren. intros H. repeat same_tree_step;
  repeat match goal with
  | H : protect_setchild _ _ _ _ = Ok _ |- _ =>
    apply protect_setchild_same_tree in H
  | H : protect_setchildren_from _ _ _ _ _ _ _ = Ok _ |- _ =>
    apply protect_setchildren_from_same_tree in H
  end; eauto using same_tree_refl, same_tree_trans.
Qed.

Lemma trace_ctl_same_tree td p state s r s' :
  trace_ctl td p state s = Ok (r, s') -> same_tree s s'.
Proof.
  unfold trace_ctl. intros H. repeat same_tree_step;
    eauto using same_tree_refl, same_tree_trans.
Qed.


(** ** Dispatcher: requests on a process group *)

(** The aggregate: success if any member succeeded, otherwise the first
    error, and ESRCH when every member was skipped. *)
Lemma group_aggregate_success outs :
  Some 0 ∈ outs -> group_aggregate outs = 0.
Proof.
  intros Hin. unfold group_aggregate.
  replace (existsb (fun e => e =? 0) (omap id outs)) with true; [done|].
  symmetry. apply existsb_exists. exists 0. split; [|done].
  apply list_elem_of_In, list_elem_of_omap. exists (Some 0). done.
Qed.

Lemma group_aggregate_all_skipped outs :
  (forall o, o ∈ outs -> o = None) -> group_aggregate outs = ESRCH.
Proof.
  intros Hall. unfold group_aggregate.
  replace (omap id outs) with (@nil Z); [done|].
  symmetry. induction outs as [|o outs IH]; [done|].
  rewrite (Hall o) by left. simpl. apply IH. intros o' Ho'. apply Hall. now right.
Qed.

Lemma group_aggregate_first_error outs e :
  (forall o, o ∈ outs -> o <> Some 0) ->
  head (omap id outs) = Some e -> group_aggregate outs = e.
Proof.
  intros Hno Hhd. unfold group_aggregate.
  replace (existsb (fun e => e =? 0) (omap id outs)) with false.
  - destruct (omap id outs); simpl in Hhd; congruence.
  - symmetry. apply not_true_is_false. intros H.
    apply existsb_exists in H as (x & Hx & Hz). apply Z.eqb_eq in Hz. subst x.
    apply list_elem_of_In, list_elem_of_omap in Hx as (o & Ho & Hid).
    apply (Hno o Ho). destruct o; simpl in Hid; congruence.
Qed.

Lemma group_members_foreach fuel td com l : forall ok first_error data st,
  foreach_list l (kern_procctl_member fuel td com) (ok, first_error, data) st =
  match members_run fuel td com l data st with
  | Ok ((outs, data'), s') =>
    Ok ((fold_left aggregate_step outs (ok, first_error), data'), s')
  | Panic => Panic
  | Fault => Fault
  | OutOfFuel => OutOfFuel
  end.
Proof.
  induction l as [|p l IH]; intros ok fe data st; [done|].
  rewrite foreach_list_cons. unfold kern_procctl_member.
  cbn [members_run]. unfold kbind, kret.
  destruct (deref p st) as [[pr s1]| | |]; try done.
  destruct (_ || _).
  - rewrite IH.
    destruct (members_run fuel td com l data s1) as [[[outs d'] s2]| | |]; done.
  - destruct (kern_procctl_single fuel td p com data s1)
      as [[[e d1] s2]| | |]; try done.
    destruct (e =? 0) eqn:He; [|destruct (fe =? 0) eqn:Hfe];
      rewrite IH;
      destruct (members_run fuel td com l d1 s2) as [[[outs d'] s3]| | |];
      try done; simpl; now rewrite He, ?Hfe.
Qed.

Lemma aggregate_fold outs : forall ok first_error,
  (let '(ok', fe') := fold_left aggregate_step outs (ok, first_error) in
   if negb (ok' =? 0) then 0 else if negb (fe' =? 0) then fe' else ESRCH) =
  if negb (ok =? 0) || existsb (fun e => e =? 0) (omap id outs) then 0
  else if negb (first_error =? 0) then first_error
  else match omap id outs with e :: _ => e | [] => ESRCH end.
Proof.
  induction outs as [|[e|] outs IH]; intros ok fe.
  - simpl. now rewrite orb_false_r.
  - change (omap id (Some e :: outs)) with (e :: omap id outs).
    cbn [fold_left aggregate_step fst snd existsb].
    destruct (e =? 0) eqn:He.
    + rewrite IH. simpl. now rewrite orb_true_r.
    + destruct (fe =? 0) eqn:Hfe; rewrite IH; simpl.
      * rewrite He. simpl.
        now destruct (negb (ok =? 0) || existsb _ (omap id outs)).
      * now rewrite Hfe.
  - apply IH.
Qed.

(** C4: a request on a process group ([P_PGID]) that the dispatcher
    admits for groups runs the operation on the members of the group in
    list order, skipping without an error the members that are not fully
    initialised or that the caller cannot see; its result is 0 when the
    operation returned 0 on some member, otherwise the first error a
    member returned, and ESRCH (NotFound) when every member was
    skipped. *)
Theorem kern_procctl_group fuel td id com data st pg l :
  com = PROC_SPROTECT \/ com = PROC_TRACE_CTL ->
  pgfind id st = Some pg ->
  chain (k_procs st) p_pglist (pg_members pg) l ->
  (length l <= fuel)%nat ->
  kern_procctl fuel td P_PGID id com data st =
  (let* '(outs, data') := members_run fuel td com l data in
   kret (group_aggregate outs, data')) st.
Proof.
  intros Hcom Hpg Hc Hf. unfold kern_procctl.
  replace (_ && negb (P_PGID =? P_PID)) with false
    by (destruct Hcom as [-> | ->]; reflexivity).
  replace (negb _) with false by (destruct Hcom as [-> | ->]; reflexivity).
  change (P_PGID =? P_PID) with false. change (P_PGID =? P_PGID) with true.
  cbv iota. unfold kbind at 1. unfold kget. rewrite Hpg.
  unfold kbind at 1.
  erewrite LIST_FOREACH_chain; [| |exact Hc|exact Hf].
  - rewrite group_members_foreach. unfold kbind.
    destruct (members_run fuel td com l data st) as [[[outs d'] s']| | |];
      try done.
    pose proof (aggregate_fold outs 0 0) as Ha.
    destruct (fold_left aggregate_step outs (0, 0)) as [ok' fe'].
    unfold group_aggregate. simpl in Ha. unfold kret.
    destruct (negb (ok' =? 0)).
    + now rewrite <- Ha.
    + destruct (negb (fe' =? 0)); now rewrite <- Ha.
  - intros p [[ok fe] d] s r s' Hb q. apply same_tree_field; [done|].
    revert Hb. unfold kern_procctl_member, kern_procctl_single. intros Hb.
    destruct Hcom as [-> | ->]; simpl in Hb;
    repeat kstep;
    repeat match goal with
    | H : protect_set _ _ _ _ _ = Ok _ |- _ => apply protect_set_same_tree in H
    | H : trace_ctl _ _ _ _ = Ok _ |- _ => apply trace_ctl_same_tree in H
    | H : (_, _) = (_, _) |- _ => injection H as ? ?; subst
    end; eauto using same_tree_refl.
Qed.


(** ** Reaper introspection: [reap_getpids] *)

Lemma count_foreach l : forall n st,
  foreach_list l (fun _ n => kret (false, u_int (n + 1))) n st =
  Ok (Nat.iter (length l) (fun k => u_int (k + 1)) n, st).
Proof.
  induction l as [|p l IH]; intros n st; [done|].
  rewrite foreach_list_cons. unfold kret at 1. rewrite IH.
  change (length (p :: l)) with (S (length l)). now rewrite Nat.iter_succ_r.
Qed.

Lemma u_int_range x : 0 <= u_int x < 2 ^ 32.
Proof. unfold u_int. apply Z.mod_pos_bound. lia. Qed.

Lemma u_int_small x : 0 <= x < 2 ^ 32 -> u_int x = x.
Proof. intros H. unfold u_int. now apply Z.mod_small. Qed.

Lemma fill_foreach reap n st l : forall i pi,
  0 <= i <= n -> n < 2 ^ 32 -> length pi = Z.to_nat n ->
  (forall q, q ∈ l -> is_Some (k_procs st !! q)) ->
  exists i' pi',
    foreach_list l (reap_getpids_fill reap n) (i, pi) st = Ok ((i', pi'), st) /\
    take (Z.to_nat i') pi' =
      take (Z.to_nat i) pi ++
      map (pidinfo_of st reap) (take (Z.to_nat (n - i)) l).
Proof.
  induction l as [|q l IH]; intros i pi Hi Hn Hlen Hin.
  - exists i, pi. split; [done|]. rewrite take_nil. simpl. now rewrite app_nil_r.
  - rewrite foreach_list_cons. unfold reap_getpids_fill at 1.
    destruct (i =? n) eqn:E.
    + apply Z.eqb_eq in E. subst i. exists n, pi. split; [done|].
      rewrite Z.sub_diag. simpl. now rewrite app_nil_r.
    + apply Z.eqb_neq in E.
      destruct (Hin q) as [qr Hq]; [left|].
      unfold kbind. rewrite (deref_at _ _ _ Hq). unfold kget, store.
      replace ((0 <=? i) && (i <? Z.of_nat (length pi))) with true.
      2: { symmetry. apply andb_true_iff. split; [apply Z.leb_le; lia|].
           apply Z.ltb_lt. lia. }
      unfold kret. cbv beta iota.
      set (e := mkpi _ _ _).
      assert (He : e = pidinfo_of st reap q).
      { unfold e, pidinfo_of. rewrite Hq. now destruct (decide _). }
      rewrite u_int_small by lia.
      destruct (IH (i + 1) (<[Z.to_nat i := e]> pi)) as (i' & pi' & Hrun & Htake).
      { lia. } { lia. } { now rewrite length_insert. }
      { intros x Hx. apply Hin. now right. }
      exists i', pi'. split; [exact Hrun|]. rewrite Htake.
      replace (Z.to_nat (i + 1)) with (S (Z.to_nat i)) by lia.
      rewrite (take_S_r _ _ e).
      2: { apply list_lookup_insert_eq. lia. }
      rewrite take_insert_ge by lia.
      replace (Z.to_nat (n - i)) with (S (Z.to_nat (n - (i + 1)))) by lia.
      simpl. rewrite <- app_assoc. simpl. now rewrite He.
Qed.

(** C7: [reap_getpids] copies out the entries of the first [n]
    processes of the reap list as it is when the list is walked the
    second time, where [n] is the smaller of [rp_count] and the length
    counted in the first walk: never more than [rp_count] entries, and
    the pid of each entry is the pid of a process that is on the reap
    list at that time. *)
Theorem reap_getpids_bounded fuel td p rp st pr rr1 l1 rr2 l2 :
  0 <= rp_count rp < 2 ^ 32 ->
  k_procs st !! p = Some pr ->
  let reap := reaper_of p pr in
  let st1 := tree_unlocked st in
  k_procs st !! reap = Some rr1 ->
  chain (k_procs st) p_reapsibling (p_reaplist rr1) l1 ->
  k_procs st1 !! reap = Some rr2 ->
  chain (k_procs st1) p_reapsibling (p_reaplist rr2) l2 ->
  (length l1 <= fuel)%nat -> (length l2 <= fuel)%nat ->
  let n := Z.min (rp_count rp) (u_int (Z.of_nat (length l1))) in
  let entries := map (pidinfo_of st1 reap) (take (Z.to_nat n) l2) in
  reap_getpids fuel td p rp st =
    copyout (UPidinfo entries) (rp_pids rp) (tree_unlocked st1) /\
  Z.of_nat (length entries) <= rp_count rp /\
  (forall e, e ∈ entries ->
     exists q qr, q ∈ l2 /\ k_procs st1 !! q = Some qr /\ pi_pid e = p_pid qr).
Proof.
  intros Hcount Hp reap st1 Hr1 Hc1 Hr2 Hc2 Hf1 Hf2 n entries.
  assert (Hin2 : forall q, q ∈ l2 -> is_Some (k_procs st1 !! q)).
  { intros q. eapply chain_lookup, Hc2. }
  split; [|split].
  - unfold reap_getpids, kbind. rewrite (deref_at _ _ _ Hp).
    fold reap. rewrite (deref_at _ _ _ Hr1).
    erewrite LIST_FOREACH_chain; [| |exact Hc1|exact Hf1].
    2: { intros q a s r s' [= <- <-]. done. }
    rewrite count_foreach, u_int_count. unfold kmodify. fold st1.
    rewrite (deref_at _ _ _ Hr2).
    erewrite LIST_FOREACH_chain; [| |exact Hc2|exact Hf2].
    2: { intros q [i pi] s r s'. unfold reap_getpids_fill.
         intros H. repeat kstep; try done.
         unfold store in *. repeat kstep. unfold kget in *. congruence. }
    assert (Hn : (if rp_count rp <? u_int (Z.of_nat (length l1))
                  then rp_count rp else u_int (Z.of_nat (length l1))) = n).
    { unfold n. destruct (Z.ltb_spec (rp_count rp) (u_int (Z.of_nat (length l1)))); lia. }
    rewrite Hn.
    pose proof (u_int_range (Z.of_nat (length l1))) as Hu.
    destruct (fill_foreach reap n st1 l2 0 (malloc_pidinfo n))
      as (i' & pi' & Hrun & Htake).
    { lia. } { lia. } { unfold malloc_pidinfo. now rewrite length_replicate. }
    { exact Hin2. }
    rewrite Hrun. rewrite Htake. simpl. now rewrite Z.sub_0_r.
  - unfold entries. rewrite length_map, length_take. lia.
  - intros e He. unfold entries in He.
    apply list_elem_of_fmap in He as (q & -> & Hq).
    apply subseteq_take in Hq. destruct (Hin2 q Hq) as [qr Hqr].
    exists q, qr. split; [done|]. split; [done|].
    unfold pidinfo_of. now rewrite Hqr.
Qed.


(** ** Attribute propagation: one process *)

Lemma protect_setchild_visit td p flags s ret pr :
  k_procs s !! p = Some pr ->
  protect_setchild td p flags s =
    Ok (protect_result td p pr, fst (protect_visit td flags (s, ret) p)).
Proof.
  intros Hp. unfold protect_setchild, protect_visit, protect_record,
    protect_result, kbind. simpl fst. rewrite (deref_at _ _ _ Hp), Hp. simpl.
  destruct (_ || _).
  { unfold kret. now rewrite insert_id, with_k_procs_id. }
  destruct (isset flags PPROT_SET).
  - rewrite (update_at _ _ _ _ Hp).
    destruct (isset flags PPROT_INHERIT).
    + erewrite update_at by (simpl; apply lookup_insert_eq).
      unfold kret. simpl. now rewrite insert_insert_eq.
    + reflexivity.
  - rewrite (update_at _ _ _ _ Hp).
    erewrite update_at by (simpl; apply lookup_insert_eq).
    unfold kret. simpl. now rewrite insert_insert_eq.
Qed.

Lemma erase_protect_record td flags p pr :
  erase_flags (protect_record td flags p pr) = erase_flags pr.
Proof.
  unfold protect_record. destruct (_ || _); [done|].
  destruct (isset flags PPROT_SET); [destruct (isset flags PPROT_INHERIT)|]; done.
Qed.

Lemma protect_visit_same_tree td flags acc p :
  same_tree (fst acc) (fst (protect_visit td flags acc p)).
Proof.
  unfold protect_visit. destruct (k_procs (fst acc) !! p) as [pr|] eqn:Hp.
  - intros q. simpl. rewrite lookup_insert. case_decide as E; [|done].
    subst q. rewrite Hp. simpl. now rewrite erase_protect_record.
  - apply same_tree_refl.
Qed.

Lemma protect_visits_same_tree td flags l : forall acc,
  same_tree (fst acc) (fst (protect_visits td flags l acc)).
Proof.
  induction l as [|p l IH]; intros acc; [apply same_tree_refl|].
  eapply same_tree_trans; [apply protect_visit_same_tree|apply IH].
Qed.

Lemma protect_visits_app td flags l1 l2 acc :
  protect_visits td flags (l1 ++ l2) acc =
  protect_visits td flags l2 (protect_visits td flags l1 acc).
Proof. apply fold_left_app. Qed.

(** ** Attribute propagation: the shape of the tree *)

Lemma same_tree_lookup s s' q r :
  same_tree s s' -> k_procs s !! q = Some r ->
  exists r', k_procs s' !! q = Some r' /\ erase_flags r' = erase_flags r.
Proof.
  intros H Hq. specialize (H q). rewrite Hq in H.
  destruct (k_procs s' !! q) as [r'|]; [|done]. exists r'. split; [done|].
  simpl in H. congruence.
Qed.

Lemma erase_links r r' :
  erase_flags r' = erase_flags r ->
  p_pptr r' = p_pptr r /\ p_children r' = p_children r /\
  p_sibling r' = p_sibling r.
Proof.
  intros H. destruct r, r'. unfold erase_flags in H. simpl in *.
  injection H as <- <- <- <- <- <- <- <- <- <- <- <-. done.
Qed.

Lemma forest_at_same_tree s s' f : forall parent first,
  same_tree s s' ->
  forest_at (k_procs s) parent first f -> forest_at (k_procs s') parent first f.
Proof.
  induction f as [|p kids IHk sibs IHs]; intros parent first Hs; simpl; [done|].
  intros [-> H]. split; [done|].
  destruct (k_procs s !! p) as [r|] eqn:Hp; [|done].
  destruct (same_tree_lookup _ _ _ _ Hs Hp) as (r' & -> & He).
  apply erase_links in He as (-> & -> & ->).
  destruct H as (H1 & H2 & H3). auto.
Qed.

(** ** Attribute propagation: the iteration bound *)

Lemma protect_ascend_mono n top : forall m p s r,
  protect_ascend n top p s = Ok r -> (n <= m)%nat ->
  protect_ascend m top p s = Ok r.
Proof.
  induction n as [|n IH]; intros m p s r; simpl; [discriminate|].
  intros H Hm. destruct m as [|m]; [lia|]. simpl.
  destruct (p =? top); [done|].
  revert H. unfold kbind. destruct (deref p s) as [[pr s1]| | |]; try done.
  destruct (p_sibling pr); [done|].
  destruct (p_pptr pr); [|done]. intros H. apply IH; [done|lia].
Qed.

Lemma protect_setchildren_from_mono n td top flags : forall m p ret s r,
  protect_setchildren_from n td top flags p ret s = Ok r -> (n <= m)%nat ->
  protect_setchildren_from m td top flags p ret s = Ok r.
Proof.
  induction n as [|n IH]; intros m p ret s r; simpl; [discriminate|].
  intros H Hm. destruct m as [|m]; [lia|]. simpl.
  revert H. unfold kbind.
  destruct (protect_setchild td p flags s) as [[x s1]| | |]; try done.
  destruct (deref p s1) as [[pr s2]| | |]; try done.
  destruct (p_children pr).
  { intros H. apply IH; [done|lia]. }
  destruct (protect_ascend n top p s2) as [[next s3]| | |] eqn:Ha; try done.
  erewrite protect_ascend_mono; [|exact Ha|lia].
  destruct next; [|done]. intros H. apply IH; [done|lia].
Qed.


(** ** Attribute propagation: the walk *)

Lemma forest_size_nodes f : forest_size f = length (forest_nodes f).
Proof.
  induction f as [|p kids IHk sibs IHs]; [done|].
  simpl. rewrite length_app. lia.
Qed.

Lemma forest_run td top flags f : forall n par first p s ret s' ret' r,
  forest_at (k_procs s) par first f -> first = Some p ->
  top ∉ forest_nodes f ->
  protect_visits td flags (forest_nodes f) (s, ret) = (s', ret') ->
  leaves_to n td top flags par s' ret' r ->
  protect_setchildren_from (n + 2 * forest_size f) td top flags p ret s = Ok r.
Proof.
  induction f as [|p0 kids IHk sibs IHs];
    intros n par first p s ret s' ret' r Hf Hfirst Htop Hv Hexit.
  { simpl in Hf. congruence. }
  simpl in Hf. destruct Hf as [Hp0 Hf]. assert (p0 = p) by congruence. subst p0.
  clear Hp0 Hfirst.
  destruct (k_procs s !! p) as [pr|] eqn:Hp; [|done].
  destruct Hf as (Hpar & Hkids & Hsibs).
  simpl in Htop. apply not_elem_of_cons in Htop as [Hne Htop].
  apply not_elem_of_app in Htop as [Htk Hts].
  (* the three stages of the visits *)
  cbn [forest_nodes] in Hv.
  change (protect_visits td flags (p :: ?l) ?a)
    with (protect_visits td flags l (protect_visit td flags a p)) in Hv.
  rewrite protect_visits_app in Hv.
  destruct (protect_visit td flags (s, ret) p) as [s1 ret1] eqn:Hv1.
  destruct (protect_visits td flags (forest_nodes kids) (s1, ret1))
    as [s2 ret2] eqn:Hv2.
  assert (Hs1 : same_tree s s1).
  { pose proof (protect_visit_same_tree td flags (s, ret) p) as H.
    now rewrite Hv1 in H. }
  assert (Hs2 : same_tree s1 s2).
  { pose proof (protect_visits_same_tree td flags (forest_nodes kids) (s1, ret1)) as H.
    now rewrite Hv2 in H. }
  assert (Hs12 : same_tree s s2) by (eapply same_tree_trans; eauto).
  (* the record of [p] keeps its links *)
  destruct (same_tree_lookup _ _ _ _ Hs1 Hp) as (pr1 & Hp1 & He1).
  apply erase_links in He1 as (Hpp1 & Hch1 & Hsb1).
  destruct (same_tree_lookup _ _ _ _ Hs12 Hp) as (pr2 & Hp2 & He2).
  apply erase_links in He2 as (Hpp2 & Hch2 & Hsb2).
  assert (Hnot : (p =? top) = false) by (apply Z.eqb_neq; congruence).
  (* after the children of [p] *)
  assert (Hafter :
    leaves_to (S (n + 2 * forest_size sibs)) td top flags p s2 ret2 r).
  { destruct sibs as [|q qkids qsibs].
    - simpl in Hsibs, Hv. injection Hv as <- <-.
      destruct Hexit as (next & Ha & Hnext).
      exists next. simpl forest_size. rewrite Nat.mul_0_r, Nat.add_0_r. split.
      + simpl. rewrite Hnot. unfold kbind.
        now rewrite (deref_at _ _ _ Hp2), Hsb2, Hsibs, Hpp2, Hpar.
      + destruct next as [q|]; [|done].
        eapply protect_setchildren_from_mono; [exact Hnext|lia].
    - assert (Hq : p_sibling pr = Some q) by (simpl in Hsibs; tauto).
      exists (Some q). split.
      + simpl. rewrite Hnot. unfold kbind.
        now rewrite (deref_at _ _ _ Hp2), Hsb2, Hq.
      + eapply protect_setchildren_from_mono; [|apply Nat.le_succ_diag_r].
        eapply (IHs n par (p_sibling pr) q s2 ret2 s' ret' r); eauto.
        eapply forest_at_same_tree; eauto. }
  (* the visit of [p] and of its children *)
  assert (Hstep : forall m,
    protect_setchildren_from (S m) td top flags p ret s =
    match p_children pr with
    | Some child => protect_setchildren_from m td top flags child ret1 s1
    | None =>
      (let* next := protect_ascend m top p in
       match next with
       | None => kret ret1
       | Some q => protect_setchildren_from m td top flags q ret1
       end) s1
    end).
  { intros m. simpl. unfold kbind at 1.
    rewrite (protect_setchild_visit td p flags s ret pr Hp), Hv1. simpl fst.
    unfold kbind at 1. rewrite (deref_at _ _ _ Hp1), Hch1.
    assert (ret1 = Z.lor ret (protect_result td p pr)) as <-;
      [|now destruct (p_children pr)].
    unfold protect_visit in Hv1. simpl in Hv1. rewrite Hp in Hv1. congruence. }
  cbn [forest_size].
  replace (n + 2 * S (forest_size kids + forest_size sibs))%nat
    with (S (S (n + 2 * forest_size sibs) + 2 * forest_size kids)) by lia.
  rewrite Hstep.
  destruct kids as [|c ckids csibs].
  - simpl in Hkids, Hv2. injection Hv2 as <- <-.
    simpl forest_size. rewrite Nat.mul_0_r, Nat.add_0_r, Hkids.
    destruct Hafter as (next & Ha & Hnext). unfold kbind. rewrite Ha.
    destruct next; [done|]. now rewrite Hnext.
  - assert (Hc : p_children pr = Some c) by (simpl in Hkids; tauto).
    rewrite Hc.
    eapply (IHk _ p (p_children pr) c s1 ret1 s2 ret2 r); eauto.
    eapply forest_at_same_tree; eauto.
Qed.

(** ** Attribute propagation: a process is not below itself *)

Lemma forest_at_unique h f1 : forall par1 par2 first f2,
  forest_at h par1 first f1 -> forest_at h par2 first f2 -> f1 = f2.
Proof.
  induction f1 as [|p k1 IHk s1 IHs]; intros par1 par2 first [|p' k2 s2]; simpl.
  - done.
  - intros -> [? _]. done.
  - intros [-> _] ?. done.
  - intros [-> H1] [Hp H2]. injection Hp as <-.
    destruct (h !! p) as [pr|]; [|done].
    destruct H1 as (_ & Hk1 & Hs1), H2 as (_ & Hk2 & Hs2).
    f_equal; eauto.
Qed.

Lemma forest_at_below h f : forall par first q,
  forest_at h par first f -> q ∈ forest_nodes f ->
  exists qr qkids,
    h !! q = Some qr /\ forest_at h q (p_children qr) qkids /\
    (forest_size qkids < forest_size f)%nat.
Proof.
  induction f as [|p kids IHk sibs IHs]; intros par first q; simpl.
  - intros _ H. inversion H.
  - intros [_ H] Hq. destruct (h !! p) as [pr|] eqn:Hp; [|done].
    destruct H as (_ & Hk & Hs).
    apply elem_of_cons in Hq as [-> | Hq].
    { exists pr, kids. split; [done|]. split; [done|]. lia. }
    apply elem_of_app in Hq as [Hq | Hq].
    + destruct (IHk _ _ _ Hk Hq) as (qr & qk & ? & ? & ?).
      exists qr, qk. split; [done|]. split; [done|]. lia.
    + destruct (IHs _ _ _ Hs Hq) as (qr & qk & ? & ? & ?).
      exists qr, qk. split; [done|]. split; [done|]. lia.
Qed.

Lemma forest_at_top h top tr kids :
  h !! top = Some tr -> forest_at h top (p_children tr) kids ->
  top ∉ forest_nodes kids.
Proof.
  intros Ht Hf Hin.
  destruct (forest_at_below _ _ _ _ _ Hf Hin) as (qr & qk & Hq & Hfq & Hlt).
  rewrite Ht in Hq. injection Hq as <-.
  rewrite (forest_at_unique _ _ _ _ _ _ Hfq Hf) in Hlt. lia.
Qed.

(** ** Attribute propagation: the whole walk *)

Lemma protect_setchildren_run fuel td top flags s tr kids :
  k_procs s !! top = Some tr ->
  forest_at (k_procs s) top (p_children tr) kids ->
  (2 * length (top :: forest_nodes kids) <= fuel)%nat ->
  protect_setchildren fuel td top flags s =
  Ok (snd (protect_visits td flags (top :: forest_nodes kids) (s, 0)),
      fst (protect_visits td flags (top :: forest_nodes kids) (s, 0))).
Proof.
  intros Ht Hf Hfuel. pose proof (forest_at_top _ _ _ _ Ht Hf) as Hnot.
  cbn [length] in Hfuel. rewrite <- forest_size_nodes in Hfuel.
  change (protect_visits td flags (top :: ?l) ?a)
    with (protect_visits td flags l (protect_visit td flags a top)).
  destruct (protect_visit td flags (s, 0) top) as [s1 ret1] eqn:Hv1.
  destruct (protect_visits td flags (forest_nodes kids) (s1, ret1))
    as [s2 ret2] eqn:Hv2.
  assert (Hs1 : same_tree s s1).
  { pose proof (protect_visit_same_tree td flags (s, 0) top) as H.
    now rewrite Hv1 in H. }
  destruct (same_tree_lookup _ _ _ _ Hs1 Ht) as (tr1 & Ht1 & He1).
  apply erase_links in He1 as (_ & Hch1 & _).
  assert (Hret : ret1 = Z.lor 0 (protect_result td top tr)).
  { unfold protect_visit in Hv1. simpl in Hv1. rewrite Ht in Hv1. congruence. }
  assert (Hstep : forall n,
    protect_setchildren (S n) td top flags s =
    match p_children tr with
    | Some child => protect_setchildren_from n td top flags child ret1 s1
    | None =>
      (let* next := protect_ascend n top top in
       match next with
       | None => kret ret1
       | Some q => protect_setchildren_from n td top flags q ret1
       end) s1
    end).
  { intros n. unfold protect_setchildren. simpl. unfold kbind at 1.
    rewrite (protect_setchild_visit td top flags s 0 tr Ht), Hv1. simpl fst.
    unfold kbind at 1. rewrite (deref_at _ _ _ Ht1), Hch1, <- Hret.
    now destruct (p_children tr). }
  assert (Hexit : forall s', protect_ascend 1 top top s' = Ok (None, s')).
  { intros s'. simpl. now rewrite Z.eqb_refl. }
  simpl fst. simpl snd.
  destruct fuel as [|fuel]; [lia|]. rewrite Hstep.
  destruct kids as [|c ckids csibs].
  - simpl in Hf, Hv2. injection Hv2 as <- <-. rewrite Hf. unfold kbind.
    erewrite protect_ascend_mono; [|apply Hexit|simpl in Hfuel; lia]. done.
  - assert (Hc : p_children tr = Some c) by (simpl in Hf; tauto).
    rewrite Hc.
    eapply protect_setchildren_from_mono
      with (n := (1 + 2 * forest_size (FCons c ckids csibs))%nat); [|lia].
    eapply (forest_run td top flags (FCons c ckids csibs) 1 top
              (p_children tr) c s1 ret1 s2 ret2 (ret2, s2)); eauto.
    { eapply forest_at_same_tree; eauto. }
    { exists None. split; [apply Hexit|done]. }
Qed.

(** ** Attribute propagation: the flags after the walk *)

Lemma isset_bit x k : 0 <= k -> isset x (2 ^ k) = Z.testbit x k.
Proof.
  intros Hk. unfold isset. destruct (Z.testbit x k) eqn:E.
  - apply negb_true_iff, Z.eqb_neq. intros H.
    assert (Z.testbit (Z.land x (2 ^ k)) k = false) by (rewrite H; apply Z.bits_0).
    rewrite Z.land_spec, E, Z.pow2_bits_true in H0; [discriminate | lia].
  - apply negb_false_iff, Z.eqb_eq. apply Z.bits_inj'. intros n Hn.
    rewrite Z.land_spec, Z.bits_0.
    destruct (Z.eq_dec n k) as [-> | Hne]; [now rewrite E|].
    rewrite Z.pow2_bits_false by lia. apply andb_false_r.
Qed.

Lemma isset_P_SYSTEM x : isset x P_SYSTEM = Z.testbit x 9.
Proof. apply (isset_bit x 9). lia. Qed.

Lemma isset_P_PROTECTED x : isset x P_PROTECTED = Z.testbit x 20.
Proof. apply (isset_bit x 20). lia. Qed.

Lemma protect_record_system td flags p r :
  isset (p_flag (protect_record td flags p r)) P_SYSTEM =
  isset (p_flag r) P_SYSTEM.
Proof.
  unfold protect_record. destruct (_ || _); [done|].
  destruct (isset flags PPROT_SET).
  - assert (isset (Z.lor (p_flag r) P_PROTECTED) P_SYSTEM =
            isset (p_flag r) P_SYSTEM).
    { rewrite !isset_P_SYSTEM, Z.lor_spec.
      change (Z.testbit P_PROTECTED 9) with false. apply orb_false_r. }
    now destruct (isset flags PPROT_INHERIT).
  - simpl. rewrite !isset_P_SYSTEM, Z.land_spec, Z.lnot_spec by lia.
    change (Z.testbit P_PROTECTED 9) with false. apply andb_true_r.
Qed.

Lemma protect_result_record td flags p r :
  protect_result td p (protect_record td flags p r) = protect_result td p r.
Proof. unfold protect_result. now rewrite protect_record_system. Qed.

Lemma protect_record_idem td flags p r :
  protect_record td flags p (protect_record td flags p r) =
  protect_record td flags p r.
Proof.
  pose proof (protect_record_system td flags p r) as Hsys.
  unfold protect_record in *.
  destruct (isset (p_flag r) P_SYSTEM || negb (p_cansched td p =? 0)) eqn:Hskip.
  { now rewrite Hskip. }
  rewrite Hsys, Hskip.
  destruct (isset flags PPROT_SET).
  - destruct (isset flags PPROT_INHERIT); destruct r; unfold with_p_flag,
      with_p_flag2; simpl; f_equal;
      rewrite <- Z.lor_assoc; f_equal; apply Z.lor_diag.
  - destruct r; unfold with_p_flag, with_p_flag2; simpl; f_equal;
      rewrite <- Z.land_assoc; f_equal; apply Z.land_diag.
Qed.

Lemma protect_record_protected td flags p r :
  isset flags PPROT_SET = true ->
  isset (p_flag r) P_SYSTEM = false -> p_cansched td p = 0 ->
  isset (p_flag (protect_record td flags p r)) P_PROTECTED = true.
Proof.
  intros Hset Hsys Hsched. unfold protect_record.
  rewrite Hsys, Hsched, Hset. simpl.
  assert (isset (Z.lor (p_flag r) P_PROTECTED) P_PROTECTED = true).
  { rewrite isset_P_PROTECTED, Z.lor_spec.
    change (Z.testbit P_PROTECTED 20) with true. apply orb_true_r. }
  now destruct (isset flags PPROT_INHERIT).
Qed.

Lemma protect_record_keeps_protected td flags p r :
  isset flags PPROT_SET = true ->
  isset (p_flag r) P_PROTECTED = true ->
  isset (p_flag (protect_record td flags p r)) P_PROTECTED = true.
Proof.
  intros Hset Hp. unfold protect_record. rewrite Hset.
  destruct (_ || _); [done|].
  assert (isset (Z.lor (p_flag r) P_PROTECTED) P_PROTECTED = true).
  { rewrite isset_P_PROTECTED, Z.lor_spec.
    change (Z.testbit P_PROTECTED 20) with true. apply orb_true_r. }
  now destruct (isset flags PPROT_INHERIT).
Qed.

Lemma protect_visit_lookup td flags acc p q :
  k_procs (fst (protect_visit td flags acc p)) !! q =
  if decide (q = p) then protect_record td flags p <$> k_procs (fst acc) !! p
  else k_procs (fst acc) !! q.
Proof.
  unfold protect_visit.
  destruct (k_procs (fst acc) !! p) as [pr|] eqn:Hp; simpl.
  - rewrite lookup_insert. destruct (decide (p = q)), (decide (q = p));
      congruence.
  - destruct (decide (q = p)); congruence.
Qed.

Section Visits.
Variables (td : thread) (flags : Z).
Variables Pre Post : procp -> proc -> Prop.
Hypothesis Post_stable : forall q r, Post q r -> Post q (protect_record td flags q r).
Hypothesis Post_visit : forall q r, Pre q r -> Post q (protect_record td flags q r).

Lemma protect_visits_stable l : forall acc q r,
  k_procs (fst acc) !! q = Some r -> Post q r ->
  exists r', k_procs (fst (protect_visits td flags l acc)) !! q = Some r' /\
             Post q r'.
Proof.
  induction l as [|p l IH]; intros acc q r Hq Hr; [eauto|].
  change (protect_visits td flags (p :: l) acc)
    with (protect_visits td flags l (protect_visit td flags acc p)).
  destruct (decide (q = p)) as [-> | Hne].
  - eapply IH; [rewrite protect_visit_lookup, decide_True, Hq by done; done|].
    auto.
  - eapply IH; [rewrite protect_visit_lookup, decide_False by done; done|].
    auto.
Qed.

Lemma protect_visits_visited l : forall acc q r,
  q ∈ l -> k_procs (fst acc) !! q = Some r -> Pre q r ->
  exists r', k_procs (fst (protect_visits td flags l acc)) !! q = Some r' /\
             Post q r'.
Proof.
  induction l as [|p l IH]; intros acc q r Hin Hq Hr; [inversion Hin|].
  change (protect_visits td flags (p :: l) acc)
    with (protect_visits td flags l (protect_visit td flags acc p)).
  destruct (decide (q = p)) as [-> | Hne].
  - eapply protect_visits_stable;
      [rewrite protect_visit_lookup, decide_True, Hq by done; done|].
    auto.
  - apply elem_of_cons in Hin as [? | Hin]; [done|].
    eapply IH; [done| |exact Hr].
    now rewrite protect_visit_lookup, decide_False.
Qed.
End Visits.

Lemma result_of_visit td flags acc p q :
  result_of td (fst (protect_visit td flags acc p)) q = result_of td (fst acc) q.
Proof.
  unfold result_of. rewrite protect_visit_lookup.
  destruct (decide (q = p)) as [-> | Hne]; [|done].
  destruct (k_procs (fst acc) !! p); simpl; [|done].
  apply protect_result_record.
Qed.

Lemma result_of_visits td flags l : forall acc q,
  result_of td (fst (protect_visits td flags l acc)) q = result_of td (fst acc) q.
Proof.
  induction l as [|p l IH]; intros acc q; [done|].
  change (protect_visits td flags (p :: l) acc)
    with (protect_visits td flags l (protect_visit td flags acc p)).
  now rewrite IH, result_of_visit.
Qed.

Lemma protect_visits_ret td flags s0 l : forall acc,
  (forall q, result_of td (fst acc) q = result_of td s0 q) ->
  snd (protect_visits td flags l acc) =
  fold_left (fun a q => Z.lor a (result_of td s0 q)) l (snd acc).
Proof.
  induction l as [|p l IH]; intros acc Hacc; [done|].
  change (protect_visits td flags (p :: l) acc)
    with (protect_visits td flags l (protect_visit td flags acc p)).
  rewrite IH.
  - simpl. f_equal. rewrite <- Hacc. unfold protect_visit, result_of.
    destruct (k_procs (fst acc) !! p); simpl; [done|]. now rewrite Z.lor_0_r.
  - intros q. now rewrite result_of_visit.
Qed.

Lemma protect_visits_fixed td flags l : forall s ret,
  (forall q r, q ∈ l -> k_procs s !! q = Some r ->
     protect_record td flags q r = r) ->
  fst (protect_visits td flags l (s, ret)) = s.
Proof.
  induction l as [|p l IH]; intros s ret Hfix; [done|].
  change (protect_visits td flags (p :: l) (s, ret))
    with (protect_visits td flags l (protect_visit td flags (s, ret) p)).
  unfold protect_visit. simpl fst.
  destruct (k_procs s !! p) as [r|] eqn:Hp.
  - rewrite (Hfix p r) by (done || left).
    rewrite insert_id, with_k_procs_id by done.
    apply IH. intros q r' Hq. apply Hfix. now right.
  - apply IH. intros q r' Hq. apply Hfix. now right.
Qed.


Lemma protect_set_descend_checked fuel td p flags :
  flags = Z.lor PPROT_SET PPROT_DESCEND \/
  flags = Z.lor (Z.lor PPROT_SET PPROT_DESCEND) PPROT_INHERIT ->
  priv_check td PRIV_VM_MADV_PROTECT = 0 ->
  isset flags PPROT_SET = true /\
  protect_set fuel td p flags =
    (let* ret := protect_setchildren fuel td p flags in
     if ret =? 0 then kret EPERM else kret 0).
Proof.
  intros Hflags Hpriv. unfold protect_set. rewrite Hpriv.
  destruct Hflags as [-> | ->]; split; reflexivity.
Qed.

(** C6: [protect_set] with [PPROT_SET] and [PPROT_DESCEND] (with or
    without [PPROT_INHERIT]) by a caller that passes the privilege check,
    on the root [top] of a process tree, returns once the bound of the
    walk is twice the number of processes of the tree; afterwards every
    process of the tree, [top] included, that is not a system process
    and that the caller may schedule has [P_PROTECTED] set; and the same
    call on the resulting state returns the same value and leaves that
    state as it is. *)
Theorem protect_set_descend td top flags s tr kids :
  flags = Z.lor PPROT_SET PPROT_DESCEND \/
  flags = Z.lor (Z.lor PPROT_SET PPROT_DESCEND) PPROT_INHERIT ->
  priv_check td PRIV_VM_MADV_PROTECT = 0 ->
  k_procs s !! top = Some tr ->
  forest_at (k_procs s) top (p_children tr) kids ->
  exists error s',
    (forall fuel, (2 * length (top :: forest_nodes kids) <= fuel)%nat ->
       protect_set fuel td top flags s = Ok (error, s') /\
       protect_set fuel td top flags s' = Ok (error, s')) /\
    (forall q qr,
       q ∈ top :: forest_nodes kids ->
       k_procs s !! q = Some qr ->
       isset (p_flag qr) P_SYSTEM = false -> p_cansched td q = 0 ->
       exists qr', k_procs s' !! q = Some qr' /\
                   isset (p_flag qr') P_PROTECTED = true).
Proof.
  intros Hflags Hpriv Ht Hf.
  set (nodes := top :: forest_nodes kids).
  set (acc := protect_visits td flags nodes (s, 0)).
  assert (Hs' : same_tree s (fst acc))
    by apply (protect_visits_same_tree td flags nodes (s, 0)).
  destruct (same_tree_lookup _ _ _ _ Hs' Ht) as (tr' & Ht' & He).
  apply erase_links in He as (_ & Hch & _).
  assert (Hf' : forest_at (k_procs (fst acc)) top (p_children tr') kids).
  { rewrite Hch. eapply forest_at_same_tree; eauto. }
  (* the second walk changes nothing *)
  assert (Hfix : fst (protect_visits td flags nodes (fst acc, 0)) = fst acc).
  { apply protect_visits_fixed. intros q r Hq Hr.
    destruct (k_procs s !! q) as [r0|] eqn:Hr0.
    - assert (Hv : exists r', k_procs (fst acc) !! q = Some r' /\
                     protect_record td flags q r' = r').
      { apply (protect_visits_visited td flags (fun _ _ => True)
                 (fun q r => protect_record td flags q r = r))
          with (r := r0); auto.
        - intros q0 r1 Hr1. now rewrite Hr1.
        - intros q0 r1 _. apply protect_record_idem. }
      destruct Hv as (r' & Hr' & Hfixed). congruence.
    - specialize (Hs' q). rewrite Hr, Hr0 in Hs'. done. }
  assert (Hret : snd (protect_visits td flags nodes (fst acc, 0)) = snd acc).
  { unfold acc at 2.
    rewrite (protect_visits_ret td flags s nodes (fst acc, 0)),
            (protect_visits_ret td flags s nodes (s, 0)); [done|done|].
    intros q. apply result_of_visits. }
  destruct (protect_set_descend_checked 0 td top flags Hflags Hpriv) as [Hset _].
  exists (if snd acc =? 0 then EPERM else 0), (fst acc).
  split.
  - intros fuel Hfuel.
    destruct (protect_set_descend_checked fuel td top flags Hflags Hpriv)
      as [_ ->].
    unfold kbind.
    rewrite (protect_setchildren_run fuel td top flags s tr kids Ht Hf Hfuel).
    rewrite (protect_setchildren_run fuel td top flags (fst acc) tr' kids
               Ht' Hf' Hfuel).
    fold nodes. fold acc. rewrite Hfix, Hret.
    now destruct (snd acc =? 0).
  - intros q qr Hq Hqr Hsys Hsched.
    apply (protect_visits_visited td flags
             (fun q r => isset (p_flag r) P_SYSTEM = false /\ p_cansched td q = 0)
             (fun _ r => isset (p_flag r) P_PROTECTED = true))
      with (r := qr); auto.
    + intros q0 r. now apply protect_record_keeps_protected.
    + intros q0 r [? ?]. now apply protect_record_protected.
Qed.


(** ** Attribute propagation: failures and the single process *)

Lemma protect_setchild_zero td p flags s r s' :
  protect_setchild td p flags s = Ok (r, s') -> r = 0 -> s' = s.
Proof.
  unfold protect_setchild. intros H Hr. repeat kstep; try done; discriminate.
Qed.

Lemma protect_setchildren_from_zero fuel td top flags : forall p ret s r s',
  protect_setchildren_from fuel td top flags p ret s = Ok (r, s') ->
  r = 0 -> ret = 0 /\ s' = s.
Proof.
  induction fuel as [|fuel IH]; intros p ret s r s'; simpl; [discriminate|].
  intros H Hr. apply kbind_Ok in H as (r1 & s1 & H1 & H).
  apply kbind_Ok in H as (pr & s2 & H2 & H).
  apply deref_Ok in H2 as [_ ->].
  assert (Hgoal : Z.lor ret r1 = 0 /\ s' = s1).
  { destruct (p_children pr).
    - eapply IH; eauto.
    - apply kbind_Ok in H as (next & s3 & H3 & H).
      apply protect_ascend_state in H3 as ->.
      destruct next; [eapply IH; eauto|].
      apply kret_Ok in H as [-> ->]. done. }
  destruct Hgoal as [Hlor ->]. apply Z.lor_eq_0_iff in Hlor as [-> ->].
  split; [done|]. eapply protect_setchild_zero; eauto.
Qed.

(** Whatever the request and the bound of the walk, a [protect_set] that
    returns an error has changed nothing. *)
Theorem protect_set_error_unchanged fuel td p flags s e s' :
  protect_set fuel td p flags s = Ok (e, s') -> e <> 0 -> s' = s.
Proof.
  unfold protect_set, protect_setchildren. intros H He.
  repeat kstep; try done.
  - match goal with
    | Hz : (_ =? 0) = true |- _ => apply Z.eqb_eq in Hz; subst
    end.
    match goal with
    | Hf : protect_setchildren_from _ _ _ _ _ _ _ = Ok _ |- _ =>
      now apply protect_setchildren_from_zero in Hf as [_ ->]
    end.
  - match goal with
    | Hz : (_ =? 0) = true |- _ => apply Z.eqb_eq in Hz; subst
    end.
    match goal with
    | Hf : protect_setchild _ _ _ _ = Ok _ |- _ =>
      now apply protect_setchild_zero in Hf
    end.
Qed.


Lemma protect_set_checked fuel td p flags :
  protect_flags_ok flags ->
  priv_check td PRIV_VM_MADV_PROTECT = 0 ->
  protect_set fuel td p flags =
    (let* ret :=
       (if isset flags PPROT_DESCEND then protect_setchildren fuel td p flags
        else protect_setchild td p flags) in
     if ret =? 0 then kret EPERM else kret 0).
Proof.
  intros [Hop Hfl] Hpriv. unfold protect_set. rewrite Hpriv, Hfl.
  destruct Hop as [-> | ->]; reflexivity.
Qed.

Lemma isset_PPROT_SET flags : isset flags PPROT_SET = Z.testbit flags 0.
Proof. apply (isset_bit flags 0). lia. Qed.

Lemma isset_P2_INHERIT x : isset x P2_INHERIT_PROTECTED = Z.testbit x 0.
Proof. apply (isset_bit x 0). lia. Qed.

Lemma protect_op_set flags :
  PPROT_OP flags = PPROT_SET -> isset flags PPROT_SET = true.
Proof.
  intros H. rewrite isset_PPROT_SET.
  apply (f_equal (fun x => Z.testbit x 0)) in H. unfold PPROT_OP in H.
  rewrite Z.land_spec in H. change (Z.testbit 15 0) with true in H.
  now rewrite andb_true_r in H.
Qed.

Lemma protect_op_clear flags :
  PPROT_OP flags = PPROT_CLEAR -> isset flags PPROT_SET = false.
Proof.
  intros H. rewrite isset_PPROT_SET.
  apply (f_equal (fun x => Z.testbit x 0)) in H. unfold PPROT_OP in H.
  rewrite Z.land_spec in H. change (Z.testbit 15 0) with true in H.
  now rewrite andb_true_r in H.
Qed.

Lemma eligible_dec td q qr :
  (isset (p_flag qr) P_SYSTEM || negb (p_cansched td q =? 0) = false /\
   eligible td q qr) \/
  (isset (p_flag qr) P_SYSTEM || negb (p_cansched td q =? 0) = true /\
   ~ eligible td q qr).
Proof.
  unfold eligible. destruct (isset (p_flag qr) P_SYSTEM); simpl.
  { right. split; [done|]. intros [? _]. done. }
  destruct (p_cansched td q =? 0) eqn:E; simpl.
  - left. apply Z.eqb_eq in E. done.
  - right. apply Z.eqb_neq in E. split; [done|]. intros [_ ?]. done.
Qed.

Lemma protect_record_skipped td flags q qr :
  ~ eligible td q qr -> protect_record td flags q qr = qr.
Proof.
  intros H. unfold protect_record.
  destruct (eligible_dec td q qr) as [[_ ?] | [-> _]]; done.
Qed.

Lemma lor_bit_others k x i :
  0 <= k -> i <> k -> Z.testbit (Z.lor x (2 ^ k)) i = Z.testbit x i.
Proof.
  intros Hk Hi. destruct (Z.neg_nonneg_cases i) as [Hn | Hn].
  { now rewrite !Z.testbit_neg_r. }
  rewrite Z.lor_spec, Z.pow2_bits_false by lia. apply orb_false_r.
Qed.

Lemma clear_bit_others k x i :
  0 <= k -> i <> k -> Z.testbit (Z.land x (Z.lnot (2 ^ k))) i = Z.testbit x i.
Proof.
  intros Hk Hi. destruct (Z.neg_nonneg_cases i) as [Hn | Hn].
  { now rewrite !Z.testbit_neg_r. }
  rewrite Z.land_spec, Z.lnot_spec, Z.pow2_bits_false by lia. apply andb_true_r.
Qed.

Lemma lor_bit_set k x : 0 <= k -> Z.testbit (Z.lor x (2 ^ k)) k = true.
Proof.
  intros Hk. rewrite Z.lor_spec, Z.pow2_bits_true by lia. apply orb_true_r.
Qed.

Lemma clear_bit_clear k x :
  0 <= k -> Z.testbit (Z.land x (Z.lnot (2 ^ k))) k = false.
Proof.
  intros Hk. rewrite Z.land_spec, Z.lnot_spec, Z.pow2_bits_true by lia.
  apply andb_false_r.
Qed.

(** The bits of a record after the visit of an eligible process. *)
Lemma protect_record_bits td flags q qr :
  eligible td q qr ->
  let qr' := protect_record td flags q qr in
  erase_flags qr' = erase_flags qr /\
  only_bit 20 (p_flag qr) (p_flag qr') /\
  Z.testbit (p_flag qr') 20 = isset flags PPROT_SET /\
  only_bit 0 (p_flag2 qr) (p_flag2 qr') /\
  Z.testbit (p_flag2 qr') 0 =
    (if isset flags PPROT_SET
     then isset flags PPROT_INHERIT || Z.testbit (p_flag2 qr) 0
     else false).
Proof.
  intros He qr'. split; [apply erase_protect_record|].
  unfold qr', protect_record.
  destruct (eligible_dec td q qr) as [[-> _] | [_ ?]]; [|done].
  change P_PROTECTED with (2 ^ 20). change P2_INHERIT_PROTECTED with (2 ^ 0).
  destruct (isset flags PPROT_SET); [destruct (isset flags PPROT_INHERIT)|];
    simpl p_flag; simpl p_flag2; unfold only_bit;
    repeat split; intros;
    rewrite ?lor_bit_others, ?clear_bit_others, ?lor_bit_set, ?clear_bit_clear
      by lia; done.
Qed.

Lemma protect_record_any_bits td flags q qr :
  let qr' := protect_record td flags q qr in
  erase_flags qr' = erase_flags qr /\
  only_bit 20 (p_flag qr) (p_flag qr') /\
  only_bit 0 (p_flag2 qr) (p_flag2 qr').
Proof.
  intros qr'. destruct (eligible_dec td q qr) as [[_ He] | [_ He]].
  - destruct (protect_record_bits td flags q qr He) as (? & ? & _ & ? & _).
    done.
  - unfold qr'. rewrite protect_record_skipped by done. done.
Qed.

Lemma protect_setchild_run td p flags s pr :
  k_procs s !! p = Some pr ->
  protect_setchild td p flags s =
    Ok (protect_result td p pr,
        with_k_procs (<[p := protect_record td flags p pr]> (k_procs s)) s).
Proof.
  intros Hp. rewrite (protect_setchild_visit td p flags s 0 pr Hp).
  unfold protect_visit. simpl. now rewrite Hp.
Qed.

Lemma protect_result_eligible td q qr :
  (protect_result td q qr = 1 /\ eligible td q qr) \/
  (protect_result td q qr = 0 /\ ~ eligible td q qr).
Proof.
  unfold protect_result.
  destruct (eligible_dec td q qr) as [[-> ?] | [-> ?]]; auto.
Qed.

(** [protect_set] without [PPROT_DESCEND]: on an eligible process it
    returns 0 and changes bit [P_PROTECTED] of [p_flag] and bit
    [P2_INHERIT_PROTECTED] of [p_flag2] of that process only: the first
    is set by [PPROT_SET] and cleared by [PPROT_CLEAR], the second is set
    by [PPROT_SET] with [PPROT_INHERIT], left by [PPROT_SET] alone and
    cleared by [PPROT_CLEAR]; on any other process it returns EPERM. *)
Theorem protect_set_single fuel td p flags s pr :
  protect_flags_ok flags ->
  isset flags PPROT_DESCEND = false ->
  priv_check td PRIV_VM_MADV_PROTECT = 0 ->
  k_procs s !! p = Some pr ->
  (eligible td p pr ->
   exists pr',
     protect_set fuel td p flags s =
       Ok (0, with_k_procs (<[p := pr']> (k_procs s)) s) /\
     erase_flags pr' = erase_flags pr /\
     only_bit 20 (p_flag pr) (p_flag pr') /\
     Z.testbit (p_flag pr') 20 = isset flags PPROT_SET /\
     only_bit 0 (p_flag2 pr) (p_flag2 pr') /\
     Z.testbit (p_flag2 pr') 0 =
       (if isset flags PPROT_SET
        then isset flags PPROT_INHERIT || Z.testbit (p_flag2 pr) 0
        else false)) /\
  (~ eligible td p pr -> protect_set fuel td p flags s = Ok (EPERM, s)).
Proof.
  intros Hok Hd Hpriv Hp.
  rewrite (protect_set_checked fuel td p flags Hok Hpriv), Hd.
  unfold kbind. rewrite (protect_setchild_run td p flags s pr Hp).
  split; intros He.
  - exists (protect_record td flags p pr).
    destruct (protect_result_eligible td p pr) as [[-> _] | [_ ?]]; [|done].
    split; [done|]. apply protect_record_bits, He.
  - destruct (protect_result_eligible td p pr) as [[_ ?] | [-> _]]; [done|].
    rewrite protect_record_skipped by done.
    simpl. unfold kret. now rewrite insert_id, with_k_procs_id.
Qed.


(** ** Attribute propagation: the whole subtree *)

Lemma protect_visits_lookup td flags l : forall acc q,
  k_procs (fst (protect_visits td flags l acc)) !! q =
  if decide (q ∈ l)
  then protect_record td flags q <$> k_procs (fst acc) !! q
  else k_procs (fst acc) !! q.
Proof.
  induction l as [|p l IH]; intros acc q.
  { rewrite decide_False; [done|]. apply not_elem_of_nil. }
  change (protect_visits td flags (p :: l) acc)
    with (protect_visits td flags l (protect_visit td flags acc p)).
  rewrite IH, protect_visit_lookup.
  destruct (decide (q = p)) as [-> | Hne].
  - rewrite (decide_True (P := p ∈ p :: l)) by left.
    destruct (decide (p ∈ l)); [|done].
    destruct (k_procs (fst acc) !! p); simpl; [|done].
    now rewrite protect_record_idem.
  - destruct (decide (q ∈ l)) as [Hin | Hnin].
    + rewrite decide_True; [done|]. now right.
    + rewrite decide_False; [done|]. intros [? | ?]%elem_of_cons; done.
Qed.

Lemma fold_lor_zero {A} (f : A -> Z) l : forall a,
  fold_left (fun a q => Z.lor a (f q)) l a = 0 <->
  a = 0 /\ forall q, q ∈ l -> f q = 0.
Proof.
  induction l as [|p l IH]; intros a; simpl.
  - split; [|tauto]. intros ->. split; [done|]. intros q Hq. inversion Hq.
  - rewrite IH, Z.lor_eq_0_iff. split.
    + intros [[-> Hp] Hl]. split; [done|].
      intros q [-> | Hq]%elem_of_cons; auto.
    + intros [-> Hl]. repeat split; [apply Hl; left|].
      intros q Hq. apply Hl. now right.
Qed.

Lemma protect_set_descend_run fuel td top flags s tr kids :
  protect_flags_ok flags ->
  isset flags PPROT_DESCEND = true ->
  priv_check td PRIV_VM_MADV_PROTECT = 0 ->
  k_procs s !! top = Some tr ->
  forest_at (k_procs s) top (p_children tr) kids ->
  (2 * length (top :: forest_nodes kids) <= fuel)%nat ->
  protect_set fuel td top flags s =
    Ok (if snd (protect_visits td flags (top :: forest_nodes kids) (s, 0)) =? 0
        then EPERM else 0,
        fst (protect_visits td flags (top :: forest_nodes kids) (s, 0))).
Proof.
  intros Hok Hd Hpriv Ht Hf Hfuel.
  rewrite (protect_set_checked fuel td top flags Hok Hpriv), Hd.
  unfold kbind.
  rewrite (protect_setchildren_run fuel td top flags s tr kids Ht Hf Hfuel).
  now destruct (_ =? 0).
Qed.

Lemma protect_visits_memory td flags l : forall a,
  k_umem (fst (protect_visits td flags l a)) = k_umem (fst a) /\
  k_sigq (fst (protect_visits td flags l a)) = k_sigq (fst a).
Proof.
  induction l as [|p l IH]; intros a; [done|].
  change (protect_visits td flags (p :: l) a)
    with (protect_visits td flags l (protect_visit td flags a p)).
  destruct (IH (protect_visit td flags a p)) as [-> ->].
  unfold protect_visit. now destruct (k_procs (fst a) !! p).
Qed.

(** [protect_set] with [PPROT_DESCEND] leaves every process outside the
    subtree of the target, every system process and every process the
    caller may not schedule exactly as it was, and changes nothing of any
    process but bit [P_PROTECTED] of [p_flag] and bit
    [P2_INHERIT_PROTECTED] of [p_flag2]. *)
Theorem protect_set_descend_frame td top flags s tr kids :
  protect_flags_ok flags ->
  isset flags PPROT_DESCEND = true ->
  priv_check td PRIV_VM_MADV_PROTECT = 0 ->
  k_procs s !! top = Some tr ->
  forest_at (k_procs s) top (p_children tr) kids ->
  exists error s',
    (forall fuel, (2 * length (top :: forest_nodes kids) <= fuel)%nat ->
       protect_set fuel td top flags s = Ok (error, s')) /\
    (forall q qr, k_procs s !! q = Some qr ->
       q ∉ top :: forest_nodes kids \/ ~ eligible td q qr ->
       k_procs s' !! q = Some qr) /\
    (forall q qr, k_procs s !! q = Some qr ->
       exists qr', k_procs s' !! q = Some qr' /\
         erase_flags qr' = erase_flags qr /\
         only_bit 20 (p_flag qr) (p_flag qr') /\
         only_bit 0 (p_flag2 qr) (p_flag2 qr')) /\
    k_umem s' = k_umem s /\ k_sigq s' = k_sigq s.
Proof.
  intros Hok Hd Hpriv Ht Hf.
  set (nodes := top :: forest_nodes kids).
  set (acc := protect_visits td flags nodes (s, 0)).
  exists (if snd acc =? 0 then EPERM else 0), (fst acc).
  split; [|split; [|split]].
  - intros fuel Hfuel. now apply protect_set_descend_run with tr.
  - intros q qr Hq Hout. unfold acc. rewrite protect_visits_lookup. simpl fst.
    destruct (decide (q ∈ nodes)) as [Hin | Hnin]; [|done].
    rewrite Hq. simpl. destruct Hout as [? | Hne]; [done|].
    now rewrite protect_record_skipped.
  - intros q qr Hq. unfold acc. rewrite protect_visits_lookup. simpl fst.
    rewrite Hq. destruct (decide (q ∈ nodes)).
    + eexists. split; [done|]. apply protect_record_any_bits.
    + exists qr. unfold only_bit. done.
  - apply (protect_visits_memory td flags nodes (s, 0)).
Qed.

(** After a [protect_set] with [PPROT_DESCEND], every eligible process of
    the subtree has bit [P_PROTECTED] as the operation says (set by
    [PPROT_SET], clear by [PPROT_CLEAR]) and bit [P2_INHERIT_PROTECTED]
    set by [PPROT_SET] with [PPROT_INHERIT], as it was by [PPROT_SET]
    alone, and clear by [PPROT_CLEAR] with or without [PPROT_INHERIT]. *)
Theorem protect_set_descend_effect td top flags s tr kids :
  protect_flags_ok flags ->
  isset flags PPROT_DESCEND = true ->
  priv_check td PRIV_VM_MADV_PROTECT = 0 ->
  k_procs s !! top = Some tr ->
  forest_at (k_procs s) top (p_children tr) kids ->
  exists error s',
    (forall fuel, (2 * length (top :: forest_nodes kids) <= fuel)%nat ->
       protect_set fuel td top flags s = Ok (error, s')) /\
    (forall q qr, q ∈ top :: forest_nodes kids ->
       k_procs s !! q = Some qr -> eligible td q qr ->
       exists qr', k_procs s' !! q = Some qr' /\
         Z.testbit (p_flag qr') 20 = isset flags PPROT_SET /\
         Z.testbit (p_flag2 qr') 0 =
           (if isset flags PPROT_SET
            then isset flags PPROT_INHERIT || Z.testbit (p_flag2 qr) 0
            else false)).
Proof.
  intros Hok Hd Hpriv Ht Hf.
  set (nodes := top :: forest_nodes kids).
  set (acc := protect_visits td flags nodes (s, 0)).
  exists (if snd acc =? 0 then EPERM else 0), (fst acc). split.
  - intros fuel Hfuel. now apply protect_set_descend_run with tr.
  - intros q qr Hin Hq He. unfold acc. rewrite protect_visits_lookup.
    simpl fst. rewrite decide_True, Hq by done. eexists. split; [done|].
    destruct (protect_record_bits td flags q qr He) as (_ & _ & ? & _ & ?).
    done.
Qed.

(** A [protect_set] with [PPROT_DESCEND] returns 0 when some process of
    the subtree is eligible and EPERM when none is. *)
Theorem protect_set_descend_result td top flags s tr kids :
  protect_flags_ok flags ->
  isset flags PPROT_DESCEND = true ->
  priv_check td PRIV_VM_MADV_PROTECT = 0 ->
  k_procs s !! top = Some tr ->
  forest_at (k_procs s) top (p_children tr) kids ->
  exists error s',
    (forall fuel, (2 * length (top :: forest_nodes kids) <= fuel)%nat ->
       protect_set fuel td top flags s = Ok (error, s')) /\
    ((exists q qr, q ∈ top :: forest_nodes kids /\
        k_procs s !! q = Some qr /\ eligible td q qr) -> error = 0) /\
    ((forall q qr, q ∈ top :: forest_nodes kids ->
        k_procs s !! q = Some qr -> ~ eligible td q qr) ->
     error = EPERM /\ s' = s).
Proof.
  intros Hok Hd Hpriv Ht Hf.
  set (nodes := top :: forest_nodes kids).
  set (acc := protect_visits td flags nodes (s, 0)).
  assert (Hret : snd acc =
            fold_left (fun a q => Z.lor a (result_of td s q)) nodes 0).
  { unfold acc. now rewrite (protect_visits_ret td flags s nodes (s, 0)). }
  exists (if snd acc =? 0 then EPERM else 0), (fst acc).
  split; [|split].
  - intros fuel Hfuel. now apply protect_set_descend_run with tr.
  - intros (q & qr & Hin & Hq & He).
    destruct (snd acc =? 0) eqn:E; [|done]. exfalso.
    apply Z.eqb_eq in E. rewrite Hret in E.
    apply fold_lor_zero in E as [_ E]. specialize (E q Hin).
    unfold result_of in E. rewrite Hq in E.
    destruct (protect_result_eligible td q qr) as [[? _] | [_ ?]]; [lia|done].
  - intros Hnone. split.
    + replace (snd acc =? 0) with true; [done|]. symmetry. apply Z.eqb_eq.
      rewrite Hret. apply fold_lor_zero. split; [done|].
      intros q Hin. unfold result_of.
      destruct (k_procs s !! q) as [qr|] eqn:Hq; [|done].
      destruct (protect_result_eligible td q qr) as [[_ ?] | [? _]]; [|done].
      now destruct (Hnone q qr).
    + unfold acc. apply protect_visits_fixed. intros q r Hin Hq.
      apply protect_record_skipped. eauto.
Qed.

(** ** Attribute propagation: set, then clear *)

Lemma set_clear_bit k x :
  0 <= k -> Z.testbit x k = false ->
  Z.land (Z.lor x (2 ^ k)) (Z.lnot (2 ^ k)) = x.
Proof.
  intros Hk Hx. apply Z.bits_inj'. intros i Hi.
  destruct (Z.eq_dec i k) as [-> | Hne].
  - now rewrite clear_bit_clear.
  - now rewrite clear_bit_others, lor_bit_others.
Qed.

Lemma clear_unset_bit k x :
  0 <= k -> Z.testbit x k = false -> Z.land x (Z.lnot (2 ^ k)) = x.
Proof.
  intros Hk Hx. apply Z.bits_inj'. intros i Hi.
  destruct (Z.eq_dec i k) as [-> | Hne].
  - now rewrite clear_bit_clear.
  - now rewrite clear_bit_others.
Qed.

(** On an eligible process that has neither [P_PROTECTED] nor
    [P2_INHERIT_PROTECTED] set, a [protect_set] with [PPROT_SET] (with or
    without [PPROT_INHERIT]) followed by one with [PPROT_CLEAR] returns 0
    twice and gives back the state it started from. *)
Theorem protect_set_then_clear fuel td p fset fclear s pr :
  protect_flags_ok fset -> PPROT_OP fset = PPROT_SET ->
  isset fset PPROT_DESCEND = false ->
  protect_flags_ok fclear -> PPROT_OP fclear = PPROT_CLEAR ->
  isset fclear PPROT_DESCEND = false ->
  priv_check td PRIV_VM_MADV_PROTECT = 0 ->
  k_procs s !! p = Some pr -> eligible td p pr ->
  isset (p_flag pr) P_PROTECTED = false ->
  isset (p_flag2 pr) P2_INHERIT_PROTECTED = false ->
  exists s1,
    protect_set fuel td p fset s = Ok (0, s1) /\
    protect_set fuel td p fclear s1 = Ok (0, s).
Proof.
  intros Hoks Hset Hds Hokc Hclear Hdc Hpriv Hp He Hprot Hinh.
  apply protect_op_set in Hset. apply protect_op_clear in Hclear.
  rewrite isset_P_PROTECTED in Hprot. rewrite isset_P2_INHERIT in Hinh.
  set (pr1 := protect_record td fset p pr).
  assert (He1 : eligible td p pr1).
  { destruct He as [Hsys Hsched]. split; [|done].
    unfold pr1. now rewrite protect_record_system. }
  assert (Hback : protect_record td fclear p pr1 = pr).
  { unfold pr1, protect_record.
    destruct (eligible_dec td p pr) as [[Hskip _] | [_ ?]]; [|done].
    rewrite Hskip, Hset, Hclear.
    change P_PROTECTED with (2 ^ 20).
    change P2_INHERIT_PROTECTED with (2 ^ 0).
    destruct (isset fset PPROT_INHERIT); simpl;
      rewrite ?isset_P_SYSTEM, ?lor_bit_others by lia;
      rewrite <- isset_P_SYSTEM, Hskip;
      destruct pr; unfold with_p_flag, with_p_flag2; simpl in *; f_equal;
      auto using set_clear_bit, clear_unset_bit with zarith.
    all: first [apply set_clear_bit | apply clear_unset_bit]; (lia || done). }
  exists (with_k_procs (<[p := pr1]> (k_procs s)) s).
  rewrite (protect_set_checked fuel td p fset Hoks Hpriv), Hds.
  rewrite (protect_set_checked fuel td p fclear Hokc Hpriv), Hdc.
  unfold kbind. rewrite (protect_setchild_run td p fset s pr Hp).
  fold pr1.
  rewrite (protect_setchild_run td p fclear _ pr1)
    by (simpl; apply lookup_insert_eq).
  destruct (protect_result_eligible td p pr) as [[-> _] | [_ ?]]; [|done].
  destruct (protect_result_eligible td p pr1) as [[-> _] | [_ ?]]; [|done].
  split; [done|]. simpl. unfold kret, with_k_procs. simpl. rewrite Hback.
  rewrite insert_insert_eq, insert_id by done. now destruct s.
Qed.

(** ** Trace-visibility control: the other requests *)

Lemma isset_P_TRACED x : isset x P_TRACED = Z.testbit x 11.
Proof. apply (isset_bit x 11). lia. Qed.

Lemma not_traced_flag pr : ~ traced pr -> isset (p_flag pr) P_TRACED = false.
Proof.
  intros H. destruct (isset (p_flag pr) P_TRACED) eqn:E; [|done].
  exfalso. apply H. now left.
Qed.

Lemma notrace_mask_bits x i :
  Z.testbit (Z.land x (Z.lnot (Z.lor P2_NOTRACE P2_NOTRACE_EXEC))) i =
  if decide (i = 1 \/ i = 2) then false else Z.testbit x i.
Proof.
  destruct (Z.neg_nonneg_cases i) as [Hn | Hn].
  { rewrite !Z.testbit_neg_r by lia. now destruct (decide _). }
  rewrite Z.land_spec, Z.lnot_spec, Z.lor_spec by lia.
  change P2_NOTRACE with (2 ^ 1). change P2_NOTRACE_EXEC with (2 ^ 2).
  destruct (decide (i = 1 \/ i = 2)) as [[-> | ->] | Hne].
  - rewrite Z.pow2_bits_true by lia. apply andb_false_r.
  - rewrite (Z.pow2_bits_true 2) by lia. rewrite orb_true_r. apply andb_false_r.
  - rewrite !Z.pow2_bits_false by lia. apply andb_true_r.
Qed.

Lemma trace_ctl_enable_run td p s pr :
  k_procs s !! p = Some pr -> ~ traced pr ->
  trace_ctl td p PROC_TRACE_CTL_ENABLE s =
    if td_proc td =? p then
      Ok (0, with_k_procs (<[p := with_p_flag2
            (Z.land (p_flag2 pr) (Z.lnot (Z.lor P2_NOTRACE P2_NOTRACE_EXEC)))
            pr]> (k_procs s)) s)
    else Ok (EPERM, s).
Proof.
  intros Hp Ht. unfold trace_ctl, kbind. rewrite (deref_at _ _ _ Hp).
  rewrite (not_traced_busy _ Ht). simpl.
  destruct (td_proc td =? p); simpl; [|done].
  now rewrite (update_at _ _ _ _ Hp).
Qed.

Lemma trace_ctl_disable_run td p s pr :
  k_procs s !! p = Some pr -> ~ traced pr ->
  isset (p_flag2 pr) P2_NOTRACE_EXEC = false ->
  trace_ctl td p PROC_TRACE_CTL_DISABLE s =
    Ok (0, with_k_procs (<[p := with_p_flag2
          (Z.lor (p_flag2 pr) P2_NOTRACE) pr]> (k_procs s)) s).
Proof.
  intros Hp Ht Hx. unfold trace_ctl, kbind. rewrite (deref_at _ _ _ Hp).
  rewrite (not_traced_busy _ Ht), Hx. simpl.
  now rewrite (update_at _ _ _ _ Hp).
Qed.

Lemma trace_status_run td p s pr :
  k_procs s !! p = Some pr ->
  isset (p_flag2 pr) P2_NOTRACE = false ->
  isset (p_flag pr) P_TRACED = false ->
  trace_status td p s = Ok ((0, 0), s).
Proof.
  intros Hp Hn Ht. unfold trace_status, kbind. rewrite (deref_at _ _ _ Hp).
  now rewrite Hn, Ht.
Qed.

(** [trace_ctl] with [PROC_TRACE_CTL_ENABLE] on a process that is not
    traced: called by the process itself it returns 0 and clears
    [P2_NOTRACE] and [P2_NOTRACE_EXEC] and no other bit, after which
    [trace_status] stores 0; called by another process it returns EPERM
    and changes nothing. *)
Theorem trace_ctl_enable_by_self td p s pr :
  k_procs s !! p = Some pr -> ~ traced pr ->
  (td_proc td = p ->
   exists v,
     let s' := with_k_procs (<[p := with_p_flag2 v pr]> (k_procs s)) s in
     trace_ctl td p PROC_TRACE_CTL_ENABLE s = Ok (0, s') /\
     isset v P2_NOTRACE = false /\ isset v P2_NOTRACE_EXEC = false /\
     (forall i, i <> 1 -> i <> 2 -> Z.testbit v i = Z.testbit (p_flag2 pr) i) /\
     trace_status td p s' = Ok ((0, 0), s')) /\
  (td_proc td <> p ->
   trace_ctl td p PROC_TRACE_CTL_ENABLE s = Ok (EPERM, s)).
Proof.
  intros Hp Ht. rewrite (trace_ctl_enable_run td p s pr Hp Ht). split.
  - intros Hself. apply Z.eqb_eq in Hself. rewrite Hself.
    eexists. split; [reflexivity|].
    assert (H1 : isset (Z.land (p_flag2 pr)
                  (Z.lnot (Z.lor P2_NOTRACE P2_NOTRACE_EXEC))) P2_NOTRACE = false).
    { rewrite testbit_NOTRACE, notrace_mask_bits.
      rewrite decide_True; [done|]. now left. }
    split; [exact H1|]. split; [|split].
    + rewrite testbit_NOTRACE_EXEC, notrace_mask_bits.
      rewrite decide_True; [done|]. now right.
    + intros i H1' H2'. rewrite notrace_mask_bits.
      rewrite decide_False; [done|]. intros [? | ?]; done.
    + eapply trace_status_run; [simpl; apply lookup_insert_eq|exact H1|].
      simpl. now apply not_traced_flag.
  - intros Hother. apply Z.eqb_neq in Hother. now rewrite Hother.
Qed.

(** [trace_ctl] with [PROC_TRACE_CTL_DISABLE] on a process that is not
    traced and has [P2_NOTRACE_EXEC] clear returns 0 for every caller,
    sets [P2_NOTRACE] and changes no other bit; [trace_status] then
    stores -1. *)
Theorem trace_ctl_disable_plain td p s pr :
  k_procs s !! p = Some pr -> ~ traced pr ->
  isset (p_flag2 pr) P2_NOTRACE_EXEC = false ->
  exists v,
    let s' := with_k_procs (<[p := with_p_flag2 v pr]> (k_procs s)) s in
    trace_ctl td p PROC_TRACE_CTL_DISABLE s = Ok (0, s') /\
    isset v P2_NOTRACE = true /\
    (forall i, i <> 1 -> Z.testbit v i = Z.testbit (p_flag2 pr) i) /\
    trace_status td p s' = Ok ((0, -1), s').
Proof.
  intros Hp Ht Hx. rewrite (trace_ctl_disable_run td p s pr Hp Ht Hx).
  eexists. split; [reflexivity|].
  assert (H1 : isset (Z.lor (p_flag2 pr) P2_NOTRACE) P2_NOTRACE = true).
  { rewrite testbit_NOTRACE. change P2_NOTRACE with (2 ^ 1).
    apply lor_bit_set. lia. }
  split; [exact H1|]. split.
  - intros i Hi. change P2_NOTRACE with (2 ^ 1). apply lor_bit_others; lia.
  - eapply trace_status_notrace; [simpl; apply lookup_insert_eq|exact H1|].
    simpl. now apply not_traced_flag.
Qed.

(** A [trace_ctl] that returns an error has changed nothing, and the
    error is EBUSY, EPERM or EINVAL. *)
Theorem trace_ctl_error_unchanged td p state s e s' :
  trace_ctl td p state s = Ok (e, s') -> e <> 0 ->
  s' = s /\ (e = EBUSY \/ e = EPERM \/ e = EINVAL).
Proof.
  unfold trace_ctl. intros H He. repeat kstep; auto;
    match goal with
    | H : update _ _ _ = Ok _ |- _ => done
    end.
Qed.

(** Whatever the request, [trace_ctl] changes nothing but bits
    [P2_NOTRACE] and [P2_NOTRACE_EXEC] of [p_flag2] of its target. *)
Theorem trace_ctl_frame td p state s e s' :
  trace_ctl td p state s = Ok (e, s') ->
  k_umem s' = k_umem s /\ k_sigq s' = k_sigq s /\
  forall q qr, k_procs s !! q = Some qr ->
    exists qr', k_procs s' !! q = Some qr' /\
      (q <> p -> qr' = qr) /\
      p_flag qr' = p_flag qr /\ erase_flags qr' = erase_flags qr /\
      forall i, i <> 1 -> i <> 2 ->
        Z.testbit (p_flag2 qr') i = Z.testbit (p_flag2 qr) i.
Proof.
  intros H.
  assert (Hcases : s' = s \/
    exists pr v, k_procs s !! p = Some pr /\
      s' = with_k_procs (<[p := with_p_flag2 v pr]> (k_procs s)) s /\
      forall i, i <> 1 -> i <> 2 -> Z.testbit v i = Z.testbit (p_flag2 pr) i).
  { revert H. unfold trace_ctl. intros H. repeat kstep; auto; right;
      match goal with
      | H : update _ _ _ = Ok _ |- _ =>
        apply update_Ok in H as (pr0 & Hp0 & ->)
      end;
      match goal with
      | H1 : k_procs _ !! p = Some ?a, H2 : k_procs _ !! p = Some ?b |- _ =>
        assert (a = b) by congruence; subst
      end;
      eexists _, _; (split; [eassumption|]); (split; [reflexivity|]);
      intros i Hi1 Hi2.
    - rewrite notrace_mask_bits. rewrite decide_False; [done|].
      intros [? | ?]; done.
    - change P2_NOTRACE_EXEC with (2 ^ 2). change P2_NOTRACE with (2 ^ 1).
      rewrite Z.lor_assoc, !lor_bit_others by lia. done.
    - rewrite clear_NOTRACE_EXEC_bits. now destruct (Z.eq_dec i 2).
    - change P2_NOTRACE with (2 ^ 1). apply lor_bit_others; lia. }
  destruct Hcases as [-> | (pr & v & Hp & -> & Hbits)].
  { split; [done|]. split; [done|]. intros q qr Hq. exists qr. done. }
  split; [done|]. split; [done|]. intros q qr Hq. simpl.
  rewrite lookup_insert. destruct (decide (p = q)) as [<- | Hne].
  - assert (qr = pr) by congruence. subst qr.
    eexists. split; [done|]. split; [done|]. split; [done|]. split; [done|].
    exact Hbits.
  - exists qr. split; [done|]. repeat split; done.
Qed.

Lemma restore_notrace_bits x m :
  m = P2_NOTRACE \/ m = Z.lor P2_NOTRACE_EXEC P2_NOTRACE ->
  Z.testbit x 1 = false -> Z.testbit x 2 = false ->
  Z.land (Z.lor x m) (Z.lnot (Z.lor P2_NOTRACE P2_NOTRACE_EXEC)) = x.
Proof.
  intros Hm H1 H2. apply Z.bits_inj'. intros i Hi. rewrite notrace_mask_bits.
  destruct (decide (i = 1 \/ i = 2)) as [[-> | ->] | Hne]; [done|done|].
  rewrite Z.lor_spec.
  change P2_NOTRACE_EXEC with (2 ^ 2) in Hm. change P2_NOTRACE with (2 ^ 1) in Hm.
  destruct Hm as [-> | ->];
    rewrite ?Z.lor_spec, !Z.pow2_bits_false by lia; now rewrite ?orb_false_r.
Qed.

(** On a process that is not traced and has neither [P2_NOTRACE] nor
    [P2_NOTRACE_EXEC] set, [PROC_TRACE_CTL_DISABLE] or
    [PROC_TRACE_CTL_DISABLE_EXEC] followed by [PROC_TRACE_CTL_ENABLE], both
    by the process itself, return 0 and give back the state they started
    from. *)
Theorem trace_ctl_disable_then_enable td p state s pr :
  state = PROC_TRACE_CTL_DISABLE \/ state = PROC_TRACE_CTL_DISABLE_EXEC ->
  k_procs s !! p = Some pr -> ~ traced pr -> td_proc td = p ->
  isset (p_flag2 pr) P2_NOTRACE = false ->
  isset (p_flag2 pr) P2_NOTRACE_EXEC = false ->
  exists s1,
    trace_ctl td p state s = Ok (0, s1) /\
    trace_ctl td p PROC_TRACE_CTL_ENABLE s1 = Ok (0, s).
Proof.
  intros Hstate Hp Ht Hself Hn Hx.
  assert (Hrun : exists m,
    (m = P2_NOTRACE \/ m = Z.lor P2_NOTRACE_EXEC P2_NOTRACE) /\
    trace_ctl td p state s =
      Ok (0, with_k_procs (<[p := with_p_flag2 (Z.lor (p_flag2 pr) m) pr]>
                             (k_procs s)) s)).
  { destruct Hstate as [-> | ->].
    - exists P2_NOTRACE. split; [now left|]. now apply trace_ctl_disable_run.
    - exists (Z.lor P2_NOTRACE_EXEC P2_NOTRACE). split; [now right|].
      now apply trace_ctl_disable_exec_ok. }
  destruct Hrun as (m & Hm & Hrun). eexists. split; [exact Hrun|].
  erewrite trace_ctl_enable_run; [|simpl; apply lookup_insert_eq|].
  - apply Z.eqb_eq in Hself. rewrite Hself. simpl.
    rewrite testbit_NOTRACE in Hn. rewrite testbit_NOTRACE_EXEC in Hx.
    rewrite (restore_notrace_bits _ _ Hm Hn Hx).
    unfold with_k_procs. simpl. rewrite insert_insert_eq.
    replace (with_p_flag2 (p_flag2 pr) (with_p_flag2 (Z.lor (p_flag2 pr) m) pr))
      with pr by now destruct pr.
    rewrite insert_id by done. now destruct s.
  - intros [H | H]; simpl in H; apply Ht; [now left|now right].
Qed.

(** [trace_status] on a process that is not both hidden from tracing and
    traced, and whose parent exists when it is traced, returns 0 and
    changes nothing; the value it stores is -1 when [P2_NOTRACE] is set,
    the pid of the parent when the process is traced, and 0 otherwise. *)
Theorem trace_status_value td p s pr :
  k_procs s !! p = Some pr ->
  (isset (p_flag2 pr) P2_NOTRACE = true ->
   isset (p_flag pr) P_TRACED = false) ->
  (isset (p_flag pr) P_TRACED = true ->
   exists pp ppr, p_pptr pr = Some pp /\ k_procs s !! pp = Some ppr) ->
  exists v,
    trace_status td p s = Ok ((0, v), s) /\
    (isset (p_flag2 pr) P2_NOTRACE = true -> v = -1) /\
    (isset (p_flag2 pr) P2_NOTRACE = false ->
     isset (p_flag pr) P_TRACED = true ->
     exists pp ppr,
       p_pptr pr = Some pp /\ k_procs s !! pp = Some ppr /\ v = p_pid ppr) /\
    (isset (p_flag2 pr) P2_NOTRACE = false ->
     isset (p_flag pr) P_TRACED = false -> v = 0).
Proof.
  intros Hp Hinv Hparent. unfold trace_status, kbind.
  rewrite (deref_at _ _ _ Hp).
  destruct (isset (p_flag2 pr) P2_NOTRACE).
  { rewrite (Hinv eq_refl). simpl. exists (-1). repeat split; done. }
  destruct (isset (p_flag pr) P_TRACED).
  - destruct (Hparent eq_refl) as (pp & ppr & Hpp & Hppr).
    rewrite Hpp, (deref_at _ _ _ Hppr). exists (p_pid ppr).
    split; [done|]. split; [done|]. split; [|done].
    intros _ _. now exists pp, ppr.
  - exists 0. repeat split; done.
Qed.

(** ** Reaper lifecycle and introspection: what the calls do *)

Lemma isset_P_TREE_REAPER x :
  negb (Z.land x P_TREE_REAPER =? 0) = Z.testbit x 2.
Proof. apply (isset_bit x 2). lia. Qed.

Lemma reaper_bit_set x : Z.land (Z.lor x P_TREE_REAPER) P_TREE_REAPER <> 0.
Proof.
  intros H. apply Z.eqb_eq in H.
  assert (H' : negb (Z.land (Z.lor x P_TREE_REAPER) P_TREE_REAPER =? 0) = true).
  { rewrite isset_P_TREE_REAPER. change P_TREE_REAPER with (2 ^ 2).
    apply lor_bit_set. lia. }
  now rewrite H in H'.
Qed.

(** The caller that is not yet a reaper acquires the status: 0 is
    returned, [P_TREE_REAPER] is set in its [p_treeflag] and nothing else
    changes, neither its other bits nor its reaper and reap list nor any
    other process; acquiring again returns EBUSY and changes nothing. *)
Theorem reap_acquire_once td p s pr :
  k_procs s !! p = Some pr -> p = td_proc td ->
  Z.land (p_treeflag pr) P_TREE_REAPER = 0 ->
  exists v,
    let s' := with_k_procs (<[p := with_p_treeflag v pr]> (k_procs s)) s in
    reap_acquire td p s = Ok (0, s') /\
    Z.testbit v 2 = true /\
    (forall i, i <> 2 -> Z.testbit v i = Z.testbit (p_treeflag pr) i) /\
    reap_acquire td p s' = Ok (EBUSY, s').
Proof.
  intros Hp Hself Hbit. exists (Z.lor (p_treeflag pr) P_TREE_REAPER). cbv zeta.
  assert (Hrun : forall s0 pr0, k_procs s0 !! p = Some pr0 ->
    reap_acquire td p s0 =
      if negb (Z.land (p_treeflag pr0) P_TREE_REAPER =? 0) then Ok (EBUSY, s0)
      else Ok (0, with_k_procs (<[p := with_p_treeflag
                 (Z.lor (p_treeflag pr0) P_TREE_REAPER) pr0]> (k_procs s0)) s0)).
  { intros s0 pr0 Hp0. unfold reap_acquire, curproc. rewrite <- Hself.
    rewrite Z.eqb_refl. simpl. unfold kbind. rewrite (deref_at _ _ _ Hp0).
    destruct (negb _); [done|]. now rewrite (update_at _ _ _ _ Hp0). }
  split; [|split; [|split]].
  - rewrite (Hrun s pr Hp), Hbit. reflexivity.
  - change P_TREE_REAPER with (2 ^ 2). apply lor_bit_set. lia.
  - intros i Hi. change P_TREE_REAPER with (2 ^ 2). apply lor_bit_others; lia.
  - erewrite Hrun; [|simpl; apply lookup_insert_eq]. simpl.
    destruct (Z.land _ _ =? 0) eqn:E; [|done].
    apply Z.eqb_eq in E. now apply reaper_bit_set in E.
Qed.

(** Whenever [reap_acquire] returns, it returns 0 exactly when the target
    is the caller and was not a reaper; a call that returns an error has
    changed nothing. *)
Theorem reap_acquire_result td p s e s' :
  reap_acquire td p s = Ok (e, s') ->
  (e = 0 <->
   p = td_proc td /\
   exists pr, k_procs s !! p = Some pr /\
     Z.land (p_treeflag pr) P_TREE_REAPER = 0) /\
  (e <> 0 -> s' = s).
Proof.
  unfold reap_acquire, curproc. intros H.
  destruct (p =? td_proc td) eqn:Ep; simpl in H.
  - apply Z.eqb_eq in Ep. apply kbind_Ok in H as (pr & s1 & Hd & H).
    apply deref_Ok in Hd as [Hp ->].
    destruct (Z.land (p_treeflag pr) P_TREE_REAPER =? 0) eqn:Eb; simpl in H.
    + apply Z.eqb_eq in Eb. apply kbind_Ok in H as (u & s2 & Hu & H).
      injection H as <- <-. split; [|done]. split; [|done].
      intros _. split; [done|]. now exists pr.
    + apply Z.eqb_neq in Eb. injection H as <- <-. split; [|done].
      split; [done|]. intros (_ & pr' & Hp' & Hb'). congruence.
  - apply Z.eqb_neq in Ep. injection H as <- <-. split; [|done].
    split; [done|]. intros [? _]. done.
Qed.

(** Whenever [reap_release] returns, it returns 0 exactly when the target
    is the caller, is not [initproc] and is a reaper, and the state is then
    what [reaper_abandon_children] makes of it; a call that returns an
    error has changed nothing. *)
Theorem reap_release_result td p s e s' :
  reap_release td p s = Ok (e, s') ->
  (e = 0 <->
   p = td_proc td /\ p <> initproc /\
   exists pr, k_procs s !! p = Some pr /\
     Z.land (p_treeflag pr) P_TREE_REAPER <> 0) /\
  (e = 0 -> s' = reaper_abandon_children p false s) /\
  (e <> 0 -> s' = s).
Proof.
  unfold reap_release, curproc. intros H.
  destruct (p =? td_proc td) eqn:Ep; simpl in H.
  2: { apply Z.eqb_neq in Ep. injection H as <- <-.
       split; [|done]. split; [done|]. intros [? _]. done. }
  apply Z.eqb_eq in Ep.
  destruct (p =? initproc) eqn:Ei.
  { apply Z.eqb_eq in Ei. injection H as <- <-.
    split; [|done]. split; [done|]. intros (_ & ? & _). done. }
  apply Z.eqb_neq in Ei.
  apply kbind_Ok in H as (pr & s1 & Hd & H). apply deref_Ok in Hd as [Hp ->].
  destruct (Z.land (p_treeflag pr) P_TREE_REAPER =? 0) eqn:Eb.
  - apply Z.eqb_eq in Eb. injection H as <- <-. split; [|done].
    split; [done|]. intros (_ & _ & pr' & Hp' & Hb'). congruence.
  - apply Z.eqb_neq in Eb. unfold kbind, kmodify, kret in H.
    injection H as <- <-. split; [|done]. split; [|done].
    intros _. split; [done|]. split; [done|]. now exists pr.
Qed.

(** The children and descendants that the loop of [reap_status] counts. *)
Lemma reap_status_foreach reap
    (body : procp -> Z * Z -> kern (bool * (Z * Z))) l :
  (forall p2 c d st,
     body p2 (c, d) st =
       Ok ((false, (if decide (proc_realparent st p2 = Some reap)
                    then u_int (c + 1) else c, u_int (d + 1))), st)) ->
  forall c d st,
  foreach_list l body (c, d) st =
  Ok ((Nat.iter (length (List.filter
                  (fun p2 => bool_decide (proc_realparent st p2 = Some reap)) l))
         (fun k => u_int (k + 1)) c,
       Nat.iter (length l) (fun k => u_int (k + 1)) d), st).
Proof.
  intros Hbody. induction l as [|q l IH]; intros c d st; [done|].
  rewrite foreach_list_cons, Hbody.
  rewrite IH. simpl List.filter. simpl length.
  rewrite Nat.iter_succ_r.
  destruct (decide (proc_realparent st q = Some reap)) as [Hq | Hq].
  - rewrite bool_decide_eq_true_2 by done. simpl length.
    now rewrite Nat.iter_succ_r.
  - now rewrite bool_decide_eq_false_2 by done.
Qed.

(** [reap_status] on a reaper whose reap list and list of children are
    both empty or both not: it returns 0 and changes nothing; the flags
    say whether the target is itself the reaper and whether the reaper is
    [initproc], [rs_reaper] is the pid of the reaper, [rs_descendants] the
    length of its reap list, [rs_children] the number of processes on the
    list whose real parent is the reaper, and [rs_pid] the pid of the
    reaper's first child, or -1 when there is none. *)
Theorem reap_status_counts fuel td p s pr rr l :
  k_procs s !! p = Some pr ->
  let reap := reaper_of p pr in
  k_procs s !! reap = Some rr ->
  chain (k_procs s) p_reapsibling (p_reaplist rr) l ->
  (length l <= fuel)%nat ->
  (p_reaplist rr = None <-> p_children rr = None) ->
  (forall first, p_children rr = Some first -> is_Some (k_procs s !! first)) ->
  exists rs,
    reap_status fuel td p s = Ok ((0, rs), s) /\
    rs_descendants rs = u_int (Z.of_nat (length l)) /\
    rs_children rs =
      u_int (Z.of_nat (length (List.filter
        (fun p2 => bool_decide (proc_realparent s p2 = Some reap)) l))) /\
    rs_reaper rs = p_pid rr /\
    rs_pid rs =
      match p_children rr with
      | Some first =>
        match k_procs s !! first with Some fr => p_pid fr | None => -1 end
      | None => -1
      end /\
    isset (rs_flags rs) REAPER_STATUS_OWNED =
      negb (Z.land (p_treeflag pr) P_TREE_REAPER =? 0) /\
    isset (rs_flags rs) REAPER_STATUS_REALINIT = (reap =? initproc).
Proof.
  intros Hp reap Hr Hc Hf Hboth Hfirst.
  assert (Hflags : forall f,
    f = (if reap =? initproc
         then Z.lor (if Z.land (p_treeflag pr) P_TREE_REAPER =? 0 then 0
                     else Z.lor 0 REAPER_STATUS_OWNED) REAPER_STATUS_REALINIT
         else (if Z.land (p_treeflag pr) P_TREE_REAPER =? 0 then 0
               else Z.lor 0 REAPER_STATUS_OWNED)) ->
    isset f REAPER_STATUS_OWNED =
      negb (Z.land (p_treeflag pr) P_TREE_REAPER =? 0) /\
    isset f REAPER_STATUS_REALINIT = (reap =? initproc)).
  { intros f ->.
    destruct (reap =? initproc), (Z.land (p_treeflag pr) P_TREE_REAPER =? 0);
      split; reflexivity. }
  unfold reap_status, kbind. rewrite (deref_at _ _ _ Hp). fold reap.
  rewrite (deref_at _ _ _ Hr).
  destruct (p_reaplist rr) as [r1|] eqn:Er.
  - destruct (p_children rr) as [first|] eqn:Ec.
    2: { destruct Hboth as [_ Hb]. now specialize (Hb eq_refl). }
    destruct (Hfirst first eq_refl) as [fr Hfr].
    rewrite (deref_at _ _ _ Hfr).
    erewrite LIST_FOREACH_chain; [| |exact Hc|exact Hf].
    2: { intros q [c d] s0 r s' H. unfold kbind, kget, kret in H.
         injection H as _ <-. done. }
    rewrite (reap_status_foreach reap) by reflexivity.
    rewrite !u_int_count. unfold kret.
    eexists. split; [reflexivity|]. simpl. rewrite Hfr.
    repeat (split; [reflexivity|]). now apply Hflags.
  - destruct (p_children rr) as [first|] eqn:Ec.
    { destruct Hboth as [Hb _]. now specialize (Hb eq_refl). }
    simpl. destruct l as [|q l]; [|now destruct Hc].
    eexists. split; [reflexivity|]. simpl.
    repeat (split; [reflexivity|]). now apply Hflags.
Qed.

(** The assertions of [reap_status]: on a reaper that has processes on
    its reap list and no children, or children and an empty reap list, an
    assertion fails. *)
Theorem reap_status_asserts fuel td p s pr rr :
  k_procs s !! p = Some pr ->
  k_procs s !! reaper_of p pr = Some rr ->
  ~ (p_reaplist rr = None <-> p_children rr = None) ->
  reap_status fuel td p s = Panic.
Proof.
  intros Hp Hr Hne. unfold reap_status, kbind. rewrite (deref_at _ _ _ Hp).
  rewrite (deref_at _ _ _ Hr).
  destruct (p_reaplist rr) as [r1|], (p_children rr) as [first|];
    first [reflexivity | exfalso; apply Hne; split; congruence].
Qed.

(** A process that has children and has not been a reaper acquires the
    status: its reap list is empty, since the children stay with the
    reaper they had, and [reap_status] on it now fails an assertion. *)
Theorem reap_acquire_then_status td p s pr c fuel :
  k_procs s !! p = Some pr -> p = td_proc td ->
  Z.land (p_treeflag pr) P_TREE_REAPER = 0 ->
  p_reaplist pr = None -> p_children pr = Some c ->
  exists s1,
    reap_acquire td p s = Ok (0, s1) /\
    reap_status fuel td p s1 = Panic.
Proof.
  intros Hp Hself Hbit Hl Hc.
  unfold reap_acquire, curproc. rewrite <- Hself, Z.eqb_refl. simpl.
  unfold kbind. rewrite (deref_at _ _ _ Hp), Hbit. simpl.
  rewrite (update_at _ _ _ _ Hp). eexists. split; [reflexivity|].
  unfold reap_status, kbind, deref. simpl. rewrite lookup_insert_eq.
  unfold reaper_of. simpl.
  destruct (Z.land (Z.lor (p_treeflag pr) P_TREE_REAPER) P_TREE_REAPER =? 0) eqn:E.
  { apply Z.eqb_eq in E. now apply reaper_bit_set in E. }
  simpl. rewrite lookup_insert_eq. simpl. now rewrite Hl, Hc.
Qed.

(** ** Reaper signal fan-out: the reported process and the signals sent *)

Lemma reap_kill_fpid_foreach td ksi cands : forall error rk st e' rk' st',
  (forall q, q ∈ cands -> is_Some (k_procs st !! q)) ->
  foreach_list cands (reap_kill_body td ksi) (error, rk) st =
    Ok ((e', rk'), st') ->
  rk_fpid rk' =
    if error =? ESRCH
    then first_refused st td (rk_sig rk) (kill_selected st rk cands) (rk_fpid rk)
    else rk_fpid rk.
Proof.
  induction cands as [|p cands IH]; intros error rk st e' rk' st' Hin.
  - simpl. intros [= _ <- _]. now destruct (error =? ESRCH).
  - destruct (Hin p) as [pr Hp]; [left|].
    assert (Hin' : forall q, q ∈ cands -> is_Some (k_procs st !! q)).
    { intros q Hq. apply Hin. now right. }
    rewrite foreach_list_cons, (reap_kill_body_eq _ _ _ _ _ _ _ Hp).
    rewrite kill_selected_cons.
    destruct (subtree_match st rk p) eqn:Hf; simpl negb; cbv iota.
    2: { apply IH, Hin'. }
    cbn [first_refused]. rewrite Hp.
    destruct (p_cansignal td p (rk_sig rk) =? 0) eqn:He.
    + intros H. apply IH in H; [|exact Hin']. rewrite H.
      now destruct (error =? ESRCH).
    + destruct (error =? ESRCH) eqn:Hs.
      * intros H. apply IH in H; [|exact Hin']. rewrite H. reflexivity.
      * intros H. apply IH in H; [|exact Hin']. now rewrite Hs in H.
Qed.

(** [rk_fpid] after the loop of [reap_kill]: it is decided by the
    selected candidates up to the first one whose check returns anything
    but ESRCH.  It is -1 when no candidate is selected or the first
    selected candidate may be signalled, and the pid of the first selected
    candidate when that one is refused with a code other than ESRCH,
    whatever happens to the candidates after it. *)
Theorem reap_kill_loop_fpid fuel td ksi reap rk st rr cands :
  k_procs st !! reap = Some rr ->
  chain (k_procs st)
    (if negb (Z.land (rk_flags rk) REAPER_KILL_CHILDREN =? 0)
     then p_sibling else p_reapsibling)
    (if negb (Z.land (rk_flags rk) REAPER_KILL_CHILDREN =? 0)
     then p_children rr else p_reaplist rr) cands ->
  (length cands <= fuel)%nat ->
  let sel := kill_selected st rk cands in
  exists error killed fpid st',
    reap_kill_loop fuel td ksi reap rk st =
      Ok ((error, with_rk_out killed fpid rk), st') /\
    fpid = first_refused st td (rk_sig rk) sel (-1) /\
    (sel = [] -> fpid = -1) /\
    (forall q rest, sel = q :: rest ->
       p_cansignal td q (rk_sig rk) = 0 -> fpid = -1) /\
    (forall q rest qr, sel = q :: rest -> k_procs st !! q = Some qr ->
       p_cansignal td q (rk_sig rk) <> 0 ->
       p_cansignal td q (rk_sig rk) <> ESRCH -> fpid = p_pid qr).
Proof.
  intros Hr Hc Hf sel.
  assert (Hin : forall q, q ∈ cands -> is_Some (k_procs st !! q)).
  { intros q. eapply chain_lookup, Hc. }
  destruct (reap_kill_foreach td ksi cands ESRCH (with_rk_out 0 (-1) rk) st Hin)
    as [fpid Heq].
  pose proof (reap_kill_fpid_foreach _ _ _ _ _ _ _ _ _ Hin Heq) as Hfpid.
  change (ESRCH =? ESRCH) with true in Hfpid. cbv iota in Hfpid.
  cbn [rk_fpid rk_sig with_rk_out] in Hfpid.
  change (kill_selected st (with_rk_out 0 (-1) rk) cands) with sel in Hfpid.
  eexists _, _, fpid, _. split; [|split; [exact Hfpid|]].
  - unfold reap_kill_loop, kbind. rewrite (deref_at _ _ _ Hr).
    cbn [rk_flags with_rk_out].
    erewrite LIST_FOREACH_chain; [exact Heq| |exact Hc|exact Hf].
    intros p a s r s' Hb q. now rewrite (reap_kill_body_procs _ _ _ _ _ _ _ Hb).
  - rewrite Hfpid. split; [|split].
    + now intros ->.
    + intros q rest -> Hz. cbn [first_refused]. now rewrite Hz.
    + intros q rest qr -> Hq Hz Hs. cbn [first_refused]. rewrite Hq.
      apply Z.eqb_neq in Hz, Hs. now rewrite Hz, Hs.
Qed.


Lemma LIST_FOREACH_inv {A : Type} (I : A -> kstate -> Prop)
    field (body : procp -> A -> kern (bool * A)) fuel :
  (forall p a s r s', I a s -> body p a s = Ok (r, s') -> I (snd r) s') ->
  forall first acc s a' s',
  I acc s ->
  LIST_FOREACH fuel field first body acc s = Ok (a', s') -> I a' s'.
Proof.
  intros Hb. induction fuel as [|fuel IH]; intros first acc s a' s' Hi;
    destruct first as [p2|]; simpl; try discriminate;
    try (intros [= <- <-]; exact Hi).
  intros H. apply kbind_Ok in H as ([brk acc1] & s1 & Hbody & H).
  apply Hb in Hbody; [|exact Hi]. simpl in Hbody.
  destruct brk.
  - injection H as <- <-. exact Hbody.
  - apply kbind_Ok in H as (p2r & s2 & Hd & H).
    apply deref_Ok in Hd as [_ ->]. eapply IH; eassumption.
Qed.




(** ** The dispatcher and the system call *)

(** The case analysis of a [switch] on the command. *)
Ltac case_com com :=
  destruct (Z.eqb_spec com PROC_SPROTECT) as [-> | ?];
  [|destruct (Z.eqb_spec com PROC_REAP_ACQUIRE) as [-> | ?];
  [|destruct (Z.eqb_spec com PROC_REAP_RELEASE) as [-> | ?];
  [|destruct (Z.eqb_spec com PROC_REAP_STATUS) as [-> | ?];
  [|destruct (Z.eqb_spec com PROC_REAP_GETPIDS) as [-> | ?];
  [|destruct (Z.eqb_spec com PROC_REAP_KILL) as [-> | ?];
  [|destruct (Z.eqb_spec com PROC_TRACE_CTL) as [-> | ?];
  [|destruct (Z.eqb_spec com PROC_TRACE_STATUS) as [-> | ?]]]]]]]].

Lemma commands_elem com :
  com ∈ commands <->
  com = PROC_SPROTECT \/ com = PROC_REAP_ACQUIRE \/ com = PROC_REAP_RELEASE \/
  com = PROC_REAP_STATUS \/ com = PROC_REAP_GETPIDS \/ com = PROC_REAP_KILL \/
  com = PROC_TRACE_CTL \/ com = PROC_TRACE_STATUS.
Proof.
  unfold commands. rewrite !elem_of_cons, elem_of_nil. tauto.
Qed.

(** [kern_procctl] returns EINVAL and changes nothing when the command is
    none of the eight, when the identifier is neither of a process nor of
    a process group, and when a command other than [PROC_SPROTECT] and
    [PROC_TRACE_CTL] is not addressed to a process. *)
Theorem kern_procctl_rejects fuel td idtype id com data s :
  com ∉ commands \/
  (idtype <> P_PID /\ idtype <> P_PGID) \/
  (idtype <> P_PID /\ com <> PROC_SPROTECT /\ com <> PROC_TRACE_CTL) ->
  kern_procctl fuel td idtype id com data s = Ok ((EINVAL, data), s).
Proof.
  intros H. unfold kern_procctl.
  destruct (Z.eqb_spec idtype P_PID) as [Hpid | Hpid];
    destruct (Z.eqb_spec idtype P_PGID) as [Hpg | Hpg];
    case_com com; simpl; try reflexivity; exfalso;
    rewrite commands_elem in H;
    destruct H as [H | [[H1 H2] | (H1 & H2 & H3)]]; try done;
    apply H; tauto.
Qed.

(** A request addressed to a process that does not exist or that the
    caller cannot see returns an error and changes nothing: ESRCH or the
    error of [p_cansee] when the command is one of the eight. *)
Theorem kern_procctl_hidden fuel td id com data s :
  pfind id s = None \/
  (exists p, pfind id s = Some p /\ p_cansee td p <> 0) ->
  exists e,
    kern_procctl fuel td P_PID id com data s = Ok ((e, data), s) /\
    e <> 0 /\
    (com ∈ commands ->
     e = match pfind id s with
         | Some p => p_cansee td p
         | None => ESRCH
         end).
Proof.
  intros H.
  assert (Hrun : forall c,
    (let* s0 := kget in
     match pfind id s0 with
     | None => kret (ESRCH, data)
     | Some p =>
       let error := p_cansee td p in
       if error =? 0 then kern_procctl_single fuel td p c data
       else kret (error, data)
     end) s =
    Ok ((match pfind id s with
         | Some p => p_cansee td p
         | None => ESRCH
         end, data), s) /\
    match pfind id s with
    | Some p => p_cansee td p
    | None => ESRCH
    end <> 0).
  { intros c. unfold kbind, kget.
    destruct H as [-> | (p & -> & Hsee)]; [done|].
    apply Z.eqb_neq in Hsee as Hsee'. cbv zeta. now rewrite Hsee'. }
  unfold kern_procctl. change (P_PID =? P_PID) with true.
  case_com com; simpl;
    try (eexists; split; [apply Hrun|]; split; [apply (Hrun 0)|done]).
  exists EINVAL. split; [done|]. split; [done|].
  rewrite commands_elem. intros Hc. exfalso. tauto.
Qed.

Lemma reap_status_readonly fuel td p s r s' :
  reap_status fuel td p s = Ok (r, s') -> s' = s.
Proof.
  unfold reap_status. intros H. repeat kstep; try done.
  match goal with
  | H : LIST_FOREACH _ _ _ _ _ _ = Ok _ |- _ =>
    revert H; apply (LIST_FOREACH_inv (fun _ s1 => s1 = s))
  end; [|done].
  intros q [c d] s0 r0 s0' -> Hb. unfold kbind, kget, kret in Hb.
  now injection Hb as _ <-.
Qed.

Lemma trace_status_readonly td p s r s' :
  trace_status td p s = Ok (r, s') -> s' = s.
Proof. unfold trace_status. intros H. repeat kstep; done. Qed.

Lemma kern_procctl_status fuel td idtype id com data s e data' s' :
  com = PROC_REAP_STATUS \/ com = PROC_TRACE_STATUS ->
  kern_procctl fuel td idtype id com data s = Ok ((e, data'), s') ->
  s' = s /\
  (data' = data \/
   match data' with
   | DStatus _ => com = PROC_REAP_STATUS
   | DInt _ => com = PROC_TRACE_STATUS
   | _ => False
   end).
Proof.
  intros Hcom H. unfold kern_procctl in H.
  destruct (idtype =? P_PID); destruct Hcom as [-> | ->]; simpl in H;
    try (injection H as <- <- <-; split; [done|now left]);
    unfold kbind at 1, kget in H;
    (destruct (pfind id s) as [p|];
       [|injection H as <- <- <-; split; [done|now left]]);
    cbv zeta in H;
    (destruct (p_cansee td p =? 0);
       [|injection H as <- <- <-; split; [done|now left]]);
    unfold kern_procctl_single in H; simpl in H;
    destruct data; try discriminate H;
    apply kbind_Ok in H as ([e0 v0] & s1 & Hs & H);
    injection H as <- <- <-.
  - apply reap_status_readonly in Hs. split; [done|now right].
  - apply trace_status_readonly in Hs. split; [done|now right].
Qed.

(** [kern_procctl] with [PROC_REAP_STATUS] or [PROC_TRACE_STATUS] changes
    nothing, whatever it returns. *)
Theorem kern_procctl_status_readonly fuel td idtype id com data s e data' s' :
  com = PROC_REAP_STATUS \/ com = PROC_TRACE_STATUS ->
  kern_procctl fuel td idtype id com data s = Ok ((e, data'), s') -> s' = s.
Proof. intros Hcom H. now apply kern_procctl_status in H as [-> _]. Qed.





(** [sys_procctl] returns EINVAL for a command that is none of the eight
    and EFAULT for a command that reads its argument when [data] holds
    no record; nothing is changed in either case. *)
Theorem sys_procctl_bad_request fuel td uap s :
  (ua_com uap ∉ commands -> sys_procctl fuel td uap s = Ok (EINVAL, s)) /\
  (ua_com uap ∈ [PROC_SPROTECT; PROC_TRACE_CTL; PROC_REAP_GETPIDS;
                 PROC_REAP_KILL] ->
   k_umem s !! ua_data uap = None ->
   sys_procctl fuel td uap s = Ok (EFAULT, s)).
Proof.
  split.
  - rewrite commands_elem. intros H. unfold sys_procctl.
    remember (ua_com uap) as com eqn:Hcom. clear Hcom.
    case_com com; try (exfalso; tauto). reflexivity.
  - rewrite !elem_of_cons, elem_of_nil. intros Hc Hm. unfold sys_procctl.
    destruct Hc as [-> | [-> | [-> | [-> | []]]]]; simpl;
      unfold kbind, copyin; now rewrite Hm.
Qed.

(** ** Reaper introspection: what [reap_getpids] leaves behind *)

Lemma reap_getpids_fill_state reap n p2 acc s r s' :
  reap_getpids_fill reap n p2 acc s = Ok (r, s') -> s' = s.
Proof.
  destruct acc as [i pi]. unfold reap_getpids_fill, store. intros H.
  repeat kstep; try done.
  match goal with
  | H : kget _ = Ok _ |- _ => injection H as <- <-
  end.
  done.
Qed.

(** Whenever [reap_getpids] returns, it returns 0 or EFAULT, and it has
    changed nothing itself: the state is the one that the other threads
    leave after the two windows in which the process tree lock is
    released, with the entries written at [rp_pids] when 0 is returned
    and no change at all when EFAULT is returned. *)
Theorem reap_getpids_frame fuel td p rp s e s' :
  reap_getpids fuel td p rp s = Ok (e, s') ->
  let s2 := tree_unlocked (tree_unlocked s) in
  (e = 0 /\ is_Some (k_umem s2 !! rp_pids rp) /\
   exists entries,
     s' = with_k_umem (<[rp_pids rp := UPidinfo entries]> (k_umem s2)) s2) \/
  (e = EFAULT /\ k_umem s2 !! rp_pids rp = None /\ s' = s2).
Proof.
  intros H s2. unfold reap_getpids in H.
  apply kbind_Ok in H as (pr & s1 & Hd & H). apply deref_Ok in Hd as [Hp ->].
  apply kbind_Ok in H as (rr & s1 & Hd & H). apply deref_Ok in Hd as [Hr ->].
  apply kbind_Ok in H as (n & s1 & Hl & H).
  assert (s1 = s) as ->.
  { revert Hl. apply (LIST_FOREACH_inv (fun _ s0 => s0 = s)); [|done].
    intros q a s0 r s0' -> [= _ <-]. done. }
  apply kbind_Ok in H as (u & s1 & Hm & H). injection Hm as _ <-.
  apply kbind_Ok in H as (rr2 & s1 & Hd & H). apply deref_Ok in Hd as [Hr2 ->].
  apply kbind_Ok in H as ([i pi] & s1 & Hl2 & H).
  assert (s1 = tree_unlocked s) as ->.
  { revert Hl2.
    apply (LIST_FOREACH_inv (fun _ s0 => s0 = tree_unlocked s)); [|done].
    intros q a s0 r s0' -> Hb. now apply reap_getpids_fill_state in Hb. }
  apply kbind_Ok in H as (u2 & s1 & Hm & H). injection Hm as _ <-.
  fold s2 in H. unfold copyout in H.
  destruct (k_umem s2 !! rp_pids rp) eqn:E; injection H as <- <-.
  - left. split; [done|]. split; [now eexists|]. now eexists.
  - right. done.
Qed.

End Properties.

(** * The properties on the concrete system *)

Section Concrete.
Import Example.

(** C8 on process 2: traced by its parent in [debugged], not traced in
    [two]. *)
Lemma trace_ctl_enable_busy_disable_exec_untraceable_witness :
  trace_ctl (thread_of 2) 2 PROC_TRACE_CTL_ENABLE debugged = Ok (EBUSY, debugged) /\
  exists st',
    trace_ctl (thread_of 1) 2 PROC_TRACE_CTL_DISABLE_EXEC two = Ok (0, st') /\
    trace_status (thread_of 1) 2 st' = Ok ((0, -1), st').
Proof.
  split.
  - apply (trace_ctl_enable_busy_disable_exec_untraceable (thread_of 2) 2
             debugged (below 2 P_TRACED (Some 1) None None None)).
    + vm_compute. reflexivity.
    + left. vm_compute. reflexivity.
  - destruct (trace_ctl_enable_busy_disable_exec_untraceable (thread_of 1) 2
                two (below 2 0 (Some 1) None None None))
      as (_ & Hstatus & Hok).
    + vm_compute. reflexivity.
    + destruct Hok as [st' Hst'].
      * intros [H | H]; vm_compute in H; congruence.
      * exists st'. split; [exact Hst'|]. apply Hstatus, Hst'.
Defined.

(** C9 on process 2 of [sealed], by itself. *)
Lemma trace_ctl_disable_clears_exec_only_witness :
  exists st',
    trace_ctl (thread_of 2) 2 PROC_TRACE_CTL_DISABLE sealed = Ok (0, st') /\
    (p_flag2 <$> k_procs st' !! 2) = Some P2_NOTRACE /\
    trace_status (thread_of 2) 2 st' = Ok ((0, -1), st') /\
    (notrace_inv_all sealed -> notrace_inv_all st').
Proof.
  destruct (trace_ctl_disable_clears_exec_only (thread_of 2) 2 sealed)
    as (Hclears & Hok & Hinv).
  destruct (Hok (with_p_flag2 (Z.lor P2_NOTRACE P2_NOTRACE_EXEC)
                   (below 2 0 (Some 1) None None None))) as [st' Hst'].
  { vm_compute. reflexivity. }
  { vm_compute. reflexivity. }
  { reflexivity. }
  { intros [H | H]; vm_compute in H; congruence. }
  { vm_compute. reflexivity. }
  exists st'. split; [exact Hst'|].
  destruct (Hclears _ st' ltac:(vm_compute; reflexivity)
              ltac:(vm_compute; reflexivity) eq_refl Hst')
    as (-> & _ & _ & _ & Hstatus).
  split; [vm_compute; reflexivity|]. split; [exact Hstatus|].
  apply (Hinv PROC_TRACE_CTL_DISABLE 0). exact Hst'.
Defined.

(** C5 as stated fails: on [initproc], which has [P_TREE_REAPER] set,
    the calls by process 2 fail with EPERM, not with EINVAL or EBUSY. *)
Lemma reap_release_acquire_counterexample :
  reap_release (K := permissive) (thread_of 2) 1 two = Ok (EPERM, two) /\
  reap_release (K := permissive) (thread_of 2) 1 two <> Ok (EINVAL, two) /\
  reap_acquire (thread_of 2) 1 two = Ok (EPERM, two) /\
  reap_acquire (thread_of 2) 1 two <> Ok (EBUSY, two).
Proof.
  assert (H1 : reap_release (K := permissive) (thread_of 2) 1 two
               = Ok (EPERM, two)) by (vm_compute; reflexivity).
  assert (H2 : reap_acquire (thread_of 2) 1 two = Ok (EPERM, two))
    by (vm_compute; reflexivity).
  rewrite H1, H2.
  repeat split; try (intros [= H]; vm_compute in H; discriminate H).
Qed.

(** C5 as the code has it, on [initproc] called by itself and by
    process 2. *)
Lemma reap_release_acquire_rejected_witness :
  (reap_release (K := permissive) (thread_of 1) 1 two = Ok (EINVAL, two) /\
   reap_acquire (thread_of 1) 1 two = Ok (EBUSY, two)) /\
  (reap_release (K := permissive) (thread_of 2) 1 two = Ok (EPERM, two) /\
   reap_acquire (thread_of 2) 1 two = Ok (EPERM, two)).
Proof.
  split.
  - destruct (reap_release_acquire_rejected (K := permissive) (thread_of 1) 1
                two (init (Some 2) (Some 2))) as [Hrel Hacq].
    { vm_compute. reflexivity. }
    split; [apply Hrel; reflexivity|apply Hacq; vm_compute; congruence].
  - destruct (reap_release_acquire_rejected (K := permissive) (thread_of 2) 1
                two (init (Some 2) (Some 2))) as [Hrel Hacq].
    { vm_compute. reflexivity. }
    split; [apply Hrel; reflexivity|apply Hacq; vm_compute; congruence].
Defined.

(** C10 on a request of process 2 with [data] at address 4096. *)
Lemma sys_procctl_reap_data_not_null_witness :
  sys_procctl (K := permissive) 0 (thread_of 2)
    (mkargs P_PID 2 PROC_REAP_ACQUIRE 4096) two = Ok (EINVAL, two) /\
  sys_procctl (K := permissive) 0 (thread_of 2)
    (mkargs P_PID 2 PROC_REAP_RELEASE 4096) two = Ok (EINVAL, two).
Proof.
  split.
  - apply sys_procctl_reap_data_not_null; [left; reflexivity|].
    vm_compute. congruence.
  - apply sys_procctl_reap_data_not_null; [right; reflexivity|].
    vm_compute. congruence.
Defined.

(** C2 as stated fails: when the caller may not signal the first child,
    [rk_fpid] is the pid of that child, not -1. *)
Lemma reap_kill_three_children_counterexample :
  exists st',
    reap_kill (K := world (fun _ => 0) (fun _ => 0) (refuse 2 EPERM) false)
      3 (thread_of 1) 1 kill_children family =
      Ok ((0, mkrk 15 REAPER_KILL_CHILDREN 0 2 2), st') /\
    rk_fpid (mkrk 15 REAPER_KILL_CHILDREN 0 2 2) <> -1.
Proof.
  eexists. split; [vm_compute; reflexivity|]. simpl. lia.
Qed.

(** C2 as the code has it, when the caller may not signal the second
    child. *)
Lemma reap_kill_three_children_witness :
  exists st',
    reap_kill (K := world (fun _ => 0) (fun _ => 0) (refuse 3 EPERM) false)
      3 (thread_of 1) 1 kill_children family =
      Ok ((0, mkrk 15 REAPER_KILL_CHILDREN 0 2 (-1)), st').
Proof.
  destruct (reap_kill_three_children
              (K := world (fun _ => 0) (fun _ => 0) (refuse 3 EPERM) false)
              3 (thread_of 1) 1 kill_children family
              (init (Some 2) (Some 2)) (init (Some 2) (Some 2))
              (init (Some 2) (Some 2)) 2 3 4)
    as (ar & st' & Ha & Hrun).
  - reflexivity.
  - vm_compute. split; congruence.
  - reflexivity.
  - vm_compute. reflexivity.
  - vm_compute. reflexivity.
  - vm_compute. reflexivity.
  - vm_compute. repeat split.
  - vm_compute. reflexivity.
  - lia.
  - exists st'. rewrite Hrun. reflexivity.
Defined.

(** C3 as stated fails: with no candidate signalled, the error is the
    EPERM of the second candidate, not the ESRCH of the first. *)
Lemma reap_kill_loop_result_counterexample :
  let K := world (fun _ => 0) (fun _ => 0)
             (fun q => if q =? 2 then ESRCH else EPERM) false in
  reap_kill_loop (K := K) 3 (thread_of 1) (mkksi 15 SI_USER 1 1001) 1
    kill_children family =
    Ok ((EPERM, mkrk 15 REAPER_KILL_CHILDREN 0 0 3), family) /\
  p_cansignal (Collaborators := K) (thread_of 1) 2 15 = ESRCH /\
  EPERM <> ESRCH.
Proof.
  split; [vm_compute; reflexivity|]. split; [reflexivity|].
  vm_compute. congruence.
Qed.

(** C3 as the code has it, when the caller may not signal the second of
    the three candidates. *)
Lemma reap_kill_loop_result_witness :
  exists fpid st',
    reap_kill_loop (K := world (fun _ => 0) (fun _ => 0) (refuse 3 EPERM) false)
      3 (thread_of 1) (mkksi 15 SI_USER 1 1001) 1 kill_children family =
      Ok ((0, with_rk_out 2 fpid kill_children), st') /\
    k_sigq st' = [(4, 15, mkksi 15 SI_USER 1 1001);
                  (2, 15, mkksi 15 SI_USER 1 1001)].
Proof.
  destruct (reap_kill_loop_result
              (K := world (fun _ => 0) (fun _ => 0) (refuse 3 EPERM) false)
              3 (thread_of 1) (mkksi 15 SI_USER 1 1001) 1 kill_children family
              (init (Some 2) (Some 2)) [2; 3; 4])
    as (error & killed & fpid & st' & Hrun & _ & Hsig & Hk & _ & Hok & _ & _).
  - vm_compute. reflexivity.
  - vm_compute. repeat split.
  - simpl. lia.
  - exists fpid, st'. split; [|exact Hsig].
    rewrite Hrun, Hk, Hok; [reflexivity|]. vm_compute. congruence.
Defined.

(** C4 on the group of 2, 3, 4 and 5: the caller cannot see 2, the
    request fails with EPERM on the system process 3 and succeeds on 4
    and 5. *)
Lemma kern_procctl_group_witness :
  let K := world (refuse 2 ESRCH) (fun _ => 0) (fun _ => 0) false in
  exists st',
    members_run (K := K) 4 (thread_of 1) PROC_SPROTECT [2; 3; 4; 5]
      (DInt PPROT_SET) group =
      Ok (([None; Some EPERM; Some 0; Some 0], DInt PPROT_SET), st') /\
    kern_procctl (K := K) 4 (thread_of 1) P_PGID 2 PROC_SPROTECT
      (DInt PPROT_SET) group = Ok ((0, DInt PPROT_SET), st').
Proof.
  intros K.
  pose proof (kern_procctl_group (K := K) 4 (thread_of 1) 2 PROC_SPROTECT
                (DInt PPROT_SET) group (mkpgrp 2 (Some 2)) [2; 3; 4; 5]) as H.
  rewrite H.
  - eexists. split; vm_compute; reflexivity.
  - left. reflexivity.
  - vm_compute. reflexivity.
  - vm_compute. repeat split.
  - simpl. lia.
Defined.

(** C7 on the reap list 2, 3, 4 of [initproc] with room for two
    entries. *)
Lemma reap_getpids_bounded_witness :
  exists st',
    reap_getpids (K := permissive) 3 (thread_of 1) 1 (mkrp 2 4096) family =
      Ok (0, st') /\
    k_umem st' !! 4096 = Some (UPidinfo [mkpi 2 2 3; mkpi 3 3 3]).
Proof.
  destruct (reap_getpids_bounded (K := permissive) 3 (thread_of 1) 1
              (mkrp 2 4096) family (init (Some 2) (Some 2))
              (init (Some 2) (Some 2)) [2; 3; 4]
              (init (Some 2) (Some 2)) [2; 3; 4])
    as (Hrun & _ & _).
  - simpl. lia.
  - vm_compute. reflexivity.
  - vm_compute. reflexivity.
  - vm_compute. repeat split.
  - vm_compute. reflexivity.
  - vm_compute. repeat split.
  - simpl. lia.
  - simpl. lia.
  - rewrite Hrun. eexists. split; vm_compute; reflexivity.
Defined.

(** C6 on the tree of [initproc]: 1, 2 and 4 end protected, and the
    second call changes nothing. *)
Lemma protect_set_descend_witness :
  exists error s',
    protect_set (K := permissive) 8 (thread_of 1) 1
      (Z.lor PPROT_SET PPROT_DESCEND) tree = Ok (error, s') /\
    protect_set (K := permissive) 8 (thread_of 1) 1
      (Z.lor PPROT_SET PPROT_DESCEND) s' = Ok (error, s') /\
    forall q, q ∈ [1; 2; 4] ->
      exists qr', k_procs s' !! q = Some qr' /\
                  isset (p_flag qr') P_PROTECTED = true.
Proof.
  destruct (protect_set_descend (K := permissive) (thread_of 1) 1
              (Z.lor PPROT_SET PPROT_DESCEND) tree (init (Some 2) (Some 2))
              tree_kids)
    as (error & s' & Hrun & Hprot).
  - left. reflexivity.
  - reflexivity.
  - vm_compute. reflexivity.
  - vm_compute. repeat split.
  - exists error, s'. destruct (Hrun 8%nat) as [H1 H2]; [simpl; lia|].
    split; [exact H1|]. split; [exact H2|].
    intros q Hq.
    assert (Hlook : exists qr, k_procs tree !! q = Some qr /\
                      isset (p_flag qr) P_SYSTEM = false).
    { apply list_elem_of_In in Hq. simpl in Hq.
      destruct Hq as [<- | [<- | [<- | []]]]; eexists;
        split; vm_compute; reflexivity. }
    destruct Hlook as (qr & Hqr & Hsys).
    apply (Hprot q qr); [|exact Hqr|exact Hsys|reflexivity].
    apply list_elem_of_In in Hq. apply list_elem_of_In. simpl in *. tauto.
Defined.

(** ** The further properties on the examples *)

(** A [PPROT_SET] on the system process 3 is refused and changes
    nothing. *)
Lemma protect_set_error_unchanged_witness :
  exists s',
    protect_set (K := permissive) 0 (thread_of 1) 3 PPROT_SET group =
      Ok (EPERM, s') /\
    s' = group.
Proof.
  exists group. split; [vm_compute; reflexivity|].
  apply (protect_set_error_unchanged (K := permissive) 0 (thread_of 1) 3
           PPROT_SET group EPERM group).
  - vm_compute. reflexivity.
  - vm_compute. lia.
Defined.

(** A [PPROT_SET] on process 2 alone sets its [P_PROTECTED]. *)
Lemma protect_set_single_witness :
  exists pr',
    protect_set (K := permissive) 0 (thread_of 1) 2 PPROT_SET two =
      Ok (0, with_k_procs (<[2 := pr']> (k_procs two)) two) /\
    Z.testbit (p_flag pr') 20 = true.
Proof.
  destruct (protect_set_single (K := permissive) 0 (thread_of 1) 2 PPROT_SET
              two (below 2 0 (Some 1) None None None))
    as [Hel _].
  - split; [left; reflexivity|reflexivity].
  - reflexivity.
  - reflexivity.
  - vm_compute. reflexivity.
  - destruct Hel as (pr' & Hrun & _ & _ & Hbit & _).
    + split; reflexivity.
    + exists pr'. split; [exact Hrun|exact Hbit].
Defined.

(** A [PPROT_SET] with [PPROT_DESCEND] on the tree of [initproc] leaves
    the system process 3 and the user memory as they were. *)
Lemma protect_set_descend_frame_witness :
  exists error s',
    protect_set (K := permissive) 8 (thread_of 1) 1
      (Z.lor PPROT_SET PPROT_DESCEND) tree = Ok (error, s') /\
    k_procs s' !! 3 = Some (below 3 P_SYSTEM (Some 1) None None None) /\
    k_umem s' = k_umem tree.
Proof.
  destruct (protect_set_descend_frame (K := permissive) (thread_of 1) 1
              (Z.lor PPROT_SET PPROT_DESCEND) tree (init (Some 2) (Some 2))
              tree_kids)
    as (error & s' & Hrun & Hout & _ & Hmem & _).
  - split; [left; reflexivity|reflexivity].
  - reflexivity.
  - reflexivity.
  - vm_compute. reflexivity.
  - vm_compute. repeat split.
  - exists error, s'. split; [apply Hrun; simpl; lia|]. split; [|exact Hmem].
    apply Hout; [vm_compute; reflexivity|].
    right. intros [Hsys _]. vm_compute in Hsys. discriminate Hsys.
Defined.

(** A [PPROT_CLEAR] with [PPROT_DESCEND] on the tree of [initproc] leaves
    process 4 without [P_PROTECTED]. *)
Lemma protect_set_descend_effect_witness :
  exists error s',
    protect_set (K := permissive) 8 (thread_of 1) 1
      (Z.lor PPROT_CLEAR PPROT_DESCEND) tree = Ok (error, s') /\
    exists qr', k_procs s' !! 4 = Some qr' /\ Z.testbit (p_flag qr') 20 = false.
Proof.
  destruct (protect_set_descend_effect (K := permissive) (thread_of 1) 1
              (Z.lor PPROT_CLEAR PPROT_DESCEND) tree (init (Some 2) (Some 2))
              tree_kids)
    as (error & s' & Hrun & Heff).
  - split; [right; reflexivity|reflexivity].
  - reflexivity.
  - reflexivity.
  - vm_compute. reflexivity.
  - vm_compute. repeat split.
  - exists error, s'. split; [apply Hrun; simpl; lia|].
    destruct (Heff 4 (below 4 0 (Some 2) None None (Some 3)))
      as (qr' & Hq & Hbit & _).
    + apply list_elem_of_In. simpl. tauto.
    + vm_compute. reflexivity.
    + split; reflexivity.
    + exists qr'. split; [exact Hq|exact Hbit].
Defined.

(** A [PPROT_SET] with [PPROT_DESCEND] and [PPROT_INHERIT] on the tree of
    [initproc] returns 0. *)
Lemma protect_set_descend_result_witness :
  exists s',
    protect_set (K := permissive) 8 (thread_of 1) 1
      (Z.lor (Z.lor PPROT_SET PPROT_DESCEND) PPROT_INHERIT) tree = Ok (0, s').
Proof.
  destruct (protect_set_descend_result (K := permissive) (thread_of 1) 1
              (Z.lor (Z.lor PPROT_SET PPROT_DESCEND) PPROT_INHERIT) tree
              (init (Some 2) (Some 2)) tree_kids)
    as (error & s' & Hrun & Hsome & _).
  - split; [left; reflexivity|reflexivity].
  - reflexivity.
  - reflexivity.
  - vm_compute. reflexivity.
  - vm_compute. repeat split.
  - exists s'. rewrite <- Hsome; [apply Hrun; simpl; lia|].
    exists 2, (below 2 0 (Some 1) (Some 4) (Some 3) (Some 4)).
    split; [apply list_elem_of_In; simpl; tauto|].
    split; [vm_compute; reflexivity|]. split; reflexivity.
Defined.

(** Protecting process 2 and lifting the protection gives back the
    state. *)
Lemma protect_set_then_clear_witness :
  exists s1,
    protect_set (K := permissive) 0 (thread_of 1) 2
      (Z.lor PPROT_SET PPROT_INHERIT) two = Ok (0, s1) /\
    protect_set (K := permissive) 0 (thread_of 1) 2 PPROT_CLEAR s1 =
      Ok (0, two).
Proof.
  apply (protect_set_then_clear (K := permissive) 0 (thread_of 1) 2
           (Z.lor PPROT_SET PPROT_INHERIT) PPROT_CLEAR two
           (below 2 0 (Some 1) None None None)).
  - split; [left; reflexivity|reflexivity].
  - reflexivity.
  - reflexivity.
  - split; [right; reflexivity|reflexivity].
  - reflexivity.
  - reflexivity.
  - reflexivity.
  - vm_compute. reflexivity.
  - split; reflexivity.
  - reflexivity.
  - reflexivity.
Defined.

(** Process 2, sealed against tracing, enables tracing of itself; process
    1 may not do it for it. *)
Lemma trace_ctl_enable_by_self_witness :
  (exists s',
     trace_ctl (thread_of 2) 2 PROC_TRACE_CTL_ENABLE sealed = Ok (0, s') /\
     trace_status (thread_of 2) 2 s' = Ok ((0, 0), s')) /\
  trace_ctl (thread_of 1) 2 PROC_TRACE_CTL_ENABLE sealed = Ok (EPERM, sealed).
Proof.
  split.
  - destruct (trace_ctl_enable_by_self (thread_of 2) 2 sealed
                (with_p_flag2 (Z.lor P2_NOTRACE P2_NOTRACE_EXEC)
                   (below 2 0 (Some 1) None None None)))
      as [Hself _].
    + vm_compute. reflexivity.
    + intros [H | H]; vm_compute in H; [discriminate H|now apply H].
    + destruct Hself as (v & Hrun & _ & _ & _ & Hstatus); [reflexivity|].
      eexists. split; [exact Hrun|exact Hstatus].
  - destruct (trace_ctl_enable_by_self (thread_of 1) 2 sealed
                (with_p_flag2 (Z.lor P2_NOTRACE P2_NOTRACE_EXEC)
                   (below 2 0 (Some 1) None None None)))
      as [_ Hother].
    + vm_compute. reflexivity.
    + intros [H | H]; vm_compute in H; [discriminate H|now apply H].
    + apply Hother. vm_compute. lia.
Defined.

(** Process 1 disables the tracing of process 2. *)
Lemma trace_ctl_disable_plain_witness :
  exists s',
    trace_ctl (thread_of 1) 2 PROC_TRACE_CTL_DISABLE two = Ok (0, s') /\
    trace_status (thread_of 1) 2 s' = Ok ((0, -1), s').
Proof.
  destruct (trace_ctl_disable_plain (thread_of 1) 2 two
              (below 2 0 (Some 1) None None None))
    as (v & Hrun & _ & _ & Hstatus).
  - vm_compute. reflexivity.
  - intros [H | H]; vm_compute in H; [discriminate H|now apply H].
  - reflexivity.
  - eexists. split; [exact Hrun|exact Hstatus].
Defined.

(** The request on the traced process 2 is refused with EBUSY and changes
    nothing. *)
Lemma trace_ctl_error_unchanged_witness :
  exists s',
    trace_ctl (thread_of 2) 2 PROC_TRACE_CTL_DISABLE debugged =
      Ok (EBUSY, s') /\
    s' = debugged.
Proof.
  exists debugged. split; [vm_compute; reflexivity|].
  apply (trace_ctl_error_unchanged (thread_of 2) 2 PROC_TRACE_CTL_DISABLE
           debugged EBUSY debugged).
  - vm_compute. reflexivity.
  - vm_compute. lia.
Defined.

(** [PROC_TRACE_CTL_DISABLE_EXEC] on process 2 leaves [initproc] as it
    was. *)
Lemma trace_ctl_frame_witness :
  exists s',
    trace_ctl (thread_of 2) 2 PROC_TRACE_CTL_DISABLE_EXEC two = Ok (0, s') /\
    k_procs s' !! 1 = Some (init (Some 2) (Some 2)).
Proof.
  assert (Hrun : exists s',
    trace_ctl (thread_of 2) 2 PROC_TRACE_CTL_DISABLE_EXEC two = Ok (0, s')).
  { eexists. vm_compute. reflexivity. }
  destruct Hrun as (s' & Hrun). exists s'. split; [exact Hrun|].
  destruct (trace_ctl_frame _ _ _ _ _ _ Hrun) as (_ & _ & Hall).
  destruct (Hall 1 (init (Some 2) (Some 2))) as (qr' & Hq & Hsame & _).
  - vm_compute. reflexivity.
  - rewrite <- Hsame; [exact Hq|lia].
Defined.

(** Process 2 disables tracing until the next exec and enables it
    again. *)
Lemma trace_ctl_disable_then_enable_witness :
  exists s1,
    trace_ctl (thread_of 2) 2 PROC_TRACE_CTL_DISABLE_EXEC two = Ok (0, s1) /\
    trace_ctl (thread_of 2) 2 PROC_TRACE_CTL_ENABLE s1 = Ok (0, two).
Proof.
  apply (trace_ctl_disable_then_enable (thread_of 2) 2
           PROC_TRACE_CTL_DISABLE_EXEC two
           (below 2 0 (Some 1) None None None)).
  - right. reflexivity.
  - vm_compute. reflexivity.
  - intros [H | H]; vm_compute in H; [discriminate H|now apply H].
  - reflexivity.
  - reflexivity.
  - reflexivity.
Defined.

(** The status of the traced process 2 is the pid of its parent. *)
Lemma trace_status_value_witness :
  trace_status (thread_of 2) 2 debugged = Ok ((0, 1), debugged).
Proof.
  destruct (trace_status_value (thread_of 2) 2 debugged
              (below 2 P_TRACED (Some 1) None None None))
    as (v & Hrun & _ & Hpid & _).
  - vm_compute. reflexivity.
  - intros H. vm_compute in H. discriminate H.
  - intros _. exists 1, (init (Some 2) (Some 2)).
    split; [reflexivity|vm_compute; reflexivity].
  - destruct Hpid as (pp & ppr & Hpp & Hppr & ->); [reflexivity..|].
    injection Hpp as <-. vm_compute in Hppr. injection Hppr as <-.
    exact Hrun.
Defined.

(** Process 2 becomes a reaper, once. *)
Lemma reap_acquire_once_witness :
  exists s',
    reap_acquire (thread_of 2) 2 two = Ok (0, s') /\
    reap_acquire (thread_of 2) 2 s' = Ok (EBUSY, s').
Proof.
  destruct (reap_acquire_once (thread_of 2) 2 two
              (below 2 0 (Some 1) None None None))
    as (v & Hrun & _ & _ & Hagain).
  - vm_compute. reflexivity.
  - reflexivity.
  - reflexivity.
  - eexists. split; [exact Hrun|exact Hagain].
Defined.

(** The request of process 2 for itself succeeds: it was no reaper. *)
Lemma reap_acquire_result_witness :
  exists pr,
    k_procs two !! 2 = Some pr /\ Z.land (p_treeflag pr) P_TREE_REAPER = 0.
Proof.
  assert (Hrun : exists s', reap_acquire (thread_of 2) 2 two = Ok (0, s')).
  { eexists. vm_compute. reflexivity. }
  destruct Hrun as (s' & Hrun).
  destruct (reap_acquire_result _ _ _ _ _ Hrun) as [[Hz _] _].
  destruct Hz as (_ & pr & Hp & Hbit); [reflexivity|].
  exists pr. split; [exact Hp|exact Hbit].
Defined.

(** The reaper 2 gives up the status. *)
Lemma reap_release_result_witness :
  exists s',
    reap_release (K := permissive) (thread_of 2) 2 reaper2 = Ok (0, s') /\
    s' = reaper_abandon_children (Collaborators := permissive) 2 false reaper2.
Proof.
  assert (Hrun : exists s',
    reap_release (K := permissive) (thread_of 2) 2 reaper2 = Ok (0, s')).
  { eexists. vm_compute. reflexivity. }
  destruct Hrun as (s' & Hrun). exists s'. split; [exact Hrun|].
  destruct (reap_release_result (K := permissive) _ _ _ _ _ Hrun)
    as (_ & Hs & _).
  apply Hs. reflexivity.
Defined.

(** The status of the reaper of process 4: of the three processes on the
    reap list of [initproc], two are its children. *)
Lemma reap_status_counts_witness :
  exists rs,
    reap_status (K := permissive) 3 (thread_of 4) 4 tree = Ok ((0, rs), tree) /\
    rs_descendants rs = 3 /\ rs_children rs = 2 /\ rs_reaper rs = 1 /\
    rs_pid rs = 2.
Proof.
  destruct (reap_status_counts (K := permissive) 3 (thread_of 4) 4 tree
              (below 4 0 (Some 2) None None (Some 3))
              (init (Some 2) (Some 2)) [2; 4; 3])
    as (rs & Hrun & Hd & Hc & Hr & Hp & _).
  - vm_compute. reflexivity.
  - vm_compute. reflexivity.
  - vm_compute. repeat split.
  - simpl. lia.
  - split; intros H; discriminate H.
  - intros first [= <-]. eexists. vm_compute. reflexivity.
  - exists rs. split; [exact Hrun|]. split; [exact Hd|].
    split; [exact Hc|]. split; [exact Hr|exact Hp].
Defined.

(** [initproc] has a child and an empty reap list: the status of
    process 2 cannot be taken. *)
Lemma reap_status_asserts_witness :
  reap_status (K := permissive) 3 (thread_of 2) 2 unlisted = Panic.
Proof.
  apply (reap_status_asserts (K := permissive) 3 (thread_of 2) 2 unlisted
           (below 2 0 (Some 1) None None None) (init (Some 2) None)).
  - vm_compute. reflexivity.
  - vm_compute. reflexivity.
  - intros [H _]. specialize (H eq_refl). discriminate H.
Defined.

(** Process 2 of the tree, which has the child 4, becomes a reaper and
    asks for its status. *)
Lemma reap_acquire_then_status_witness :
  exists s1,
    reap_acquire (thread_of 2) 2 tree = Ok (0, s1) /\
    reap_status (K := permissive) 3 (thread_of 2) 2 s1 = Panic.
Proof.
  apply (reap_acquire_then_status (K := permissive) (thread_of 2) 2 tree
           (below 2 0 (Some 1) (Some 4) (Some 3) (Some 4)) 4 3).
  - vm_compute. reflexivity.
  - reflexivity.
  - reflexivity.
  - reflexivity.
  - reflexivity.
Defined.

(** The caller may not signal the first child of [initproc]: the loop
    reports process 2. *)
Lemma reap_kill_loop_fpid_witness :
  exists error killed st',
    reap_kill_loop (K := guarded 2) 3 (thread_of 1) (mkksi 15 SI_USER 1 1001)
      1 kill_children family =
    Ok ((error, with_rk_out killed 2 kill_children), st').
Proof.
  destruct (reap_kill_loop_fpid (K := guarded 2) 3 (thread_of 1)
              (mkksi 15 SI_USER 1 1001) 1 kill_children family
              (init (Some 2) (Some 2)) [2; 3; 4])
    as (error & killed & fpid & st' & Hrun & _ & _ & _ & Hfirst).
  - vm_compute. reflexivity.
  - vm_compute. repeat split.
  - simpl. lia.
  - exists error, killed, st'.
    rewrite (Hfirst 2 [3; 4] (below 2 0 (Some 1) None (Some 3) (Some 3)))
      in Hrun.
    + exact Hrun.
    + vm_compute. reflexivity.
    + vm_compute. reflexivity.
    + vm_compute. lia.
    + vm_compute. lia.
Defined.



(** [PROC_REAP_KILL] cannot be addressed to a process group. *)
Lemma kern_procctl_rejects_witness :
  kern_procctl (K := permissive) 3 (thread_of 1) P_PGID 2 PROC_REAP_KILL
    (DKill kill_children) family =
  Ok ((EINVAL, DKill kill_children), family).
Proof.
  apply (kern_procctl_rejects (K := permissive)).
  right. right. repeat split; vm_compute; lia.
Defined.

(** Process 3 asks for the status of process 2, which it cannot see. *)
Lemma kern_procctl_hidden_witness :
  kern_procctl (K := hidden 2) 0 (thread_of 3) P_PID 2 PROC_TRACE_STATUS
    (DInt 0) family =
  Ok ((ESRCH, DInt 0), family).
Proof.
  destruct (kern_procctl_hidden (K := hidden 2) 0 (thread_of 3) 2
              PROC_TRACE_STATUS (DInt 0) family)
    as (e & Hrun & _ & He).
  - right. exists 2. split; [vm_compute; reflexivity|vm_compute; lia].
  - rewrite He in Hrun; [exact Hrun|].
    apply list_elem_of_In. simpl. tauto.
Defined.

(** The status of the traced process 2 is read without a change. *)
Lemma kern_procctl_status_readonly_witness :
  exists s',
    kern_procctl (K := permissive) 0 (thread_of 1) P_PID 2 PROC_TRACE_STATUS
      (DInt 0) debugged = Ok ((0, DInt 1), s') /\
    s' = debugged.
Proof.
  exists debugged. split; [vm_compute; reflexivity|].
  apply (kern_procctl_status_readonly (K := permissive) 0 (thread_of 1)
           P_PID 2 PROC_TRACE_STATUS (DInt 0) debugged 0 (DInt 1) debugged).
  - right. reflexivity.
  - vm_compute. reflexivity.
Defined.



(** Command 99 is unknown, and address 0 holds no flags. *)
Lemma sys_procctl_bad_request_witness :
  sys_procctl (K := permissive) 0 (thread_of 2) (mkargs P_PID 2 99 4096) two =
    Ok (EINVAL, two) /\
  sys_procctl (K := permissive) 0 (thread_of 2)
    (mkargs P_PID 2 PROC_SPROTECT 0) two = Ok (EFAULT, two).
Proof.
  split.
  - apply (sys_procctl_bad_request (K := permissive) 0 (thread_of 2)
             (mkargs P_PID 2 99 4096) two).
    intros H. apply list_elem_of_In in H. vm_compute in H. lia.
  - apply (sys_procctl_bad_request (K := permissive) 0 (thread_of 2)
             (mkargs P_PID 2 PROC_SPROTECT 0) two).
    + apply list_elem_of_In. simpl. tauto.
    + vm_compute. reflexivity.
Defined.

(** The pids of the family are written at address 4096. *)
Lemma reap_getpids_frame_witness :
  exists entries,
    reap_getpids (K := permissive) 3 (thread_of 1) 1 (mkrp 2 4096) family =
    Ok (0, with_k_umem (<[4096 := UPidinfo entries]> (k_umem family)) family).
Proof.
  assert (Hrun : exists s',
    reap_getpids (K := permissive) 3 (thread_of 1) 1 (mkrp 2 4096) family =
      Ok (0, s')).
  { eexists. vm_compute. reflexivity. }
  destruct Hrun as (s' & Hrun).
  destruct (reap_getpids_frame (K := permissive) _ _ _ _ _ _ _ Hrun)
    as [(_ & _ & entries & Hs) | (He & _)].
  - exists entries. rewrite Hrun, Hs. reflexivity.
  - vm_compute in He. discriminate He.
Defined.

End Concrete.
